(** * Schema-to-ABI compiler and schema UID tools: a shallow embedding

    This development embeds the TypeScript sources of the attestation
    tooling (utils/easTools.ts, utils/basTools.ts, utils/did-utils.ts,
    tasks/generate-eas-object.ts and tasks/generate-bas-object.ts) as Rocq
    functions and proves the properties the specification states about
    them.

    Conventions.
    - A JavaScript string is a Rocq [string]: the sequence of the bytes of
      its UTF-8 encoding.  All literals of the sources are ASCII, where
      bytes, UTF-16 code units and characters coincide.
    - [toLowerCase] is the ASCII lowering of [A-Z]; bytes outside ASCII
      are left alone.
    - An object is the list of its own properties in the order in which
      [for ... in] enumerates them; [parseObject] gives that order from
      the order of the members in the document.
    - A byte sequence (Uint8Array) is a [list Z] of values in [0, 256).
    - A 64-bit lane is a [Z] in [0, 2^64); wrap-around is written out
      with [Z.land _ mask64]. *)

From Stdlib Require Import ZArith List String Ascii Bool Lia DecimalString Sorted.
From stdpp Require Import gmap strings list.
Import ListNotations.

Local Open Scope Z_scope.

(* ===================================================================== *)
(** * Strings as the sources use them                                     *)
(* ===================================================================== *)

Module Js.

(** [s.startsWith(p)] *)
Fixpoint startsWith (p s : string) : bool :=
  match p, s with
  | EmptyString, _ => true
  | String _ _, EmptyString => false
  | String a p', String b s' => Ascii.eqb a b && startsWith p' s'
  end.

(** [!s] for a string: only the empty string is falsy. *)
Definition falsy_string (s : string) : bool :=
  match s with EmptyString => true | _ => false end.

Definition is_upper (c : ascii) : bool :=
  let n := nat_of_ascii c in (65 <=? n)%nat && (n <=? 90)%nat.

Definition lower_ascii (c : ascii) : ascii :=
  if is_upper c then ascii_of_nat (nat_of_ascii c + 32) else c.

Definition upper_ascii (c : ascii) : ascii :=
  let n := nat_of_ascii c in
  if (97 <=? n)%nat && (n <=? 122)%nat then ascii_of_nat (n - 32) else c.

(** [s.toLowerCase()] *)
Fixpoint toLowerCase (s : string) : string :=
  match s with
  | EmptyString => EmptyString
  | String c r => String (lower_ascii c) (toLowerCase r)
  end.

(** [parts.join(sep)] *)
Fixpoint join (sep : string) (parts : list string) : string :=
  match parts with
  | [] => EmptyString
  | [p] => p
  | p :: rest => p +:+ sep +:+ join sep rest
  end.

(** [s.split(sep)] for a one-character separator: the pieces between the
    occurrences of [sep]; always at least one piece. *)
Fixpoint split_go (sep : ascii) (s : string) (cur : string) : list string :=
  match s with
  | EmptyString => [String.rev cur]
  | String c r =>
      if Ascii.eqb c sep then String.rev cur :: split_go sep r EmptyString
      else split_go sep r (String c cur)
  end.

Definition split (sep : ascii) (s : string) : list string :=
  split_go sep s EmptyString.

(** [s.slice(n)] for [n >= 0] *)
Fixpoint drop (n : nat) (s : string) : string :=
  match n, s with
  | O, _ => s
  | S _, EmptyString => EmptyString
  | S k, String _ r => drop k r
  end.

(** [s.slice(-n)]: the last [n] characters (the whole string when it is
    shorter). *)
Definition takeLast (n : nat) (s : string) : string :=
  drop (String.length s - n) s.

End Js.

(* ===================================================================== *)
(** * Keccak-256 (the hash behind [ethers.keccak256])                     *)
(* ===================================================================== *)

Module Keccak.

Definition mask64 : Z := Z.ones 64.

Definition rotl64 (x n : Z) : Z :=
  Z.land (Z.lor (Z.shiftl x n) (Z.shiftr x (64 - n))) mask64.

Definition not64 (x : Z) : Z := Z.lxor x mask64.

(** The state: 25 lanes, lane (x, y) at index [x + 5 * y]. *)
Definition lane (A : list Z) (x y : Z) : Z :=
  nth (Z.to_nat ((x mod 5) + 5 * (y mod 5))) A 0.

Definition coords : list (Z * Z) :=
  flat_map (fun y => map (fun x => (x, y)) [0; 1; 2; 3; 4]) [0; 1; 2; 3; 4].

Definition build (f : Z -> Z -> Z) : list Z :=
  map (fun '(x, y) => f x y) coords.

Definition round_constants : list Z :=
  [ 0x0000000000000001; 0x0000000000008082; 0x800000000000808A;
    0x8000000080008000; 0x000000000000808B; 0x0000000080000001;
    0x8000000080008081; 0x8000000000008009; 0x000000000000008A;
    0x0000000000000088; 0x0000000080008009; 0x000000008000000A;
    0x000000008000808B; 0x800000000000008B; 0x8000000000008089;
    0x8000000000008003; 0x8000000000008002; 0x8000000000000080;
    0x000000000000800A; 0x800000008000000A; 0x8000000080008081;
    0x8000000000008080; 0x0000000080000001; 0x8000000080008008 ].

(** Rotation offsets, indexed like the state. *)
Definition rotation_offsets : list Z :=
  [  0;  1; 62; 28; 27;
    36; 44;  6; 55; 20;
     3; 10; 43; 25; 39;
    41; 45; 15; 21;  8;
    18;  2; 61; 56; 14 ].

Definition theta (A : list Z) : list Z :=
  let C x := fold_left Z.lxor (map (lane A x) [1; 2; 3; 4]) (lane A x 0) in
  let D x := Z.lxor (C (x + 4)) (rotl64 (C (x + 1)) 1) in
  build (fun x y => Z.lxor (lane A x y) (D x)).

(** rho and pi together: B[y, 2x + 3y] = rot(A[x, y], r[x, y]); read
    backwards, B[X, Y] comes from A[x, X] with x = X + 3Y (mod 5). *)
Definition rho_pi (A : list Z) : list Z :=
  build (fun X Y =>
    let x := (X + 3 * Y) mod 5 in
    rotl64 (lane A x X) (lane rotation_offsets x X)).

Definition chi (B : list Z) : list Z :=
  build (fun x y =>
    Z.lxor (lane B x y) (Z.land (not64 (lane B (x + 1) y)) (lane B (x + 2) y))).

Definition iota (rc : Z) (A : list Z) : list Z :=
  match A with
  | [] => []
  | a :: rest => Z.lxor a rc :: rest
  end.

Definition round (A : list Z) (rc : Z) : list Z :=
  iota rc (chi (rho_pi (theta A))).

Definition keccak_f (A : list Z) : list Z := fold_left round round_constants A.

(** Little-endian lanes. *)
Fixpoint le_combine (bs : list Z) : Z :=
  match bs with
  | [] => 0
  | b :: rest => Z.lor b (Z.shiftl (le_combine rest) 8)
  end.

Fixpoint le_split (n : nat) (w : Z) : list Z :=
  match n with
  | O => []
  | S k => Z.land w 255 :: le_split k (Z.shiftr w 8)
  end.

Fixpoint chunks (fuel : nat) (size : nat) (bs : list Z) : list (list Z) :=
  match fuel with
  | O => []
  | S k =>
      match bs with
      | [] => []
      | _ => firstn size bs :: chunks k size (skipn size bs)
      end
  end.

Definition rate : nat := 136.

(** Keccak padding 0x01 .. 0x80 (one byte 0x81 when a single byte is
    missing), to a multiple of the rate. *)
Definition pad (msg : list Z) : list Z :=
  let missing := (rate - (List.length msg mod rate))%nat in
  match missing with
  | 1%nat => msg ++ [0x81]
  | _ => msg ++ [0x01] ++ repeat 0 (missing - 2) ++ [0x80]
  end.

Fixpoint xor_lanes (A B : list Z) : list Z :=
  match A, B with
  | a :: A', b :: B' => Z.lxor a b :: xor_lanes A' B'
  | _, [] => A
  | [], _ => []
  end.

Definition absorb (A : list Z) (block : list Z) : list Z :=
  keccak_f (xor_lanes A (map le_combine (chunks 17 8 block))).

Definition keccak256 (msg : list Z) : list Z :=
  let p := pad msg in
  let final := fold_left absorb (chunks (List.length p) rate p) (repeat 0 25) in
  flat_map (le_split 8) (firstn 4 final).

End Keccak.

(* ===================================================================== *)
(** * The parts of ethers the tools call                                   *)
(* ===================================================================== *)

Module Ethers.

(** [ethers.toUtf8Bytes(s)] *)
Definition toUtf8Bytes (s : string) : list Z :=
  map (fun c => Z.of_nat (nat_of_ascii c)) (list_ascii_of_string s).

Definition hex_digit (n : Z) : ascii :=
  ascii_of_nat (Z.to_nat (if n <? 10 then 48 + n else 87 + n)).

Fixpoint hex_of_bytes (bs : list Z) : string :=
  match bs with
  | [] => EmptyString
  | b :: rest =>
      String (hex_digit (Z.shiftr b 4))
        (String (hex_digit (Z.land b 15)) (hex_of_bytes rest))
  end.

(** [ethers.hexlify(bytes)]: 0x and two lowercase hex digits per byte. *)
Definition hexlify (bs : list Z) : string := "0x" +:+ hex_of_bytes bs.

(** [ethers.keccak256(bytes)]: the digest as a 0x-prefixed hex string. *)
Definition keccak256 (bs : list Z) : string := hexlify (Keccak.keccak256 bs).

Definition hex_value (c : ascii) : option Z :=
  let n := Z.of_nat (nat_of_ascii c) in
  if (48 <=? n) && (n <=? 57) then Some (n - 48)
  else if (97 <=? n) && (n <=? 102) then Some (n - 87)
  else if (65 <=? n) && (n <=? 70) then Some (n - 55)
  else None.

Definition is_hex (c : ascii) : bool :=
  match hex_value c with Some _ => true | None => false end.

Fixpoint bytes_of_hex (s : string) : option (list Z) :=
  match s with
  | EmptyString => Some []
  | String h (String l rest) =>
      match hex_value h, hex_value l, bytes_of_hex rest with
      | Some a, Some b, Some bs => Some (16 * a + b :: bs)
      | _, _, _ => None
      end
  | String _ EmptyString => None
  end.

Definition is_upper_hex (c : ascii) : bool :=
  let n := nat_of_ascii c in (65 <=? n)%nat && (n <=? 70)%nat.
Definition is_lower_hex (c : ascii) : bool :=
  let n := nat_of_ascii c in (97 <=? n)%nat && (n <=? 102)%nat.

Definition string_exists (f : ascii -> bool) (s : string) : bool :=
  existsb f (list_ascii_of_string s).
Definition string_forall (f : ascii -> bool) (s : string) : bool :=
  forallb f (list_ascii_of_string s).

(** The EIP-55 checksum spelling of 40 lowercase hex digits: digit [i] is
    written in upper case when nibble [i] of the Keccak-256 digest of the
    digits is 8 or more. *)
Fixpoint checksum_go (digits : list ascii) (hashed : list Z) : list ascii :=
  match digits, hashed with
  | h :: l :: rest, b :: bs =>
      (if 8 <=? Z.shiftr b 4 then Js.upper_ascii h else h)
      :: (if 8 <=? Z.land b 15 then Js.upper_ascii l else l)
      :: checksum_go rest bs
  | _, _ => digits
  end.

Definition getChecksumAddress (digits : string) : string :=
  let low := Js.toLowerCase digits in
  "0x" +:+ string_of_list_ascii
    (checksum_go (list_ascii_of_string low) (Keccak.keccak256 (toUtf8Bytes low))).

(** [ethers.getAddress(a)] on the hexadecimal form: 40 hex digits with an
    optional 0x; a mixed-case spelling must be the checksum spelling.
    [None] stands for the thrown "invalid address" / "bad address
    checksum" errors.  The ICAP (XE..) form is not modelled and is
    answered [None] too. *)
Definition getAddress (address : string) : option string :=
  let digits := if Js.startsWith "0x" address then Js.drop 2 address else address in
  if (String.length digits =? 40)%nat && string_forall is_hex digits then
    let result := getChecksumAddress digits in
    if string_exists is_upper_hex digits && string_exists is_lower_hex digits
       && negb (String.eqb result ("0x" +:+ digits))
    then None
    else Some result
  else None.

(** [ethers.solidityPacked(["string", "address", "bool"], [s, a, b])]:
    the UTF-8 bytes of [s], the 20 bytes of [a], one byte for [b]; no
    padding and no length prefix. *)
Definition solidityPacked_string_address_bool
    (s : string) (a : string) (b : bool) : option (list Z) :=
  match getAddress a with
  | Some addr =>
      match bytes_of_hex (Js.drop 2 addr) with
      | Some raw => Some (toUtf8Bytes s ++ raw ++ [if b then 1 else 0])
      | None => None
      end
  | None => None
  end.

End Ethers.

(* ===================================================================== *)
(** * utils/easTools.ts                                                    *)
(* ===================================================================== *)

Module EasTools.

(** [calculateSchemaUID]: Keccak-256 of the tight packing of the schema
    string, the resolver address and the revocable flag.  [None] is the
    error [solidityPacked] throws on an invalid address. *)
Definition calculateSchemaUID
    (schema resolverAddress : string) (revocable : bool) : option string :=
  match Ethers.solidityPacked_string_address_bool schema resolverAddress revocable with
  | Some packed => Some (Ethers.keccak256 packed)
  | None => None
  end.

(** [formatSchemaUID] *)
Definition formatSchemaUID (schemaUID : string) : string :=
  if Js.falsy_string schemaUID then ""
  else if Js.startsWith "0x" schemaUID then schemaUID
  else "0x" +:+ schemaUID.

End EasTools.

(* ===================================================================== *)
(** * utils/basTools.ts                                                    *)
(* ===================================================================== *)

Module BasTools.

(** [calculateSchemaUID]: Keccak-256 of the UTF-8 bytes of the schema
    string; the two other parameters are not read. *)
Definition calculateSchemaUID
    (schema resolverAddress : string) (revocable : bool) : string :=
  Ethers.keccak256 (Ethers.toUtf8Bytes schema).

(** [formatSchemaUID] *)
Definition formatSchemaUID (schemaUID : string) : string :=
  if Js.falsy_string schemaUID then ""
  else if Js.startsWith "0x" schemaUID then schemaUID
  else "0x" +:+ schemaUID.

End BasTools.

(* ===================================================================== *)
(** * utils/did-utils.ts                                                   *)
(* ===================================================================== *)

Module DidUtils.

(** The three [throw new Error(...)] of [canonicalizeDID]. *)
Inductive did_error :=
| MustStartWithDid      (* Invalid DID format: must start with did: *)
| InsufficientParts     (* Invalid DID format: insufficient parts *)
| PkhNeedsFiveParts.    (* Invalid did:pkh format: must have 5 parts *)

Inductive result (A : Type) :=
| Ok (a : A)
| Throw (e : did_error).
Arguments Ok {A} a.
Arguments Throw {A} e.

Definition and_then {A B} (r : result A) (k : A -> result B) : result B :=
  match r with
  | Ok a => k a
  | Throw e => Throw e
  end.

(** [canonicalizeDID] *)
Definition canonicalizeDID (did : string) : result string :=
  if negb (Js.startsWith "did:" did) then Throw MustStartWithDid
  else
    let parts := Js.split ":" did in
    if (List.length parts <? 3)%nat then Throw InsufficientParts
    else
      let method := nth 1 parts "" in
      if String.eqb method "web" then
        let hostAndPath := Js.join ":" (skipn 2 parts) in
        match Js.split "/" hostAndPath with
        | [] => Ok "did:web:" (* unreachable: split returns a piece *)
        | host :: pathParts =>
            let canonicalHost := Js.toLowerCase host in
            let path :=
              if (0 <? List.length pathParts)%nat
              then "/" +:+ Js.join "/" pathParts else "" in
            Ok ("did:web:" +:+ canonicalHost +:+ path)
        end
      else if String.eqb method "pkh" then
        if negb (List.length parts =? 5)%nat then Throw PkhNeedsFiveParts
        else
          let namespace := nth 2 parts "" in
          let chainId := nth 3 parts "" in
          let address := nth 4 parts "" in
          Ok ("did:pkh:" +:+ namespace +:+ ":" +:+ chainId +:+ ":"
              +:+ Js.toLowerCase address)
      else Ok (Js.toLowerCase did).

(** [computeDidHash] *)
Definition computeDidHash (did : string) : result string :=
  and_then (canonicalizeDID did) (fun canonicalDid =>
  Ok (Ethers.keccak256 (Ethers.toUtf8Bytes canonicalDid))).

(** [computeDidIndex] *)
Definition computeDidIndex (didHash : string) : string :=
  let prefix := "DID:Solidity:Address:v1:" in
  let combined := prefix +:+ Js.drop 2 didHash in
  let hash := Ethers.keccak256 (Ethers.toUtf8Bytes combined) in
  "0x" +:+ Js.takeLast 40 hash.

(** [didToIndexAddress] *)
Definition didToIndexAddress (did : string) : result string :=
  and_then (computeDidHash did) (fun didHash => Ok (computeDidIndex didHash)).

(** [validateDidIndex]: the [catch] answers [false] to whatever
    [didToIndexAddress] throws. *)
Definition validateDidIndex (did indexAddress : string) : bool :=
  match didToIndexAddress did with
  | Ok expectedAddress =>
      String.eqb (Js.toLowerCase expectedAddress) (Js.toLowerCase indexAddress)
  | Throw _ => false
  end.

End DidUtils.

(* ===================================================================== *)
(** * Parsed JSON documents                                                *)
(* ===================================================================== *)

Module Json.

#[local] Set Warnings "-register-all".

(** What [JSON.parse] returns.  A number is carried by the text
    [String(n)] prints for it.  The fields of an object are its own
    properties in the order [for ... in] and [Object.values] enumerate
    them (for a parsed document: the order of the text, except that keys
    spelling an array index come first); keys are distinct. *)
Inductive json :=
| JNull
| JBool (b : bool)
| JNum (text : string)
| JStr (s : string)
| JArr (items : list json)
| JObj (fields : list (string * json)).

(** Truthiness: [if (v)], [!v], [a || b]. *)
Definition truthy (v : json) : bool :=
  match v with
  | JNull => false
  | JBool b => b
  | JNum t => negb (String.eqb t "0")
  | JStr s => negb (Js.falsy_string s)
  | JArr _ | JObj _ => true
  end.

(** [undefined] is [None]. *)
Definition truthy_opt (v : option json) : bool :=
  match v with Some x => truthy x | None => false end.

Fixpoint assoc {A} (k : string) (l : list (string * A)) : option A :=
  match l with
  | [] => None
  | (k', v) :: rest => if String.eqb k k' then Some v else assoc k rest
  end.

(** [v.name] and [v?.name] for the member names the sources spell out
    (type, items, pattern, oneOf, ...): a member of an object; arrays,
    strings, numbers and booleans have no such member.  Reading a member
    of [null] throws in JavaScript; the interfaces [JsonSchemaProperty]
    and [InputJsonSchema] have no [null] there, and the embedding reads
    it as absent. *)
Definition member (name : string) (v : json) : option json :=
  match v with
  | JObj fields => assoc name fields
  | _ => None
  end.

Definition string_of_nat (n : nat) : string :=
  NilEmpty.string_of_uint (Nat.to_uint n).

(** [key in v] and [v[key]] for [typeof v === 'object']: an own property
    of an object; an index or [length] of an array.  Inherited members
    (constructor, toString, ...) are not modelled. *)
Definition own_property (key : string) (v : json) : option json :=
  match v with
  | JObj fields => assoc key fields
  | JArr items =>
      if String.eqb key "length" then Some (JNum (string_of_nat (List.length items)))
      else
        match find (fun i => String.eqb (string_of_nat i) key)
                   (seq 0 (List.length items)) with
        | Some i => nth_error items i
        | None => None
        end
  | _ => None
  end.

(** [String(v)] *)
Fixpoint js_String (v : json) : string :=
  match v with
  | JNull => "null"
  | JBool true => "true"
  | JBool false => "false"
  | JNum t => t
  | JStr s => s
  | JArr items =>
      Js.join "," (map (fun x => match x with JNull => "" | _ => js_String x end) items)
  | JObj _ => "[object Object]"
  end.

Fixpoint index_from {A} (i : nat) (l : list A) : list (string * A) :=
  match l with
  | [] => []
  | x :: rest => (string_of_nat i, x) :: index_from (S i) rest
  end.

(** The own enumerable properties, as [for ... in], [Object.values] and
    object spread see them. *)
Definition entries (v : json) : list (string * json) :=
  match v with
  | JObj fields => fields
  | JArr items => index_from 0 items
  | JStr s => index_from 0 (map (fun c => JStr (String c "")) (list_ascii_of_string s))
  | _ => []
  end.

Fixpoint remove_key {A} (k : string) (l : list (string * A)) : list (string * A) :=
  match l with
  | [] => []
  | (k', v) :: rest =>
      if String.eqb k k' then remove_key k rest else (k', v) :: remove_key k rest
  end.

Fixpoint set_key {A} (k : string) (v : A) (l : list (string * A)) : list (string * A) :=
  match l with
  | [] => [(k, v)]
  | (k', v') :: rest =>
      if String.eqb k k' then (k, v) :: rest else (k', v') :: set_key k v rest
  end.

(** [{ ...base, ...over }]: the properties of [base], each one replaced
    by the property of [over] of the same key, then the other properties
    of [over]. *)
Definition spread (base over : list (string * json)) : list (string * json) :=
  fold_left (fun acc '(k, v) => set_key k v acc) over base.

End Json.

Import Json.

(** [x.toLowerCase()] where the interface declares [x] a string.  On a
    value that is not a string the call throws in JavaScript; such a
    document is outside the interface, and the embedding reads the value
    through [String(x)]. *)
Definition lowered (v : json) : string := Js.toLowerCase (js_String v).

(** [t !== "null"] *)
Definition is_not_null_name (t : json) : bool :=
  match t with
  | JStr s => negb (String.eqb s "null")
  | _ => true
  end.

(** [v === "s"] *)
Definition is_str (s : string) (v : option json) : bool :=
  match v with
  | Some (JStr s') => String.eqb s' s
  | _ => false
  end.

(** [a || b] *)
Definition or_else (a b : option json) : option json :=
  if truthy_opt a then a else b.

(* ===================================================================== *)
(** * Loading and resolving references                                     *)
(* ===================================================================== *)

(** [schemaCache], [loadExternalSchema], [resolveRef], [resolveProperty]:
    the same text in generate-eas-object.ts and generate-bas-object.ts
    (the console warnings apart, which are not modelled). *)
Module Refs.

(** What the code asks of Node: [path.resolve], [fs.existsSync], and
    [JSON.parse(fs.readFileSync(p, 'utf-8'))], which is [None] when the
    read or the parse throws. *)
Record host := {
  path_resolve : string -> string -> string;
  existsSync : string -> bool;
  readJson : string -> option json
}.

(** Disk accesses, tagged with the relative path that caused them. *)
Inductive event :=
| EvExists (schemaPath fullPath : string)
| EvRead (schemaPath fullPath : string) (parsed : bool).

(** The module-level [schemaCache], and the log of disk accesses. *)
Record state := {
  schemaCache : gmap string json;
  diskLog : list event
}.

Definition initial : state := {| schemaCache := ∅; diskLog := [] |}.

Definition M (A : Type) : Type := state -> A * state.
Definition ret {A} (a : A) : M A := fun st => (a, st).
Definition bind {A B} (c : M A) (k : A -> M B) : M B :=
  fun st => let '(a, st') := c st in k a st'.

Notation "'let*' x ':=' c 'in' k" := (bind c (fun x => k))
  (at level 10, x name, c at level 100, k at level 200).

Definition touch (e : event) : M unit :=
  fun st => (tt, {| schemaCache := schemaCache st; diskLog := diskLog st ++ [e] |}).

Definition cache_set (k : string) (v : json) : M unit :=
  fun st => (tt, {| schemaCache := <[k := v]> (schemaCache st); diskLog := diskLog st |}).

Definition cache_get (k : string) : M (option json) :=
  fun st => (schemaCache st !! k, st).

(** [loadExternalSchema]; the result [JNull] is [return null]. *)
Definition loadExternalSchema (h : host) (schemaPath baseDir : string) : M json :=
  let* cached := cache_get schemaPath in
  match cached with
  | Some doc => ret doc
  | None =>
      let fullPath := path_resolve h baseDir schemaPath in
      let* _ := touch (EvExists schemaPath fullPath) in
      if negb (existsSync h fullPath) then ret JNull
      else
        match readJson h fullPath with
        | Some schema =>
            let* _ := touch (EvRead schemaPath fullPath true) in
            let* _ := cache_set schemaPath schema in
            ret schema
        | None =>
            let* _ := touch (EvRead schemaPath fullPath false) in
            ret JNull
        end
  end.

(** The loop of [resolveRef] over the parts of the pointer; [None] is the
    early [return null]. *)
Fixpoint walk (pathParts : list string) (current : json) : option json :=
  match pathParts with
  | [] => Some current
  | part :: rest =>
      match own_property part current with
      | Some next => walk rest next
      | None => None
      end
  end.

Definition resolvePointer (pointer : string) (targetSchema : json) : json :=
  if negb (Js.startsWith "#/" pointer) then JNull
  else
    match walk (Js.split "/" (Js.drop 2 pointer)) targetSchema with
    | Some current => current
    | None => JNull
    end.

Definition includes_char (c : ascii) (s : string) : bool :=
  existsb (Ascii.eqb c) (list_ascii_of_string s).

(** [resolveRef] *)
Definition resolveRef (h : host) (ref : string) (currentSchema : json)
    (baseDir : string) : M json :=
  if Js.falsy_string ref then ret JNull
  else if includes_char "#" ref && negb (Js.startsWith "#" ref) then
    let parts := Js.split "#" ref in
    let filePath := nth 0 parts "" in
    let fragment := nth 1 parts "" in
    let* targetSchema := loadExternalSchema h filePath baseDir in
    if negb (truthy targetSchema) then ret JNull
    else ret (resolvePointer ("#" +:+ fragment) targetSchema)
  else ret (resolvePointer ref currentSchema).

(** [resolveProperty].  [$ref] is a string in the interface; a property
    whose [$ref] holds another truthy value is outside it and is returned
    as it is. *)
Definition resolveProperty (h : host) (prop : json) (currentSchema : json)
    (baseDir : string) : M json :=
  if negb (truthy prop) then ret prop
  else
    match member "$ref" prop with
    | Some (JStr ref) =>
        if Js.falsy_string ref then ret prop
        else
          let* resolved := resolveRef h ref currentSchema baseDir in
          if truthy resolved then
            let localProps := remove_key "$ref" (entries prop) in
            ret (JObj (spread (entries resolved) localProps))
          else ret prop
    | _ => ret prop
    end.

End Refs.

Import Refs.

(* ===================================================================== *)
(** * tasks/generate-eas-object.ts                                         *)
(* ===================================================================== *)

Module GenerateEasObject.

Definition order : list string :=
  ["object"; "array"; "string"; "integer"; "number"; "boolean"].

Definition includes (t : string) (types : list string) : bool :=
  existsb (String.eqb t) types.

(** [pickPriorityType]; both callers pass an array. *)
Definition pickPriorityType (types : list string) : option string :=
  match types with
  | [] => None
  | first :: _ =>
      match find (fun t => includes t types) order with
      | Some t => Some t
      | None => Some first
      end
  end.

(** The two lines [if (typeof x?.type === "string") out.push(x.type);
    if (Array.isArray(x?.type)) out.push(...x.type)]. *)
Definition pushTypes (x : json) : list json :=
  match member "type" x with
  | Some (JStr t) => [JStr t]
  | Some (JArr ts) => ts
  | _ => []
  end.

(** [if (b?.then?.properties) for (const prop of Object.values(...))] *)
Definition pushConditional (branch : option json) : list json :=
  match branch with
  | Some c =>
      match member "properties" c with
      | Some props =>
          if truthy props then flat_map pushTypes (map snd (entries props)) else []
      | None => []
      end
  | None => []
  end.

Definition arrayOrEmpty (v : option json) : list json :=
  match v with Some (JArr items) => items | _ => [] end.

(** [collectTypesFromBranches] *)
Definition collectTypesFromBranches (s : json) : list json :=
  let branches :=
    arrayOrEmpty (member "oneOf" s) ++ arrayOrEmpty (member "anyOf" s)
    ++ arrayOrEmpty (member "allOf" s) in
  flat_map (fun b =>
    pushTypes b ++ pushConditional (member "then" b)
    ++ pushConditional (member "else" b)) branches.

(** [resolveJsonType] *)
Definition resolveJsonType (propSchema : json) : option string :=
  if negb (truthy propSchema) then None
  else
    match member "type" propSchema with
    | Some (JStr t) => Some (Js.toLowerCase t)
    | Some (JArr ts) =>
        pickPriorityType (map Js.toLowerCase (map js_String ts))
    | _ =>
        let branchTypes := map lowered (collectTypesFromBranches propSchema) in
        if (0 <? List.length branchTypes)%nat then pickPriorityType branchTypes
        else None
    end.

Fixpoint hex_run (n : nat) (s : string) : bool :=
  match n with
  | O => true
  | S k =>
      match s with
      | EmptyString => false
      | String c r => Ethers.is_hex c && hex_run k r
      end
  end.

(** [/0x[a-fA-F0-9]{64}/.test(s)]: somewhere in [s], the two characters
    0x followed by 64 hexadecimal digits. *)
Fixpoint test_0x_hex64 (s : string) : bool :=
  match s with
  | EmptyString => false
  | String _ r =>
      (Js.startsWith "0x" s && hex_run 64 (Js.drop 2 s)) || test_0x_hex64 r
  end.

Record context := {
  propName : string;
  pattern : option json;
  xAbi : option json
}.

(** [jsonTypeToAbi] *)
Definition jsonTypeToAbi (effectiveType : option string) (ctx : context) : string :=
  if is_str "bytes32" (xAbi ctx) then "bytes32"
  else
    match option_map Js.toLowerCase effectiveType with
    | Some t =>
        if String.eqb t "object" then "string"
        else if String.eqb t "string" then
          match pattern ctx with
          | Some p =>
              if truthy p && test_0x_hex64 (js_String p) then "bytes32" else "string"
          | None => "string"
          end
        else if String.eqb t "integer" || String.eqb t "number" then "uint256"
        else if String.eqb t "boolean" then "bool"
        else "string"
    | None => "string"
    end.

(** The fallback [resolvedItems.type] of the array branch. *)
Definition directType (resolvedItems : json) : option json :=
  match member "type" resolvedItems with
  | Some (JArr ts) => or_else (find is_not_null_name ts) (head ts)
  | other => other
  end.

(** [switch (itemType.toLowerCase())] of the array branch. *)
Definition arrayOf (itemType : string) : option string :=
  let t := Js.toLowerCase itemType in
  if String.eqb t "string" then Some "string[]"
  else if String.eqb t "integer" || String.eqb t "number" then Some "uint256[]"
  else if String.eqb t "boolean" then Some "bool[]"
  else if String.eqb t "object" then Some "string[]"
  else None.

(** The item type of the array branch, once the items are resolved:
    [resolveJsonType(resolvedItems)], replaced by the direct type when it
    is falsy and [resolvedItems.type] is truthy. *)
Definition itemTypeOf (resolvedItems : json) : option json :=
  if truthy resolvedItems then
    let itemType := option_map JStr (resolveJsonType resolvedItems) in
    if negb (truthy_opt itemType) && truthy_opt (member "type" resolvedItems)
    then directType resolvedItems
    else itemType
  else None.

(** [effectiveType === 'array'] *)
Definition is_array_type (effectiveType : option string) : bool :=
  match effectiveType with
  | Some t => String.eqb t "array"
  | None => false
  end.

(** [if (itemType) { switch ... } else return null] *)
Definition arrayType (itemType : option json) : option string :=
  match itemType with
  | Some t => if truthy t then arrayOf (js_String t) else None
  | None => None
  end.

(** [mapJsonSchemaPropertyToAbiType]; [None] is [return null]. *)
Definition mapJsonSchemaPropertyToAbiType (h : host) (jsonProperty : json)
    (propName : string) (currentSchema : json) (baseDir : string)
    : M (option string) :=
  if String.eqb propName "purpose" then ret (Some "string")
  else
    let effectiveType := resolveJsonType jsonProperty in
    if is_array_type effectiveType then
      match member "items" jsonProperty with
      | Some items =>
          if truthy items then
            let* resolvedItems :=
              (if truthy_opt (member "$ref" items) && truthy currentSchema
                  && negb (Js.falsy_string baseDir)
               then resolveProperty h items currentSchema baseDir
               else ret items) in
            ret (arrayType (itemTypeOf resolvedItems))
          else ret None
      | None => ret None
      end
    else
      ret (Some (jsonTypeToAbi effectiveType
             {| propName := propName;
                pattern := member "pattern" jsonProperty;
                xAbi := member "x-oma3-abi" jsonProperty |})).

(** [skipReason === "metadata" || skipReason === "eas"] *)
Definition isSkipped (property : json) : bool :=
  let skipReason := member "x-oma3-skip-reason" property in
  is_str "metadata" skipReason || is_str "eas" skipReason.

(** [if (abiType)]: a type that is neither [null] nor empty. *)
Definition ifTruthy (abiType : option string) : option string :=
  match abiType with
  | Some t => if Js.falsy_string t then None else Some t
  | None => None
  end.

(** One turn of the loop of [buildSchemaString]: the type of the field
    pushed on [abiFields], if any. *)
Definition buildField (h : host) (currentSchema : json) (baseDir : string)
    (key : string) (rawProperty : json) : M (option string) :=
  let* property := resolveProperty h rawProperty currentSchema baseDir in
  if isSkipped property then ret None
  else
    let* abiType :=
      mapJsonSchemaPropertyToAbiType h property key currentSchema baseDir in
    ret (ifTruthy abiType).

(** The [for (const key in properties)] loop, pushing on [abiFields]. *)
Fixpoint buildLoop (h : host) (currentSchema : json) (baseDir : string)
    (props : list (string * json)) (abiFields : list string) : M (list string) :=
  match props with
  | [] => ret abiFields
  | (key, rawProperty) :: rest =>
      let* abiType := buildField h currentSchema baseDir key rawProperty in
      buildLoop h currentSchema baseDir rest
        (match abiType with
         | Some t => abiFields ++ [t +:+ " " +:+ key]
         | None => abiFields
         end)
  end.

(** [buildSchemaString]; [properties] is [None] for [undefined]. *)
Definition buildSchemaString (h : host) (properties : option json)
    (currentSchema : json) (baseDir : string) : M string :=
  match properties with
  | Some props =>
      if negb (truthy props) then ret ""
      else
        let* abiFields := buildLoop h currentSchema baseDir (entries props) [] in
        ret (Js.join ", " abiFields)
  | None => ret ""
  end.

(** [detectRevocable] *)
Definition detectRevocable (properties : option json) : bool :=
  match properties with
  | Some props =>
      match member "revoked" props with
      | Some revokedField =>
          truthy revokedField
          && is_str "eas" (member "x-oma3-skip-reason" revokedField)
      | None => false
      end
  | None => false
  end.

End GenerateEasObject.

(* ===================================================================== *)
(** * tasks/generate-eas-object.ts, the version without references         *)
(* ===================================================================== *)

(** The version of the generator that writes the resolver into the output: it
    has no [$ref] resolution and no disk access, and it shares the text of
    [pickPriorityType], [collectTypesFromBranches], [resolveJsonType] and
    [jsonTypeToAbi] with the version above. *)
Module GenerateEasObjectLegacy.

Import GenerateEasObject.

(** [mapJsonSchemaPropertyToAbiType] *)
Definition mapJsonSchemaPropertyToAbiType (jsonProperty : json)
    (propName : string) : option string :=
  if String.eqb propName "purpose" then Some "string"
  else
    let effectiveType := resolveJsonType jsonProperty in
    if is_array_type effectiveType then
      match member "items" jsonProperty with
      | Some items => arrayType (itemTypeOf items)
      | None => None
      end
    else
      Some (jsonTypeToAbi effectiveType
             {| propName := propName;
                pattern := member "pattern" jsonProperty;
                xAbi := member "x-oma3-abi" jsonProperty |}).

(** One turn of the loop: any truthy skip reason skips the field. *)
Definition buildField (key : string) (property : json) : option string :=
  if truthy_opt (member "x-oma3-skip-reason" property) then None
  else ifTruthy (mapJsonSchemaPropertyToAbiType property key).

Fixpoint buildLoop (props : list (string * json)) (abiFields : list string)
    : list string :=
  match props with
  | [] => abiFields
  | (key, property) :: rest =>
      buildLoop rest
        (match buildField key property with
         | Some t => abiFields ++ [t +:+ " " +:+ key]
         | None => abiFields
         end)
  end.

(** [buildSchemaString] *)
Definition buildSchemaString (properties : option json) : string :=
  match properties with
  | Some props =>
      if negb (truthy props) then ""
      else Js.join ", " (buildLoop (entries props) [])
  | None => ""
  end.

End GenerateEasObjectLegacy.

(* ===================================================================== *)
(** * tasks/generate-bas-object.ts                                         *)
(* ===================================================================== *)

Module GenerateBasObject.

(** What a call of the mapper comes to: a type, [return null], or the
    TypeError of [undefined.toLowerCase()] on an empty [type] array. *)
Inductive mapped :=
| Abi (t : string)
| Dropped
| TypeErrorThrown.

(** [typeToProcess]: the first entry that is not "null", or else the
    first entry; the type itself; or "string" when there is none. *)
Definition typeToProcess (jsonProperty : json) : option json :=
  match member "type" jsonProperty with
  | Some (JArr ts) => or_else (find is_not_null_name ts) (head ts)
  | Some t => if truthy t then Some t else Some (JStr "string")
  | None => Some (JStr "string")
  end.

(** The array branch, once the items are resolved; its [switch] is the
    one of generate-eas-object ([arrayOf]). *)
Definition arrayBranch (resolvedItems : option json) : mapped :=
  match resolvedItems with
  | Some items =>
      if truthy items && truthy_opt (member "type" items) then
        let itemSchemaType :=
          match member "type" items with
          | Some (JArr ts) => or_else (find is_not_null_name ts) (head ts)
          | other => other
          end in
        match itemSchemaType with
        | Some t =>
            match GenerateEasObject.arrayOf (js_String t) with
            | Some a => Abi a
            | None => Dropped
            end
        | None => TypeErrorThrown
        end
      else Dropped
  | None => Dropped
  end.

(** The scalar [switch (typeLower)]. *)
Definition scalarBranch (typeLower : string) (jsonProperty : json) : mapped :=
  if String.eqb typeLower "string" then
    if is_str "^0x[a-fA-F0-9]{64}$" (member "pattern" jsonProperty)
    then Abi "bytes32" else Abi "string"
  else if String.eqb typeLower "integer" || String.eqb typeLower "number"
  then Abi "uint256"
  else if String.eqb typeLower "boolean" then Abi "bool"
  else if String.eqb typeLower "object" then Abi "string"
  else Dropped.

(** [mapJsonSchemaPropertyToAbiType] *)
Definition mapJsonSchemaPropertyToAbiType (h : host) (jsonProperty : json)
    (propName : string) (currentSchema : json) (baseDir : string) : M mapped :=
  match typeToProcess jsonProperty with
  | None => ret TypeErrorThrown
  | Some t =>
      let typeLower := lowered t in
      if String.eqb typeLower "array" then
        match member "items" jsonProperty with
        | Some items =>
            if truthy items then
              let* resolvedItems :=
                (if truthy_opt (member "$ref" items) && truthy currentSchema
                    && negb (Js.falsy_string baseDir)
                 then resolveProperty h items currentSchema baseDir
                 else ret items) in
              ret (arrayBranch (Some resolvedItems))
            else ret Dropped
        | None => ret Dropped
        end
      else ret (scalarBranch typeLower jsonProperty)
  end.

(** One turn of the loop of [buildSchemaString]: the skip test is the
    text of generate-eas-object ([isSkipped]); a field that is skipped
    counts as [Dropped]; the TypeError of the mapper is not caught. *)
Definition buildField (h : host) (currentSchema : json) (baseDir : string)
    (key : string) (rawProperty : json) : M mapped :=
  let* property := resolveProperty h rawProperty currentSchema baseDir in
  if GenerateEasObject.isSkipped property then ret Dropped
  else mapJsonSchemaPropertyToAbiType h property key currentSchema baseDir.

(** The [for (const key in properties)] loop, pushing on [abiFields];
    [None] when the mapper throws, which ends the loop and the call. *)
Fixpoint buildLoop (h : host) (currentSchema : json) (baseDir : string)
    (props : list (string * json)) (abiFields : list string)
    : M (option (list string)) :=
  match props with
  | [] => ret (Some abiFields)
  | (key, rawProperty) :: rest =>
      let* abiType := buildField h currentSchema baseDir key rawProperty in
      match abiType with
      | Abi t =>
          buildLoop h currentSchema baseDir rest
            (if Js.falsy_string t then abiFields
             else abiFields ++ [t +:+ " " +:+ key])
      | Dropped => buildLoop h currentSchema baseDir rest abiFields
      | TypeErrorThrown => ret None
      end
  end.

(** [buildSchemaString]; [properties] is [None] for [undefined]; the
    result [None] is the TypeError. *)
Definition buildSchemaString (h : host) (properties : option json)
    (currentSchema : json) (baseDir : string) : M (option string) :=
  match properties with
  | Some props =>
      if negb (truthy props) then ret (Some "")
      else
        let* abiFields := buildLoop h currentSchema baseDir (entries props) [] in
        ret (option_map (Js.join ", ") abiFields)
  | None => ret (Some "")
  end.

End GenerateBasObject.

(* ===================================================================== *)
(** * tasks/generate-bas-object.ts, the version without references         *)
(* ===================================================================== *)

(** The version of the generator that writes the resolver into the output:
    no [$ref] resolution, no default for a property without [type], and
    no case for "object". *)
Module GenerateBasObjectLegacy.

Import GenerateBasObject.

(** [typeToProcess]: the first entry that is not "null", or else the
    first entry; or the type itself, [None] when there is none. *)
Definition typeToProcess (jsonProperty : json) : option json :=
  match member "type" jsonProperty with
  | Some (JArr ts) => or_else (find is_not_null_name ts) (head ts)
  | other => other
  end.

(** [switch (itemSchemaType.toLowerCase())] of the array branch. *)
Definition arrayOf (itemSchemaType : string) : option string :=
  let t := Js.toLowerCase itemSchemaType in
  if String.eqb t "string" then Some "string[]"
  else if String.eqb t "integer" || String.eqb t "number" then Some "uint256[]"
  else if String.eqb t "boolean" then Some "bool[]"
  else None.

(** The array branch. *)
Definition arrayBranch (items : option json) : mapped :=
  match items with
  | Some items =>
      if truthy items && truthy_opt (member "type" items) then
        let itemSchemaType :=
          match member "type" items with
          | Some (JArr ts) => or_else (find is_not_null_name ts) (head ts)
          | other => other
          end in
        match itemSchemaType with
        | Some t =>
            match arrayOf (js_String t) with
            | Some a => Abi a
            | None => Dropped
            end
        | None => TypeErrorThrown
        end
      else Dropped
  | None => Dropped
  end.

(** The scalar [switch (typeLower)]. *)
Definition scalarBranch (typeLower : string) (jsonProperty : json) : mapped :=
  if String.eqb typeLower "string" then
    if is_str "^0x[a-fA-F0-9]{64}$" (member "pattern" jsonProperty)
    then Abi "bytes32" else Abi "string"
  else if String.eqb typeLower "integer" || String.eqb typeLower "number"
  then Abi "uint256"
  else if String.eqb typeLower "boolean" then Abi "bool"
  else Dropped.

(** [mapJsonSchemaPropertyToAbiType] *)
Definition mapJsonSchemaPropertyToAbiType (jsonProperty : json) : mapped :=
  match typeToProcess jsonProperty with
  | None => TypeErrorThrown
  | Some t =>
      let typeLower := lowered t in
      if String.eqb typeLower "array" then arrayBranch (member "items" jsonProperty)
      else scalarBranch typeLower jsonProperty
  end.

End GenerateBasObjectLegacy.

(* ===================================================================== *)
(** * Notions of the statements                                            *)
(* ===================================================================== *)

Import GenerateEasObject.

(** ** Schema UIDs *)

(** The example schema of tasks/test-schema-uid.ts. *)
Definition example_schema : string :=
  "uint256 schemaId, string msg5, bool isActive, string[] tags, uint256[] scores, string optionalDescription, bool[] statusFlags".

Definition ZERO_ADDRESS : string := "0x0000000000000000000000000000000000000000".

Definition example_uid : string :=
  "0xe97c0fcc6c37e9f782fd9917e3fa6d22ca1b52d8d936002be4babb55e82dadab".

(** ** The type resolver *)

(** The property [{ "type": t }]. *)
Definition typed (t : string) : json := JObj [("type", JStr t)].




(** ** The candidate types, in the words of the specification *)



(** The types a schema states itself: its [type] when that is a name, the
    entries of its [type] when that is an array. *)
Definition statedTypes (x : json) : list json :=
  match member "type" x with
  | Some (JStr name) => [JStr name]
  | Some (JArr names) => names
  | _ => []
  end.





(** ** The ABI type mapper *)

(** What the regular expression looks for. *)
Definition contains_0x_hex64 (s : string) : Prop :=
  exists pre hex post,
    s = pre +:+ "0x" +:+ hex +:+ post
    /\ String.length hex = 64%nat
    /\ Ethers.string_forall Ethers.is_hex hex = true.

(** The hash property of the specification's second scenario. *)
Definition hash_pattern : string := "^0x[a-fA-F0-9]{64}$".

Definition hash_property : json :=
  JObj [("type", JStr "string"); ("pattern", JStr hash_pattern)].

(** ** The cache of external schemas *)

(** How often the log reads and parses the file of a relative path with
    success. *)
Fixpoint parsedReads (p : string) (log : list event) : nat :=
  match log with
  | [] => 0
  | EvRead q _ true :: rest =>
      ((if String.eqb q p then 1 else 0) + parsedReads p rest)%nat
  | _ :: rest => parsedReads p rest
  end.

(** How often the log reads the file of a relative path, whatever came
    of it. *)
Fixpoint reads (p : string) (log : list event) : nat :=
  match log with
  | [] => 0
  | EvRead q _ _ :: rest => ((if String.eqb q p then 1 else 0) + reads p rest)%nat
  | _ :: rest => reads p rest
  end.

(** One call of [loadExternalSchema] per request; the host may differ from
    call to call (the disk may change during the run). *)
Record request := {
  req_host : host;
  req_path : string;
  req_baseDir : string
}.

Definition serve (r : request) : M json :=
  loadExternalSchema (req_host r) (req_path r) (req_baseDir r).

(** The state after a sequence of requests. *)
Fixpoint run (reqs : list request) (st : state) : state :=
  match reqs with
  | [] => st
  | r :: rest => run rest (snd (serve r st))
  end.

(** The requests of one compilation: one host, one base directory. *)
Definition requests (h : host) (baseDir : string) (paths : list string)
    : list request :=
  map (fun p => {| req_host := h; req_path := p; req_baseDir := baseDir |}) paths.

(** The cache holds a path exactly when the log has one successful read
    of it, and no path is read with success twice. *)
Definition coherent (st : state) : Prop :=
  forall p,
    parsedReads p (diskLog st) =
    match schemaCache st !! p with Some _ => 1%nat | None => 0%nat end.

(** A cached path was read once; a path that was read and is not cached
    is one whose file does not parse. *)
Definition settled (h : host) (baseDir : string) (st : state) : Prop :=
  forall p,
    match schemaCache st !! p with
    | Some _ => reads p (diskLog st) = 1%nat
    | None =>
        (0 < reads p (diskLog st))%nat -> readJson h (path_resolve h baseDir p) = None
    end.

(** A computation keeps the cache and the log coherent. *)
Definition preserves {A} (c : M A) : Prop :=
  forall st, coherent st -> coherent (snd (c st)).

(** A disk with one schema file that parses and one that does not. *)
Definition sample_disk : host :=
  {| path_resolve := fun baseDir p => baseDir +:+ "/" +:+ p;
     existsSync := fun full =>
       String.eqb full "/schemas/common.schema.json"
       || String.eqb full "/schemas/broken.json";
     readJson := fun full =>
       if String.eqb full "/schemas/common.schema.json"
       then Some (JObj [("$defs", JObj [("Proof", typed "string")])])
       else None |}.

(** ** The schema string builder *)

(** The properties [buildSchemaString] goes through: none when
    [properties] is absent or falsy. *)
Definition propertyEntries (properties : option json) : list (string * json) :=
  match properties with
  | Some props => if truthy props then entries props else []
  | None => []
  end.

(** What happens to one property, in the words of the specification: it
    is resolved; the skip reason is read on the resolved property; unless
    it is excluded its type is mapped, in the state the resolution left. *)
Record fieldStep := {
  step_key : string;
  step_resolved : json;
  step_state : state;
  step_type : option string
}.

Fixpoint fieldSteps (h : host) (currentSchema : json) (baseDir : string)
    (props : list (string * json)) (st : state) : list fieldStep :=
  match props with
  | [] => []
  | (key, rawProperty) :: rest =>
      let '(property, st1) := resolveProperty h rawProperty currentSchema baseDir st in
      let '(abiType, st2) :=
        if isSkipped property then (None, st1)
        else mapJsonSchemaPropertyToAbiType h property key currentSchema baseDir st1 in
      {| step_key := key; step_resolved := property; step_state := st1;
         step_type := ifTruthy abiType |}
      :: fieldSteps h currentSchema baseDir rest st2
  end.

(** The surviving fields, as (type, name) pairs. *)
Definition survivor (s : fieldStep) : option (string * string) :=
  match step_type s with
  | Some t => Some (t, step_key s)
  | None => None
  end.

Definition survivors (steps : list fieldStep) : list (string * string) :=
  omap survivor steps.

(** "type name" pairs joined with ", ". *)
Definition schemaText (fields : list (string * string)) : string :=
  Js.join ", " (map (fun '(t, name) => t +:+ " " +:+ name) fields).

(** The surviving fields of the version without references. *)
Definition legacySurvivors (props : list (string * json)) : list (string * string) :=
  omap (fun '(key, property) =>
          match GenerateEasObjectLegacy.buildField key property with
          | Some t => Some (t, key)
          | None => None
          end) props.

(** The skip reason of a resolved property. *)
Definition skipReason (property : json) : option json :=
  member "x-oma3-skip-reason" property.

(** A properties mapping with the three skip reasons, one through a
    reference. *)
Definition skip_reasons_properties : option json :=
  Some (JObj
    [("value", typed "string");
     ("metadataField", JObj [("type", JStr "string");
                             ("x-oma3-skip-reason", JStr "metadata")]);
     ("reservedField", JObj [("type", JStr "string");
                             ("x-oma3-skip-reason", JStr "unused")]);
     ("easField", JObj [("$ref", JStr "#/$defs/Attester")])]).

Definition skip_reasons_schema : json :=
  JObj [("$defs", JObj [("Attester",
          JObj [("type", JStr "string"); ("x-oma3-skip-reason", JStr "eas")])])].

(** ** The order of the properties of a parsed object *)

Definition is_digit (c : ascii) : bool :=
  let n := nat_of_ascii c in (48 <=? n)%nat && (n <=? 57)%nat.

(** The number a string of decimal digits spells. *)
Fixpoint decimal (acc : N) (s : string) : N :=
  match s with
  | EmptyString => acc
  | String c r => decimal (10 * acc + N.of_nat (nat_of_ascii c - 48)) r
  end.

(** An array index: the canonical decimal spelling (digits only, no
    leading zero) of an integer from 0 to 2^32 - 2. *)
Definition array_index (key : string) : option N :=
  match key with
  | EmptyString => None
  | String c rest =>
      if Ethers.string_forall is_digit key
         && (negb (Ascii.eqb c "0") || Js.falsy_string rest)
         && (decimal 0 key <=? 4294967294)%N
      then Some (decimal 0 key)
      else None
  end.

Definition is_index (key : string) : bool :=
  match array_index key with Some _ => true | None => false end.

(** An index property goes before the first property of a larger
    index. *)
Fixpoint place (n : N) (kv : string * json) (sorted : list (N * (string * json)))
    : list (N * (string * json)) :=
  match sorted with
  | [] => [(n, kv)]
  | (m, other) :: rest =>
      if (n <? m)%N then (n, kv) :: sorted else (m, other) :: place n kv rest
  end.

(** The index properties in ascending order of their index. *)
Definition sortIndexed (l : list (N * (string * json))) : list (N * (string * json)) :=
  fold_right (fun '(n, kv) sorted => place n kv sorted) [] l.

Definition indexed (kv : string * json) : option (N * (string * json)) :=
  match array_index (fst kv) with
  | Some n => Some (n, kv)
  | None => None
  end.

(** The order in which [for ... in] and [Object.keys] go through the
    own properties of an object, given the order in which they were
    created: the properties whose key is an array index, in ascending
    order of the index; then the others, in the order of creation. *)
Definition enumerate (created : list (string * json)) : list (string * json) :=
  map snd (sortIndexed (omap indexed created))
  ++ List.filter (fun kv => negb (is_index (fst kv))) created.

(** The object [JSON.parse] builds from the members of an object text,
    in the order of the text: each member is set in turn, so that a
    repeated name keeps its place and takes the later value. *)
Definition parseObject (members : list (string * json)) : json :=
  JObj (enumerate (spread [] members)).

(** The names of a document in the order in which they first occur,
    after those already seen. *)
Fixpoint firstOccurrences (seen names : list string) : list string :=
  match names with
  | [] => []
  | name :: rest =>
      if existsb (String.eqb name) seen then firstOccurrences seen rest
      else name :: firstOccurrences (seen ++ [name]) rest
  end.

(** The indices of the index properties of a list. *)
Definition indices (fields : list (string * json)) : list N :=
  omap (fun kv => array_index (fst kv)) fields.

(** ** Further notions *)

(** Lowercase hexadecimal digits only. *)
Definition lower_hex (s : string) : bool :=
  Ethers.string_forall
    (fun c => Ethers.is_hex c && negb (Ethers.is_upper_hex c)) s.

(** Characters of ASCII only; on such a string [toLowerCase] is the
    lowering of the letters A to Z. *)
Definition is_ascii (s : string) : bool :=
  Ethers.string_forall (fun c => (nat_of_ascii c <? 128)%nat) s.

(** The names of the members every object inherits from
    [Object.prototype]: [key in o] holds for them on an object that has
    no such member of its own. *)
Definition object_prototype_names : list string :=
  ["constructor"; "__defineGetter__"; "__defineSetter__"; "hasOwnProperty";
   "__lookupGetter__"; "__lookupSetter__"; "isPrototypeOf";
   "propertyIsEnumerable"; "toString"; "valueOf"; "__proto__"; "toLocaleString"].

(** A property as the interface [JsonSchemaProperty] declares its
    [type]: an object whose [type] is absent, a name, or an array of
    names. *)
Definition declared_type (property : json) : bool :=
  match property with
  | JObj fields =>
      match assoc "type" fields with
      | None | Some (JStr _) => true
      | Some (JArr names) =>
          forallb (fun name => match name with JStr _ => true | _ => false end) names
      | Some _ => false
      end
  | _ => false
  end.

(** ** tasks/deploy-eas-schema.ts and tasks/verify-eas-schema.ts *)

Module DeployEasSchema.

(** [easSchema.resolver && easSchema.resolver !== "" ? easSchema.resolver
    : ZERO_ADDRESS]; [None] is a file without [resolver], as
    generate-eas-object writes it. *)
Definition resolverAddress (resolver : option string) : string :=
  match resolver with
  | Some r => if Js.falsy_string r then ZERO_ADDRESS else r
  | None => ZERO_ADDRESS
  end.

(** [expectedSchemaUID] (deploy) and [schemaUID] (verify, for a schema
    object file) *)
Definition expectedSchemaUID (schema : string) (resolver : option string)
    (revocable : bool) : option string :=
  EasTools.calculateSchemaUID schema (resolverAddress resolver) revocable.

End DeployEasSchema.

(** ** References *)

(** The names of the own properties. *)
Definition keys (v : json) : list string := map fst (entries v).

(** Every cached document is the one the disk holds under its path. *)
Definition faithful (h : host) (baseDir : string) (st : state) : Prop :=
  forall p doc,
    schemaCache st !! p = Some doc ->
    existsSync h (path_resolve h baseDir p) = true
    /\ readJson h (path_resolve h baseDir p) = Some doc.

(** The answer of a computation does not depend on what a faithful cache
    holds, and the computation keeps the cache faithful. *)
Definition transparent {A} (h : host) (baseDir : string) (c : M A) : Prop :=
  forall st1 st2,
    faithful h baseDir st1 -> faithful h baseDir st2 ->
    fst (c st1) = fst (c st2) /\ faithful h baseDir (snd (c st1)).

(** ** The ABI types of the generated schema strings *)

Definition scalar_abi_types : list string := ["string"; "uint256"; "bool"; "bytes32"].

Definition array_abi_types : list string := ["string[]"; "uint256[]"; "bool[]"].

(** A property that the array branch handles. *)
Definition array_typed (key : string) (property : json) : bool :=
  negb (String.eqb key "purpose") && is_array_type (resolveJsonType property).

(** Neither the property nor its [items] holds a truthy [$ref]. *)
Definition ref_free (property : json) : bool :=
  negb (truthy_opt (member "$ref" property))
  && match member "items" property with
     | Some items => negb (truthy_opt (member "$ref" items))
     | None => true
     end.

(** The skip reason, when there is a truthy one, is "metadata" or
    "eas". *)
Definition plain_skip (property : json) : bool :=
  Bool.eqb (truthy_opt (skipReason property)) (isSkipped property).

(** The fields [buildSchemaString] writes for a list of properties, as
    (type, name) pairs. *)
Definition writtenFields (h : host) (currentSchema : json) (baseDir : string)
    (props : list (string * json)) (st : state) : list (string * string) :=
  survivors (fieldSteps h currentSchema baseDir props st).

(** ** The schema string of generate-bas-object *)






(* ===================================================================== *)
(** * Schema UIDs                                                          *)
(* ===================================================================== *)

(** Published Keccak-256 test vectors. *)
Example keccak256_empty :
  Ethers.keccak256 [] =
  "0xc5d2460186f7233c927e7db2dcc703c0e500b653ca82273b7bfad8045d85a470".
Proof. vm_compute. reflexivity. Qed.

Example keccak256_abc :
  Ethers.keccak256 (Ethers.toUtf8Bytes "abc") =
  "0x4e03657aea45a94fc7d47ba826c8d667c0d1e6e33a64a036ec44f58fa12d6c45".
Proof. vm_compute. reflexivity. Qed.

Example keccak256_fox :
  Ethers.keccak256 (Ethers.toUtf8Bytes "The quick brown fox jumps over the lazy dog") =
  "0x4d741b6f1eb29cb2a9b9911c82f56fa8d73b04959d3d9d222895df6c0b28aa15".
Proof. vm_compute. reflexivity. Qed.

(** A published EIP-55 spelling. *)
Example getAddress_checksum :
  Ethers.getAddress "0x5aaeb6053f3e94c9b9a09f33669435e7ef1beaed" =
  Some "0x5aAeb6053F3E94C9b9A09f33669435E7Ef1BeAed".
Proof. vm_compute. reflexivity. Qed.

(** Whatever the arguments, the packing is the concatenation of the three
    encodings. *)
Lemma calculateSchemaUID_packed schema resolverAddress revocable uid :
  EasTools.calculateSchemaUID schema resolverAddress revocable = Some uid ->
  exists raw,
    (Ethers.getAddress resolverAddress ≫= fun a => Ethers.bytes_of_hex (Js.drop 2 a))
      = Some raw /\
    uid = Ethers.keccak256
            (Ethers.toUtf8Bytes schema ++ raw ++ [if revocable then 1 else 0]).
Proof.
  unfold EasTools.calculateSchemaUID, Ethers.solidityPacked_string_address_bool.
  intros H.
  destruct (Ethers.getAddress resolverAddress) as [a|]; [|discriminate H].
  cbn [mbind option_bind].
  destruct (Ethers.bytes_of_hex (Js.drop 2 a)) as [raw|]; [|discriminate H].
  injection H as <-. by exists raw.
Qed.

(** C1. The calculateSchemaUID of easTools (variant A), applied to the
    example schema string, the zero resolver address and revocable = true,
    is the Keccak-256 digest of the UTF-8 bytes of the schema string
    followed by the 20 zero bytes of the address and the one byte 0x01,
    and that digest is
    0xe97c0fcc6c37e9f782fd9917e3fa6d22ca1b52d8d936002be4babb55e82dadab. *)
Theorem calculateSchemaUID_variant_A_reference :
  EasTools.calculateSchemaUID example_schema ZERO_ADDRESS true = Some example_uid
  /\ Ethers.solidityPacked_string_address_bool example_schema ZERO_ADDRESS true
     = Some (Ethers.toUtf8Bytes example_schema ++ repeat 0 20 ++ [1])
  /\ Ethers.keccak256 (Ethers.toUtf8Bytes example_schema ++ repeat 0 20 ++ [1])
     = example_uid.
Proof. repeat split; vm_compute; reflexivity. Qed.

(** The reference value is the variant A digest, not the variant B one. *)
Example calculateSchemaUID_variant_B_example :
  BasTools.calculateSchemaUID example_schema ZERO_ADDRESS true =
  "0xa42cee7a00abdf95bf39ecdab94dc061ce545c87f5936b869cd29fc9b78c8d1d".
Proof. vm_compute. reflexivity. Qed.

(** Variant A does read the revocable flag. *)
Example calculateSchemaUID_variant_A_revocable :
  EasTools.calculateSchemaUID example_schema ZERO_ADDRESS false <>
  EasTools.calculateSchemaUID example_schema ZERO_ADDRESS true.
Proof. vm_compute. discriminate. Qed.

(** C6. The calculateSchemaUID of basTools (variant B) is the Keccak-256
    digest of the UTF-8 bytes of the schema string alone: for every schema
    string, any two choices of resolver address and revocable flag give
    the same UID. *)
Theorem calculateSchemaUID_variant_B_schema_only :
  forall (s r1 r2 : string) (v1 v2 : bool),
    BasTools.calculateSchemaUID s r1 v1 = BasTools.calculateSchemaUID s r2 v2
    /\ BasTools.calculateSchemaUID s r1 v1 = Ethers.keccak256 (Ethers.toUtf8Bytes s).
Proof. intros. split; reflexivity. Qed.

(* --------------------------------------------------------------------- *)
(** ** formatSchemaUID                                                     *)
(* --------------------------------------------------------------------- *)

Lemma formatSchemaUID_same :
  forall x, EasTools.formatSchemaUID x = BasTools.formatSchemaUID x.
Proof. reflexivity. Qed.

Lemma startsWith_0x_cons (x : string) :
  Js.startsWith "0x" ("0x" +:+ x) = true.
Proof. reflexivity. Qed.

Lemma formatSchemaUID_prefixed (x : string) :
  Js.startsWith "0x" x = true -> BasTools.formatSchemaUID x = x.
Proof.
  intros H. unfold BasTools.formatSchemaUID.
  destruct x as [|c r]; [discriminate|]. simpl Js.falsy_string. cbv iota.
  by rewrite H.
Qed.

Lemma formatSchemaUID_unprefixed (x : string) :
  x <> "" -> Js.startsWith "0x" x = false ->
  BasTools.formatSchemaUID x = "0x" +:+ x.
Proof.
  intros Hne H. unfold BasTools.formatSchemaUID.
  destruct x as [|c r]; [congruence|]. simpl Js.falsy_string. cbv iota.
  by rewrite H.
Qed.

(** C9. formatSchemaUID (the same text in easTools and basTools) is
    idempotent; it returns the empty string on the empty string; a
    non-empty string that does not start with 0x gains exactly one 0x
    prefix; a string that starts with 0x is returned unchanged. *)
Theorem formatSchemaUID_idempotent :
  forall x : string,
    (BasTools.formatSchemaUID (BasTools.formatSchemaUID x) = BasTools.formatSchemaUID x
     /\ EasTools.formatSchemaUID (EasTools.formatSchemaUID x) = EasTools.formatSchemaUID x)
    /\ (BasTools.formatSchemaUID "" = "" /\ EasTools.formatSchemaUID "" = "")
    /\ (x <> "" -> Js.startsWith "0x" x = false ->
        BasTools.formatSchemaUID x = "0x" +:+ x
        /\ EasTools.formatSchemaUID x = "0x" +:+ x)
    /\ (Js.startsWith "0x" x = true ->
        BasTools.formatSchemaUID x = x /\ EasTools.formatSchemaUID x = x).
Proof.
  intros x.
  assert (Hidem : BasTools.formatSchemaUID (BasTools.formatSchemaUID x)
                  = BasTools.formatSchemaUID x).
  { destruct x as [|c r]; [reflexivity|].
    destruct (Js.startsWith "0x" (String c r)) eqn:Hp.
    - rewrite (formatSchemaUID_prefixed _ Hp). exact (formatSchemaUID_prefixed _ Hp).
    - rewrite (formatSchemaUID_unprefixed (String c r)) by done.
      apply formatSchemaUID_prefixed, startsWith_0x_cons. }
  repeat split; rewrite ?formatSchemaUID_same; auto using
    formatSchemaUID_prefixed, formatSchemaUID_unprefixed.
Qed.

Lemma formatSchemaUID_idempotent_witness :
  BasTools.formatSchemaUID "e97c0fcc" = "0xe97c0fcc"
  /\ EasTools.formatSchemaUID "0xE97C" = "0xE97C".
Proof.
  split.
  - apply (proj1 (proj2 (proj2 (formatSchemaUID_idempotent "e97c0fcc")))
             ltac:(discriminate) eq_refl).
  - apply (proj2 (proj2 (proj2 (formatSchemaUID_idempotent "0xE97C"))) eq_refl).
Defined.

(* ===================================================================== *)
(** * DID derivation raises on malformed input                             *)
(* ===================================================================== *)

Import DidUtils.

Lemma didToIndexAddress_throws did e :
  canonicalizeDID did = Throw e -> didToIndexAddress did = Throw e.
Proof.
  intros H. unfold didToIndexAddress, computeDidHash. by rewrite H.
Qed.

(** A DID that passes the three checks is canonicalized. *)
Lemma canonicalizeDID_returns did :
  Js.startsWith "did:" did = true ->
  (3 <= length (Js.split ":" did))%nat ->
  (nth 1 (Js.split ":" did) "" = "pkh" -> length (Js.split ":" did) = 5%nat) ->
  exists c, canonicalizeDID did = Ok c.
Proof.
  intros Hp Hlen Hpkh. unfold canonicalizeDID. rewrite Hp. simpl negb. cbv iota.
  destruct (Nat.ltb_spec (length (Js.split ":" did)) 3) as [|_]; [lia|].
  destruct (String.eqb_spec (nth 1 (Js.split ":" did) "") "web") as [|_].
  - destruct (Js.split "/" _); eauto.
  - destruct (String.eqb_spec (nth 1 (Js.split ":" did) "") "pkh") as [E|_]; [|eauto].
    rewrite (Hpkh E). simpl. eauto.
Qed.

(** C10. canonicalizeDID throws on every string that does not start with
    did:, on every string with fewer than three colon-separated parts, and
    on every did:pkh DID whose number of colon-separated parts is not
    five; didToIndexAddress, which calls it, throws the same error. *)
Theorem canonicalizeDID_raises_on_malformed :
  forall did : string,
    Js.startsWith "did:" did = false
    \/ (length (Js.split ":" did) < 3)%nat
    \/ (Js.startsWith "did:" did = true
        /\ nth 1 (Js.split ":" did) "" = "pkh"
        /\ length (Js.split ":" did) <> 5%nat) ->
    exists e, canonicalizeDID did = Throw e /\ didToIndexAddress did = Throw e.
Proof.
  intros did H.
  assert (exists e, canonicalizeDID did = Throw e) as [e He];
    [|exists e; split; [done | by apply didToIndexAddress_throws]].
  unfold canonicalizeDID.
  destruct (Js.startsWith "did:" did) eqn:Hp; simpl negb; cbv iota; [|eauto].
  destruct (Nat.ltb_spec (length (Js.split ":" did)) 3) as [|Hge]; [eauto|].
  destruct H as [H|[H|(_ & Hm & Hlen)]]; [discriminate | lia |].
  rewrite Hm. simpl String.eqb. cbv iota.
  destruct (Nat.eqb_spec (length (Js.split ":" did)) 5); [done | simpl; eauto].
Qed.

Lemma canonicalizeDID_raises_on_malformed_witness :
  exists e, canonicalizeDID "did:pkh:eip155:1" = Throw e
            /\ didToIndexAddress "did:pkh:eip155:1" = Throw e.
Proof.
  apply (canonicalizeDID_raises_on_malformed "did:pkh:eip155:1").
  right. right.
  split; [reflexivity | split; [reflexivity | vm_compute; discriminate]].
Defined.

(** The three errors, each on an input that reaches it. *)
Example canonicalizeDID_errors :
  canonicalizeDID "web:example.com" = Throw MustStartWithDid
  /\ canonicalizeDID "did:web" = Throw InsufficientParts
  /\ canonicalizeDID "did:pkh:eip155:1:0xAbC:extra" = Throw PkhNeedsFiveParts
  /\ canonicalizeDID "did:pkh:eip155:1:0xAbC" = Ok "did:pkh:eip155:1:0xabc"
  /\ canonicalizeDID "did:web:Example.COM/Path" = Ok "did:web:example.com/Path".
Proof. vm_compute. repeat split; reflexivity. Qed.

(* ===================================================================== *)
(** * The type resolver                                                    *)
(* ===================================================================== *)

Section TypeResolver.

Import GenerateEasObject.










Lemma member_truthy name p v : member name p = Some v -> truthy p = true.
Proof. by destruct p. Qed.



End TypeResolver.

Import GenerateEasObject.

Section TypeResolverSpec.



Lemma pushTypes_stated x : pushTypes x = statedTypes x.
Proof. reflexivity. Qed.






End TypeResolverSpec.




(** Candidates from the then/else properties of a branch, and the
    fallback to the first candidate. *)
Example resolveJsonType_branches :
  resolveJsonType
    (JObj [("anyOf", JArr [typed "boolean";
              JObj [("then", JObj [("properties",
                       JObj [("a", typed "Integer"); ("b", typed "array")])])]])])
  = Some "array"
  /\ resolveJsonType (JObj [("allOf", JArr [typed "Date"; typed "null"])])
     = Some "date".
Proof. vm_compute. split; reflexivity. Qed.






(** The examples of the sentence: "null" makes no difference next to a
    type of the order; the all-null case. *)
Example resolveJsonType_null_discarding :
  resolveJsonType (JObj [("type", JArr [JStr "string"; JStr "null"])]) = Some "string"
  /\ resolveJsonType (JObj [("type", JArr [JStr "null"; JStr "string"])]) = Some "string"
  /\ resolveJsonType (JObj [("type", JArr [JStr "null"; JStr "null"])]) = Some "null"
  /\ resolveJsonType (JObj [("type", JArr [JStr "Integer"; JStr "null"])]) = Some "integer".
Proof. vm_compute. repeat split; reflexivity. Qed.

(** The mapper of generate-bas-object does take the first entry that is
    not "null". *)
Example typeToProcess_first_non_null :
  GenerateBasObject.typeToProcess
    (JObj [("type", JArr [JStr "null"; JStr "integer"; JStr "string"])])
  = Some (JStr "integer")
  /\ GenerateBasObject.typeToProcess (JObj [("type", JArr [JStr "null"])])
     = Some (JStr "null").
Proof. vm_compute. split; reflexivity. Qed.

(* ===================================================================== *)
(** * The ABI type mapper                                                  *)
(* ===================================================================== *)

Section AbiTypeMapper.

Lemma append_cons c (a b : string) : String c a +:+ b = String c (a +:+ b).
Proof. reflexivity. Qed.

Lemma append_nil (b : string) : "" +:+ b = b.
Proof. reflexivity. Qed.

Lemma hex_run_spec n s :
  hex_run n s = true <->
  exists hex post,
    s = hex +:+ post /\ String.length hex = n /\ Ethers.string_forall Ethers.is_hex hex = true.
Proof.
  revert s. induction n as [|n IH]; intros s; cbn [hex_run].
  - split; [|done]. intros _. by exists "", s.
  - destruct s as [|c r].
    + split; [done|]. intros (hex & post & Hs & Hl & _).
      destruct hex; simpl in *; discriminate.
    + rewrite andb_true_iff, IH. split.
      * intros (Hc & hex & post & -> & Hl & Hh).
        exists (String c hex), post. cbn [String.length]. rewrite Hl.
        repeat split. unfold Ethers.string_forall in *.
        cbn [list_ascii_of_string forallb]. by rewrite Hc.
      * intros (hex & post & Hs & Hl & Hh).
        destruct hex as [|c' hex]; [discriminate|].
        rewrite append_cons in Hs. cbn [String.length] in Hl.
        injection Hs as -> ->. injection Hl as Hl.
        unfold Ethers.string_forall in *.
        cbn [list_ascii_of_string forallb] in Hh.
        apply andb_true_iff in Hh as [Hc Hh]. split; [done|].
        by exists hex, post.
Qed.

Lemma startsWith_0x_spec s :
  Js.startsWith "0x" s = true <-> exists r, s = "0x" +:+ r.
Proof.
  split.
  - destruct s as [|a [|b r]]; cbn [Js.startsWith]; try done.
    + by rewrite andb_false_r.
    + destruct (Ascii.eqb_spec "0" a) as [<-|]; [|done].
      destruct (Ascii.eqb_spec "x" b) as [<-|]; [|done]. by exists r.
  - intros [r ->]. apply startsWith_0x_cons.
Qed.

Lemma test_0x_hex64_spec s :
  test_0x_hex64 s = true <-> contains_0x_hex64 s.
Proof.
  induction s as [|c r IH].
  - simpl. split; [done|]. intros (pre & hex & post & Hs & Hl & _).
    destruct pre; rewrite ?append_cons, ?append_nil in Hs; discriminate.
  - cbn [test_0x_hex64]. rewrite orb_true_iff, andb_true_iff, IH,
      startsWith_0x_spec, hex_run_spec. split.
    + intros [([r' Hr] & hex & post & Hd & Hl & Hh) | (pre & hex & post & Hs & Hl & Hh)].
      * exists "", hex, post. rewrite Hr in Hd |- *.
        rewrite !append_cons, !append_nil in *. cbn [Js.drop] in Hd.
        by rewrite Hd.
      * exists (String c pre), hex, post. rewrite append_cons. by rewrite Hs.
    + intros (pre & hex & post & Hs & Hl & Hh). destruct pre as [|c' pre].
      * left. rewrite append_nil in Hs. split; [by eexists|].
        exists hex, post. rewrite Hs. by rewrite !append_cons, append_nil.
      * right. rewrite append_cons in Hs. injection Hs as -> ->.
        by exists pre, hex, post.
Qed.

(** The row of the scalar table for the effective type string: without
    the explicit bytes32 hint, the answer is bytes32 exactly when the
    text of [pattern] contains 0x followed by 64 hexadecimal digits. *)
Lemma jsonTypeToAbi_string (name pat : string) (hint : option json) :
  hint <> Some (JStr "bytes32") ->
  (contains_0x_hex64 pat ->
   jsonTypeToAbi (Some "string")
     {| propName := name; pattern := Some (JStr pat); xAbi := hint |} = "bytes32")
  /\ (~ contains_0x_hex64 pat ->
      jsonTypeToAbi (Some "string")
        {| propName := name; pattern := Some (JStr pat); xAbi := hint |} = "string")
  /\ jsonTypeToAbi (Some "string")
       {| propName := name; pattern := None; xAbi := hint |} = "string".
Proof.
  intros Hhint.
  assert (Hx : forall pt,
    jsonTypeToAbi (Some "string") {| propName := name; pattern := pt; xAbi := hint |}
    = match pt with
      | Some p => if truthy p && test_0x_hex64 (js_String p) then "bytes32" else "string"
      | None => "string"
      end).
  { intros pt. unfold jsonTypeToAbi. cbn [xAbi pattern].
    assert (is_str "bytes32" hint = false) as ->; [|done].
    destruct hint as [[| | |s| |]|]; try reflexivity. cbn [is_str].
    destruct (String.eqb_spec s "bytes32") as [->|]; [done | reflexivity]. }
  rewrite !Hx. cbn [js_String]. repeat split.
  - intros Hc. apply test_0x_hex64_spec in Hc as Ht. rewrite Ht.
    destruct pat; [|done]. simpl in Ht. discriminate.
  - intros Hc. destruct (test_0x_hex64 pat) eqn:Ht.
    + by apply test_0x_hex64_spec in Ht.
    + by rewrite andb_false_r.
Qed.

End AbiTypeMapper.

(** C7. The property hash of type string with the pattern
    ^0x[a-fA-F0-9]{64}$ : the text of the pattern holds no run of 64
    hexadecimal digits, so the regular expression of jsonTypeToAbi does
    not match it and generate-eas-object (both versions) writes
    "string hash"; the mapper of generate-bas-object, which compares the
    pattern with that very text, answers bytes32. *)
Theorem bytes32_pattern_example :
  forall (h : host) (schema : json) (baseDir : string) (st : state),
    test_0x_hex64 hash_pattern = false
    /\ jsonTypeToAbi (Some "string")
         {| propName := "hash"; pattern := Some (JStr hash_pattern); xAbi := None |}
       = "string"
    /\ fst (GenerateEasObject.buildSchemaString h
              (Some (JObj [("hash", hash_property)])) schema baseDir st)
       = "string hash"
    /\ GenerateEasObjectLegacy.buildSchemaString (Some (JObj [("hash", hash_property)]))
       = "string hash"
    /\ fst (GenerateBasObject.mapJsonSchemaPropertyToAbiType h hash_property "hash"
              schema baseDir st)
       = GenerateBasObject.Abi "bytes32".
Proof. intros. vm_compute. repeat split; reflexivity. Qed.

(** A pattern whose text does hold 0x and 64 hexadecimal digits. *)
Example bytes32_pattern_literal :
  jsonTypeToAbi (Some "string")
    {| propName := "hash";
       pattern := Some (JStr "^0x0123456789abcdef0123456789abcdef0123456789ABCDEF0123456789ABCDEF$");
       xAbi := None |}
  = "bytes32".
Proof. vm_compute. reflexivity. Qed.

(* ===================================================================== *)
(** * The cache of external schemas                                        *)
(* ===================================================================== *)

Section SchemaCache.

Lemma parsedReads_app p log1 log2 :
  parsedReads p (log1 ++ log2) = (parsedReads p log1 + parsedReads p log2)%nat.
Proof.
  induction log1 as [|[q f|q f [|]] log1 IH]; simpl; rewrite ?IH; lia.
Qed.

Lemma coherent_initial : coherent initial.
Proof. intros p. simpl. by rewrite lookup_empty. Qed.

(** The three ways a call can go. *)
Lemma loadExternalSchema_hit h p b st doc :
  schemaCache st !! p = Some doc ->
  loadExternalSchema h p b st = (doc, st).
Proof.
  intros H. unfold loadExternalSchema, bind, cache_get, ret. cbv beta iota zeta.
  by rewrite H.
Qed.

Lemma loadExternalSchema_store h p b st doc :
  schemaCache st !! p = None ->
  existsSync h (path_resolve h b p) = true ->
  readJson h (path_resolve h b p) = Some doc ->
  loadExternalSchema h p b st =
  (doc, {| schemaCache := <[p := doc]> (schemaCache st);
           diskLog := (diskLog st ++ [EvExists p (path_resolve h b p)])
                      ++ [EvRead p (path_resolve h b p) true] |}).
Proof.
  intros Hc He Hr. unfold loadExternalSchema, bind, cache_get, touch, cache_set, ret.
  cbv beta iota zeta. by rewrite Hc, He, Hr.
Qed.

Lemma loadExternalSchema_fail h p b st :
  schemaCache st !! p = None ->
  existsSync h (path_resolve h b p) = false
  \/ readJson h (path_resolve h b p) = None ->
  exists tail,
    loadExternalSchema h p b st =
    (JNull, {| schemaCache := schemaCache st;
               diskLog := diskLog st ++ EvExists p (path_resolve h b p) :: tail |})
    /\ parsedReads p tail = 0%nat /\ forall q, parsedReads q tail = 0%nat.
Proof.
  intros Hc Hf. unfold loadExternalSchema, bind, cache_get, touch, ret.
  cbv beta iota zeta. rewrite Hc. simpl.
  destruct (existsSync h (path_resolve h b p)) eqn:He; simpl.
  - destruct Hf as [|Hr]; [done|]. rewrite Hr. simpl.
    exists [EvRead p (path_resolve h b p) false].
    by rewrite <- app_assoc.
  - by exists [].
Qed.

Lemma loadExternalSchema_coherent h p b st :
  coherent st -> coherent (snd (loadExternalSchema h p b st)).
Proof.
  intros Hco. destruct (schemaCache st !! p) as [doc|] eqn:Hc.
  { by rewrite (loadExternalSchema_hit h p b st doc). }
  destruct (existsSync h (path_resolve h b p)) eqn:He;
    [destruct (readJson h (path_resolve h b p)) as [doc|] eqn:Hr|].
  - rewrite (loadExternalSchema_store h p b st doc) by done.
    intros q. simpl. rewrite !parsedReads_app, (Hco q). simpl.
    destruct (String.eqb_spec p q) as [->|Hne].
    + rewrite Hc, lookup_insert_eq. lia.
    + rewrite lookup_insert_ne by done. destruct (schemaCache st !! q); lia.
  - destruct (loadExternalSchema_fail h p b st Hc) as (tail & -> & _ & Ht); [by right|].
    intros q. simpl. rewrite parsedReads_app. simpl. rewrite Ht, (Hco q). lia.
  - destruct (loadExternalSchema_fail h p b st Hc) as (tail & -> & _ & Ht); [by left|].
    intros q. simpl. rewrite parsedReads_app. simpl. rewrite Ht, (Hco q). lia.
Qed.

(** The cache only grows: an entry is never removed nor replaced. *)
Lemma loadExternalSchema_keeps h p b st q doc :
  schemaCache st !! q = Some doc ->
  schemaCache (snd (loadExternalSchema h p b st)) !! q = Some doc.
Proof.
  intros Hq. destruct (schemaCache st !! p) as [d|] eqn:Hc.
  { by rewrite (loadExternalSchema_hit h p b st d). }
  assert (p <> q) as Hne by (intros ->; congruence).
  destruct (existsSync h (path_resolve h b p)) eqn:He;
    [destruct (readJson h (path_resolve h b p)) as [d|] eqn:Hr|].
  - rewrite (loadExternalSchema_store h p b st d) by done. simpl.
    by rewrite lookup_insert_ne.
  - by destruct (loadExternalSchema_fail h p b st Hc) as (tail & -> & _); [right|].
  - by destruct (loadExternalSchema_fail h p b st Hc) as (tail & -> & _); [left|].
Qed.

Lemma preserves_ret {A} (a : A) : preserves (ret a).
Proof. by intros st Hco. Qed.

Lemma preserves_bind {A B} (c : M A) (k : A -> M B) :
  preserves c -> (forall a, preserves (k a)) -> preserves (bind c k).
Proof.
  intros Hc Hk st Hco. unfold bind. specialize (Hc st Hco).
  destruct (c st) as [a st1]. by apply Hk.
Qed.

Lemma preserves_if {A} (b : bool) (c1 c2 : M A) :
  preserves c1 -> preserves c2 -> preserves (if b then c1 else c2).
Proof. by destruct b. Qed.

Lemma loadExternalSchema_preserves h p b : preserves (loadExternalSchema h p b).
Proof. intros st. apply loadExternalSchema_coherent. Qed.

Lemma resolveRef_preserves h ref schema b : preserves (resolveRef h ref schema b).
Proof.
  unfold resolveRef. repeat apply preserves_if; try apply preserves_ret.
  apply preserves_bind; [apply loadExternalSchema_preserves|].
  intros a. apply preserves_if; apply preserves_ret.
Qed.

Lemma resolveProperty_preserves h prop schema b :
  preserves (resolveProperty h prop schema b).
Proof.
  unfold resolveProperty. apply preserves_if; [apply preserves_ret|].
  destruct (member "$ref" prop) as [[| | |ref| |]|]; try apply preserves_ret.
  apply preserves_if; [apply preserves_ret|].
  apply preserves_bind; [apply resolveRef_preserves|].
  intros a. apply preserves_if; apply preserves_ret.
Qed.

Lemma mapper_preserves h prop key schema b :
  preserves (GenerateEasObject.mapJsonSchemaPropertyToAbiType h prop key schema b).
Proof.
  unfold GenerateEasObject.mapJsonSchemaPropertyToAbiType.
  apply preserves_if; [apply preserves_ret|].
  apply preserves_if; [|apply preserves_ret].
  destruct (member "items" prop) as [items|]; [|apply preserves_ret].
  apply preserves_if; [|apply preserves_ret].
  apply preserves_bind; [|intros a; apply preserves_ret].
  apply preserves_if; [apply resolveProperty_preserves | apply preserves_ret].
Qed.

Lemma buildLoop_preserves h schema b props abiFields :
  preserves (GenerateEasObject.buildLoop h schema b props abiFields).
Proof.
  revert abiFields. induction props as [|[key raw] rest IH]; intros abiFields.
  - apply preserves_ret.
  - cbn [GenerateEasObject.buildLoop]. apply preserves_bind; [|intros a; apply IH].
    unfold GenerateEasObject.buildField.
    apply preserves_bind; [apply resolveProperty_preserves|].
    intros property. apply preserves_if; [apply preserves_ret|].
    apply preserves_bind; [apply mapper_preserves | intros a; apply preserves_ret].
Qed.

Lemma buildSchemaString_preserves h properties schema b :
  preserves (GenerateEasObject.buildSchemaString h properties schema b).
Proof.
  unfold GenerateEasObject.buildSchemaString.
  destruct properties as [props|]; [|apply preserves_ret].
  apply preserves_if; [apply preserves_ret|].
  apply preserves_bind; [apply buildLoop_preserves | intros a; apply preserves_ret].
Qed.

Lemma run_coherent reqs st : coherent st -> coherent (run reqs st).
Proof.
  revert st. induction reqs as [|r reqs IH]; intros st Hco; [done|].
  simpl. apply IH. by apply loadExternalSchema_coherent.
Qed.

Lemma run_keeps reqs st q doc :
  schemaCache st !! q = Some doc -> schemaCache (run reqs st) !! q = Some doc.
Proof.
  revert st. induction reqs as [|r reqs IH]; intros st Hq; [done|].
  simpl. apply IH. by apply loadExternalSchema_keeps.
Qed.

Lemma run_app reqs1 reqs2 st : run (reqs1 ++ reqs2) st = run reqs2 (run reqs1 st).
Proof. revert st. induction reqs1 as [|r reqs1 IH]; intros st; [done|]. apply IH. Qed.

(** On a disk that stays as it is, with one base directory. *)
Variable h : host.
Variable baseDir : string.

Lemma reads_app p log1 log2 :
  reads p (log1 ++ log2) = (reads p log1 + reads p log2)%nat.
Proof.
  induction log1 as [|[q f|q f ok] log1 IH]; simpl; rewrite ?IH; lia.
Qed.

Lemma loadExternalSchema_settled p st :
  settled h baseDir st -> settled h baseDir (snd (loadExternalSchema h p baseDir st)).
Proof.
  intros Hse. destruct (schemaCache st !! p) as [doc|] eqn:Hc.
  { by rewrite (loadExternalSchema_hit h p baseDir st doc). }
  destruct (existsSync h (path_resolve h baseDir p)) eqn:He;
    [destruct (readJson h (path_resolve h baseDir p)) as [doc|] eqn:Hr|].
  - rewrite (loadExternalSchema_store h p baseDir st doc) by done.
    intros q. simpl. rewrite !reads_app. simpl.
    destruct (String.eqb_spec p q) as [<-|Hne].
    + rewrite lookup_insert_eq. pose proof (Hse p) as Hp. rewrite Hc, Hr in Hp.
      destruct (reads p (diskLog st)); [lia|]. discriminate Hp. lia.
    + rewrite lookup_insert_ne by done. pose proof (Hse q) as Hq.
      destruct (schemaCache st !! q); [lia|]. intros Hpos. apply Hq. lia.
  - unfold loadExternalSchema, bind, cache_get, touch, ret.
    cbv beta iota zeta. rewrite Hc, He, Hr. simpl.
    intros q. simpl. rewrite !reads_app. simpl. pose proof (Hse q) as Hq.
    destruct (String.eqb_spec p q) as [<-|Hne].
    + by rewrite Hc.
    + destruct (schemaCache st !! q); [lia|]. intros Hpos. apply Hq. lia.
  - unfold loadExternalSchema, bind, cache_get, touch, ret.
    cbv beta iota zeta. rewrite Hc, He. simpl.
    intros q. simpl. rewrite !reads_app. simpl. pose proof (Hse q) as Hq.
    destruct (schemaCache st !! q); [lia|]. intros Hpos. apply Hq. lia.
Qed.

Lemma run_settled paths st : settled h baseDir st -> settled h baseDir (run (requests h baseDir paths) st).
Proof.
  revert st. induction paths as [|p paths IH]; intros st Hse; [done|].
  simpl. apply IH. by apply loadExternalSchema_settled.
Qed.

Lemma settled_initial : settled h baseDir initial.
Proof. intros p. simpl. rewrite lookup_empty. lia. Qed.

End SchemaCache.

(** C8. In a process run (any sequence of calls of loadExternalSchema
    from the empty cache, on a disk that may change between calls), no
    relative path is read and parsed with success more than once, and so
    it is in a compilation by buildSchemaString; on a disk that does not
    change, with one base directory, the file of a cached path was read
    exactly once, failed attempts included.  A
    successful load stores the document under the relative path string it
    was asked for, and every later call with that string, whatever the
    base directory and the disk, returns that document and touches
    nothing.  A load that fails (file missing, or read or parse error)
    returns null and leaves the cache as it was, so the next call with
    the same path probes the disk again. *)
Theorem loadExternalSchema_cache_invariant :
  forall (reqs : list request) (h : host) (p b : string),
    let st := run reqs initial in
    let full := path_resolve h b p in
    let r := fst (loadExternalSchema h p b st) in
    let st' := snd (loadExternalSchema h p b st) in
    (forall q, (parsedReads q (diskLog st') <= 1)%nat)
    /\ (forall doc, schemaCache st !! p = Some doc -> r = doc /\ st' = st)
    /\ (forall doc,
          schemaCache st !! p = None ->
          existsSync h full = true ->
          readJson h full = Some doc ->
          r = doc
          /\ schemaCache st' = <[p := doc]> (schemaCache st)
          /\ parsedReads p (diskLog st') = 1%nat
          /\ forall later h' b',
               loadExternalSchema h' p b' (run later st') = (doc, run later st'))
    /\ (schemaCache st !! p = None ->
        existsSync h full = false \/ readJson h full = None ->
        r = JNull
        /\ schemaCache st' = schemaCache st
        /\ forall b', exists tail,
             diskLog (snd (loadExternalSchema h p b' st'))
             = diskLog st' ++ EvExists p (path_resolve h b' p) :: tail)
    /\ (forall paths q,
          is_Some (schemaCache (run (requests h b paths) initial) !! q) ->
          reads q (diskLog (run (requests h b paths) initial)) = 1%nat)
    /\ (forall properties schema q,
          (parsedReads q (diskLog (snd (GenerateEasObject.buildSchemaString h
                                          properties schema b st))) <= 1)%nat).
Proof.
  intros reqs h p b st full r st'.
  assert (Hfixed : forall paths q,
            is_Some (schemaCache (run (requests h b paths) initial) !! q) ->
            reads q (diskLog (run (requests h b paths) initial)) = 1%nat).
  { intros paths q [doc Hq].
    pose proof (run_settled h b paths initial (settled_initial h b) q) as Hs.
    by rewrite Hq in Hs. }
  assert (Hco : coherent st) by apply run_coherent, coherent_initial.
  assert (Hco' : coherent st') by by apply loadExternalSchema_coherent.
  split; [|split; [|split; [|split; [|split; [exact Hfixed|]]]]].
  - intros q. rewrite (Hco' q). destruct (schemaCache st' !! q); lia.
  - intros doc Hc. subst r st'. by rewrite (loadExternalSchema_hit h p b st doc).
  - intros doc Hc He Hr. subst r st'.
    rewrite (loadExternalSchema_store h p b st doc) in * by done. simpl.
    split; [done|]. split; [done|]. split.
    + pose proof (Hco' p) as Hp. simpl in Hp. by rewrite lookup_insert_eq in Hp.
    + intros later h' b'. apply loadExternalSchema_hit, run_keeps. simpl.
      apply lookup_insert_eq.
  - intros Hc Hf. subst r st'.
    destruct (loadExternalSchema_fail h p b st Hc Hf) as (tail & E & _).
    rewrite E. simpl. split; [done|]. split; [done|]. intros b'.
    set (st1 := {| schemaCache := schemaCache st; diskLog := _ |}).
    assert (Hc1 : schemaCache st1 !! p = None) by done.
    destruct (existsSync h (path_resolve h b' p)) eqn:He';
      [destruct (readJson h (path_resolve h b' p)) as [d|] eqn:Hr'|].
    + rewrite (loadExternalSchema_store h p b' st1 d) by done. simpl.
      rewrite <- app_assoc. by eexists.
    + destruct (loadExternalSchema_fail h p b' st1 Hc1) as (t' & -> & _); [by right|].
      by eexists.
    + destruct (loadExternalSchema_fail h p b' st1 Hc1) as (t' & -> & _); [by left|].
      by eexists.
  - intros properties schema q.
    pose proof (buildSchemaString_preserves h properties schema b st Hco q) as Hq.
    rewrite Hq. destruct (schemaCache _ !! q); lia.
Qed.

Lemma loadExternalSchema_cache_invariant_witness :
  let st' := snd (loadExternalSchema sample_disk "common.schema.json" "/schemas"
                    (run [] initial)) in
  let later := [{| req_host := sample_disk; req_path := "broken.json";
                   req_baseDir := "/schemas" |}] in
  loadExternalSchema sample_disk "common.schema.json" "/elsewhere" (run later st')
  = (JObj [("$defs", JObj [("Proof", typed "string")])], run later st').
Proof.
  apply (proj2 (proj2 (proj2 (proj1 (proj2 (proj2
           (loadExternalSchema_cache_invariant [] sample_disk
              "common.schema.json" "/schemas")))
           (JObj [("$defs", JObj [("Proof", typed "string")])])
           eq_refl eq_refl eq_refl)))).
Defined.

(** The read-counting scenario: two loads of the same path read once; two
    loads of a broken path read twice. *)
Example loadExternalSchema_read_counts :
  let good := {| req_host := sample_disk; req_path := "common.schema.json";
                 req_baseDir := "/schemas" |} in
  let bad := {| req_host := sample_disk; req_path := "broken.json";
                req_baseDir := "/schemas" |} in
  diskLog (run [good; good] initial)
  = [EvExists "common.schema.json" "/schemas/common.schema.json";
     EvRead "common.schema.json" "/schemas/common.schema.json" true]
  /\ diskLog (run [bad; bad] initial)
     = [EvExists "broken.json" "/schemas/broken.json";
        EvRead "broken.json" "/schemas/broken.json" false;
        EvExists "broken.json" "/schemas/broken.json";
        EvRead "broken.json" "/schemas/broken.json" false].
Proof. vm_compute. split; reflexivity. Qed.

(* ===================================================================== *)
(** * The schema string builder                                            *)
(* ===================================================================== *)

Section SchemaStringBuilder.

Variable h : host.
Variable currentSchema : json.
Variable baseDir : string.

Lemma buildField_step key rawProperty st :
  buildField h currentSchema baseDir key rawProperty st =
  let '(property, st1) := resolveProperty h rawProperty currentSchema baseDir st in
  let '(abiType, st2) :=
    if isSkipped property then (None, st1)
    else mapJsonSchemaPropertyToAbiType h property key currentSchema baseDir st1 in
  (ifTruthy abiType, st2).
Proof.
  unfold buildField, bind, ret.
  destruct (resolveProperty h rawProperty currentSchema baseDir st) as [property st1].
  destruct (isSkipped property); [done|].
  by destruct (mapJsonSchemaPropertyToAbiType h property key currentSchema baseDir st1).
Qed.

(** The loop pushes, after what [abiFields] holds, the text of the
    survivors in the order of the properties. *)
Lemma buildLoop_survivors props abiFields st :
  fst (buildLoop h currentSchema baseDir props abiFields st) =
  abiFields ++ map (fun '(t, name) => t +:+ " " +:+ name)
                 (survivors (fieldSteps h currentSchema baseDir props st)).
Proof.
  revert abiFields st.
  induction props as [|[key rawProperty] rest IH]; intros abiFields st.
  - simpl. by rewrite app_nil_r.
  - cbn [buildLoop fieldSteps]. unfold bind at 1.
    rewrite buildField_step.
    destruct (resolveProperty h rawProperty currentSchema baseDir st) as [property st1].
    destruct (if isSkipped property then (None, st1)
              else mapJsonSchemaPropertyToAbiType h property key currentSchema
                     baseDir st1) as [abiType st2].
    rewrite IH. unfold survivors. cbn [omap list_omap survivor step_type step_key].
    destruct (ifTruthy abiType) as [t|]; [|done].
    cbn [map]. by rewrite <- app_assoc.
Qed.

Lemma buildSchemaString_survivors properties st :
  fst (buildSchemaString h properties currentSchema baseDir st) =
  schemaText (survivors (fieldSteps h currentSchema baseDir (propertyEntries properties) st)).
Proof.
  unfold buildSchemaString, propertyEntries, schemaText.
  destruct properties as [props|]; [|done].
  destruct (truthy props); [|done]. cbn [negb]. unfold bind, ret.
  cbv beta iota.
  pose proof (buildLoop_survivors (entries props) [] st) as H.
  destruct (buildLoop h currentSchema baseDir (entries props) [] st) as [fields st'].
  simpl in H. by rewrite H.
Qed.

Lemma fieldSteps_keys props st :
  map step_key (fieldSteps h currentSchema baseDir props st) = map fst props.
Proof.
  revert st. induction props as [|[key rawProperty] rest IH]; intros st; [done|].
  cbn [fieldSteps].
  destruct (resolveProperty h rawProperty currentSchema baseDir st) as [property st1].
  destruct (if isSkipped property then (None, st1)
            else mapJsonSchemaPropertyToAbiType h property key currentSchema
                   baseDir st1) as [abiType st2].
  cbn [map step_key fst]. by rewrite IH.
Qed.

Lemma survivors_sublist steps :
  sublist (map snd (survivors steps)) (map step_key steps).
Proof.
  induction steps as [|s steps IH]; [constructor|].
  unfold survivors. cbn [omap list_omap]. unfold survivor at 1.
  destruct (step_type s); cbn [map snd]; by constructor.
Qed.

(** A step whose type is [None] leaves no survivor of its name, when the
    names are distinct. *)
Lemma survivor_of_step steps s t :
  NoDup (map step_key steps) ->
  s ∈ steps ->
  (t, step_key s) ∈ survivors steps -> step_type s = Some t.
Proof.
  intros Hnd Hs Hin. unfold survivors in Hin.
  apply list_elem_of_omap in Hin as (s' & Hs' & Hsv).
  unfold survivor in Hsv. destruct (step_type s') as [t'|] eqn:Ht; [|done].
  injection Hsv as <- Hk.
  assert (s' = s) as <-; [|done].
  clear Ht. induction steps as [|a steps IH]; [by apply not_elem_of_nil in Hs|].
  cbn [map] in Hnd. apply NoDup_cons in Hnd as [Ha Hnd].
  apply elem_of_cons in Hs as [->|Hs]; apply elem_of_cons in Hs' as [->|Hs']; try done.
  - exfalso. apply Ha. rewrite <- Hk. by apply list_elem_of_fmap_2.
  - exfalso. apply Ha. rewrite Hk. by apply list_elem_of_fmap_2.
  - by apply IH.
Qed.

Lemma step_survives steps s t :
  s ∈ steps -> step_type s = Some t -> (t, step_key s) ∈ survivors steps.
Proof.
  intros Hs Ht. unfold survivors. apply list_elem_of_omap. exists s.
  split; [done|]. unfold survivor. by rewrite Ht.
Qed.

(** Each step is the code's treatment of its property. *)
Lemma fieldSteps_step props st s :
  s ∈ fieldSteps h currentSchema baseDir props st ->
  step_type s =
  if isSkipped (step_resolved s) then None
  else ifTruthy (fst (mapJsonSchemaPropertyToAbiType h (step_resolved s) (step_key s)
                        currentSchema baseDir (step_state s))).
Proof.
  revert st. induction props as [|[key rawProperty] rest IH]; intros st Hs.
  { by apply not_elem_of_nil in Hs. }
  cbn [fieldSteps] in Hs.
  destruct (resolveProperty h rawProperty currentSchema baseDir st) as [property st1].
  destruct (isSkipped property) eqn:Hskip.
  - apply elem_of_cons in Hs as [->|Hs]; [|by eapply IH].
    cbn [step_type step_resolved]. by rewrite Hskip.
  - destruct (mapJsonSchemaPropertyToAbiType h property key currentSchema baseDir st1)
      as [abiType st2] eqn:Hmap.
    apply elem_of_cons in Hs as [->|Hs]; [|by eapply IH].
    cbn [step_type step_resolved step_key step_state]. by rewrite Hskip, Hmap.
Qed.

(** The mapper never answers the empty string. *)
Lemma arrayOf_not_empty t a : arrayOf t = Some a -> Js.falsy_string a = false.
Proof.
  unfold arrayOf.
  repeat match goal with
         | |- context [if ?b then _ else _] => destruct b
         end; by intros [= <-].
Qed.

Lemma jsonTypeToAbi_not_empty e ctx : Js.falsy_string (jsonTypeToAbi e ctx) = false.
Proof.
  unfold jsonTypeToAbi.
  repeat match goal with
         | |- context [if ?b then _ else _] => destruct b
         | |- context [match ?x with _ => _ end] => destruct x
         end; reflexivity.
Qed.

Lemma mapper_not_empty property key st :
  ifTruthy (fst (mapJsonSchemaPropertyToAbiType h property key currentSchema baseDir st))
  = fst (mapJsonSchemaPropertyToAbiType h property key currentSchema baseDir st).
Proof.
  unfold mapJsonSchemaPropertyToAbiType.
  destruct (String.eqb key "purpose"); [done|].
  destruct (is_array_type (resolveJsonType property)).
  - destruct (member "items" property) as [items|]; [|done].
    destruct (truthy items); [|done]. unfold bind, ret.
    destruct ((if truthy_opt (member "$ref" items) && truthy currentSchema
                  && negb (Js.falsy_string baseDir)
               then resolveProperty h items currentSchema baseDir
               else fun st0 => (items, st0)) st) as [resolvedItems st'].
    cbn [fst]. unfold arrayType.
    destruct (itemTypeOf resolvedItems) as [t|]; [|done].
    destruct (truthy t); [|done].
    destruct (arrayOf (js_String t)) as [a|] eqn:Ha; [|done].
    unfold ifTruthy. by rewrite (arrayOf_not_empty _ _ Ha).
  - unfold ret. cbn [fst]. unfold ifTruthy. by rewrite jsonTypeToAbi_not_empty.
Qed.

End SchemaStringBuilder.

Section LegacyBuilder.

Lemma legacy_buildLoop_survivors props abiFields :
  GenerateEasObjectLegacy.buildLoop props abiFields =
  abiFields ++ map (fun '(t, name) => t +:+ " " +:+ name) (legacySurvivors props).
Proof.
  revert abiFields. induction props as [|[key property] rest IH]; intros abiFields.
  - simpl. by rewrite app_nil_r.
  - cbn [GenerateEasObjectLegacy.buildLoop]. rewrite IH.
    unfold legacySurvivors. cbn [omap list_omap].
    destruct (GenerateEasObjectLegacy.buildField key property); [|done].
    cbn [map]. by rewrite <- app_assoc.
Qed.

Lemma legacy_buildSchemaString_survivors properties :
  GenerateEasObjectLegacy.buildSchemaString properties =
  schemaText (legacySurvivors (propertyEntries properties)).
Proof.
  unfold GenerateEasObjectLegacy.buildSchemaString, propertyEntries, schemaText.
  destruct properties as [props|]; [|done].
  destruct (truthy props); [|done]. cbn [negb].
  by rewrite legacy_buildLoop_survivors.
Qed.

Lemma legacy_skipped props key t :
  NoDup (map fst props) ->
  (t, key) ∈ legacySurvivors props ->
  exists property,
    (key, property) ∈ props
    /\ truthy_opt (member "x-oma3-skip-reason" property) = false.
Proof.
  intros _ Hin. unfold legacySurvivors in Hin.
  apply list_elem_of_omap in Hin as ([k property] & Hp & Hsv).
  unfold GenerateEasObjectLegacy.buildField in Hsv.
  destruct (truthy_opt (member "x-oma3-skip-reason" property)) eqn:Hskip; [done|].
  destruct (ifTruthy _); [|done]. injection Hsv as _ <-. by exists property.
Qed.

Lemma NoDup_fst_unique {A} (l : list (string * A)) k v1 v2 :
  NoDup (map fst l) -> (k, v1) ∈ l -> (k, v2) ∈ l -> v1 = v2.
Proof.
  induction l as [|[k' v'] l IH]; intros Hnd H1 H2.
  { by apply not_elem_of_nil in H1. }
  cbn [map fst] in Hnd. apply NoDup_cons in Hnd as [Hk Hnd].
  apply elem_of_cons in H1 as [E1|H1]; apply elem_of_cons in H2 as [E2|H2].
  - congruence.
  - exfalso. apply Hk. injection E1 as <- _.
    by apply (list_elem_of_fmap_2 fst l (k, v2)).
  - exfalso. apply Hk. injection E2 as <- _.
    by apply (list_elem_of_fmap_2 fst l (k, v1)).
  - by apply IH.
Qed.

End LegacyBuilder.


(** The skip test, for distinct property names: a field whose resolved
    property has the skip reason "metadata" or "eas" is not among the
    fields of the schema string, whatever else it holds; a field whose
    skip reason is "unused" goes to the mapper like a field without skip
    reason.  The version without references reads the skip reason on the
    property as it is written. *)
Theorem skip_reason_law :
  forall (h : host) (properties : option json) (schema : json)
         (baseDir : string) (st : state) (s : fieldStep),
    let props := propertyEntries properties in
    let steps := fieldSteps h schema baseDir props st in
    NoDup (map fst props) ->
    s ∈ steps ->
    fst (GenerateEasObject.buildSchemaString h properties schema baseDir st)
    = schemaText (survivors steps)
    /\ (skipReason (step_resolved s) = Some (JStr "metadata")
        \/ skipReason (step_resolved s) = Some (JStr "eas") ->
        step_key s ∉ map snd (survivors steps))
    /\ (skipReason (step_resolved s) = Some (JStr "unused") ->
        forall t,
          (t, step_key s) ∈ survivors steps <->
          fst (mapJsonSchemaPropertyToAbiType h (step_resolved s) (step_key s)
                 schema baseDir (step_state s)) = Some t)
    /\ GenerateEasObjectLegacy.buildSchemaString properties
       = schemaText (legacySurvivors props)
    /\ (forall key property,
          (key, property) ∈ props ->
          skipReason property = Some (JStr "metadata")
          \/ skipReason property = Some (JStr "eas") ->
          key ∉ map snd (legacySurvivors props)).
Proof.
  intros h properties schema baseDir st s props steps Hnd Hs.
  assert (Hnd' : NoDup (map step_key steps))
    by (subst steps; by rewrite fieldSteps_keys).
  pose proof (fieldSteps_step h schema baseDir props st s Hs) as Hstep.
  split; [apply buildSchemaString_survivors|]. split; [|split; [|split]].
  - intros Hskip Hin. apply list_elem_of_fmap in Hin as ([t k] & Hk & Hin).
    cbn [snd] in Hk. subst k.
    apply (survivor_of_step steps s t Hnd' Hs) in Hin.
    rewrite Hin in Hstep. unfold isSkipped in Hstep. unfold skipReason in Hskip.
    destruct Hskip as [E|E]; rewrite E in Hstep; cbn in Hstep; done.
  - intros Hunused t. unfold isSkipped in Hstep. unfold skipReason in Hunused.
    rewrite Hunused, mapper_not_empty in Hstep. cbn [is_str orb] in Hstep.
    change (String.eqb "unused" "metadata") with false in Hstep.
    change (String.eqb "unused" "eas") with false in Hstep. cbn [orb] in Hstep.
    rewrite <- Hstep. split.
    + by apply survivor_of_step.
    + by apply step_survives.
  - apply legacy_buildSchemaString_survivors.
  - intros key property Hin Hskip Hk.
    apply list_elem_of_fmap in Hk as ([t k] & Hkk & Hsv). cbn [snd] in Hkk. subst k.
    apply (legacy_skipped props key t Hnd) in Hsv as (property' & Hin' & Htr).
    rewrite (NoDup_fst_unique props key property property' Hnd Hin Hin') in Hskip.
    unfold skipReason in Hskip. destruct Hskip as [E|E]; rewrite E in Htr; done.
Qed.

Lemma skip_reason_law_witness :
  "easField" ∉ map snd
    (survivors (fieldSteps sample_disk skip_reasons_schema "/schemas"
                  (propertyEntries skip_reasons_properties) initial)).
Proof.
  refine (proj1 (proj2 (skip_reason_law sample_disk skip_reasons_properties
                          skip_reasons_schema "/schemas" initial
                          {| step_key := "easField";
                             step_resolved :=
                               JObj [("type", JStr "string");
                                     ("x-oma3-skip-reason", JStr "eas")];
                             step_state := initial;
                             step_type := None |} _ _)) _).
  - apply (bool_decide_unpack _). vm_compute. exact I.
  - apply list_elem_of_In. vm_compute. tauto.
  - right. reflexivity.
Defined.

(** The three skip reasons side by side, and the version without
    references, which excludes every field that has a skip reason. *)
Example skip_reasons_example :
  fst (GenerateEasObject.buildSchemaString sample_disk skip_reasons_properties
         skip_reasons_schema "/schemas" initial)
  = "string value, string reservedField"
  /\ GenerateEasObjectLegacy.buildSchemaString skip_reasons_properties
     = "string value, string easField".
Proof. vm_compute. split; reflexivity. Qed.

Section Enumeration.

Lemma place_perm n kv sorted : place n kv sorted ≡ₚ (n, kv) :: sorted.
Proof.
  induction sorted as [|[m other] rest IH]; [done|]. simpl.
  destruct (n <? m)%N; [done|]. rewrite IH. apply perm_swap.
Qed.

Lemma place_sorted n kv sorted :
  StronglySorted N.le (map fst sorted) ->
  StronglySorted N.le (map fst (place n kv sorted)).
Proof.
  induction sorted as [|[m other] rest IH]; intros Hs.
  - simpl. repeat constructor.
  - simpl. destruct (n <? m)%N eqn:E.
    + cbn [map fst]. constructor; [done|].
      apply N.ltb_lt in E. cbn [map fst] in Hs.
      apply StronglySorted_inv in Hs as [_ Hall].
      constructor; [lia|].
      eapply Forall_impl; [exact Hall|]. intros a Ha. simpl in Ha. lia.
    + cbn [map fst] in *. apply StronglySorted_inv in Hs as [Hs Hall].
      constructor; [by apply IH|].
      apply N.ltb_ge in E.
      assert (Hp : map fst (place n kv rest) ≡ₚ n :: map fst rest).
      { by rewrite place_perm. }
      rewrite Hp. constructor; [done|]. exact Hall.
Qed.

Lemma sortIndexed_perm l : sortIndexed l ≡ₚ l.
Proof.
  induction l as [|[n kv] l IH]; [done|]. simpl. by rewrite place_perm, IH.
Qed.

Lemma sortIndexed_sorted l : StronglySorted N.le (map fst (sortIndexed l)).
Proof.
  induction l as [|[n kv] l IH]; [constructor|]. simpl. by apply place_sorted.
Qed.

Lemma indexed_snd l : map snd (omap indexed l) = List.filter (fun kv => is_index (fst kv)) l.
Proof.
  induction l as [|kv l IH]; [done|]. cbn [omap list_omap List.filter].
  unfold indexed at 1, is_index at 1.
  destruct (array_index (fst kv)); cbn [map snd]; by rewrite IH.
Qed.

Lemma indices_indexed l :
  (forall x, x ∈ l -> array_index (fst (snd x)) = Some (fst x)) ->
  indices (map snd l) = map fst l.
Proof.
  induction l as [|[n kv] l IH]; intros H; [done|].
  unfold indices in *. cbn [map omap list_omap snd fst].
  assert (Hn : array_index (fst kv) = Some n) by (apply (H (n, kv)); left).
  rewrite Hn. f_equal. apply IH.
  intros x Hx. apply H. by right.
Qed.

Lemma indexed_spec (l : list (string * json)) (x : N * (string * json)) :
  x ∈ omap indexed l -> array_index (fst (snd x)) = Some (fst x).
Proof.
  intros Hx. apply list_elem_of_omap in Hx as (kv & _ & Hi).
  unfold indexed in Hi. destruct (array_index (fst kv)) eqn:E; [|done].
  by injection Hi as <-.
Qed.

(** The enumeration: the index properties in ascending order, then the
    others in the order of creation. *)
Lemma enumerate_spec created :
  exists first,
    enumerate created
    = first ++ List.filter (fun kv => negb (is_index (fst kv))) created
    /\ first ≡ₚ List.filter (fun kv => is_index (fst kv)) created
    /\ StronglySorted N.le (indices first).
Proof.
  exists (map snd (sortIndexed (omap indexed created))).
  split; [done|]. split.
  - rewrite <- indexed_snd. by rewrite sortIndexed_perm.
  - rewrite indices_indexed; [apply sortIndexed_sorted|].
    intros x Hx. apply (indexed_spec created).
    by rewrite <- (sortIndexed_perm (omap indexed created)).
Qed.

Lemma enumerate_no_index created :
  Forall (fun kv => is_index (fst kv) = false) created ->
  enumerate created = created.
Proof.
  intros H. unfold enumerate.
  assert (omap indexed created = []) as ->.
  { induction H as [|kv l Hk _ IH]; [done|]. cbn [omap list_omap].
    unfold indexed at 1. unfold is_index in Hk.
    by destruct (array_index (fst kv)). }
  simpl. induction H as [|kv l Hk _ IH]; [done|].
  cbn [List.filter]. rewrite Hk. cbn [negb]. by rewrite IH.
Qed.

Lemma enumerate_app created more :
  Forall (fun kv => is_index (fst kv) = false) more ->
  enumerate (created ++ more) = enumerate created ++ more.
Proof.
  intros H. unfold enumerate. rewrite omap_app, List.filter_app.
  assert (omap indexed more = []) as ->.
  { induction H as [|kv l Hk _ IH]; [done|]. cbn [omap list_omap].
    unfold indexed at 1. unfold is_index in Hk.
    by destruct (array_index (fst kv)). }
  rewrite app_nil_r, <- app_assoc. do 2 f_equal.
  induction H as [|kv l Hk _ IH]; [done|].
  cbn [List.filter]. rewrite Hk. cbn [negb]. by rewrite IH.
Qed.

Lemma set_key_fresh {A} k (v : A) l : k ∉ map fst l -> set_key k v l = l ++ [(k, v)].
Proof.
  induction l as [|[k' v'] l IH]; intros Hk; [done|]. simpl.
  cbn [map fst] in Hk. apply not_elem_of_cons in Hk as [Hne Hk].
  destruct (String.eqb_spec k k') as [E|_]; [done|]. by rewrite IH.
Qed.

Lemma fold_set_key_fresh (over base : list (string * json)) :
  NoDup (map fst (base ++ over)) ->
  fold_left (fun acc '(k, v) => set_key k v acc) over base = base ++ over.
Proof.
  revert base. induction over as [|[k v] over IH]; intros base Hnd.
  - by rewrite app_nil_r.
  - cbn [fold_left]. rewrite set_key_fresh.
    + rewrite IH; rewrite <- app_assoc; done.
    + rewrite map_app in Hnd. apply NoDup_app in Hnd as (_ & Hd & _).
      intros Hk. apply (Hd k Hk). cbn [map fst]. left.
Qed.

(** With distinct names the properties are created in the order of the
    text. *)
Lemma spread_distinct members :
  NoDup (map fst members) -> spread [] members = members.
Proof. intros Hnd. unfold spread. by rewrite fold_set_key_fresh. Qed.

Lemma set_key_names {A} k (v : A) l :
  map fst (set_key k v l)
  = if existsb (String.eqb k) (map fst l) then map fst l else map fst l ++ [k].
Proof.
  induction l as [|[k' v'] l IH]; [done|]. simpl.
  destruct (String.eqb_spec k k') as [->|Hne]; [done|].
  cbn [map fst orb]. rewrite IH. by destruct (existsb (String.eqb k) (map fst l)).
Qed.

Lemma fold_set_key_names (over base : list (string * json)) :
  map fst (fold_left (fun acc '(k, v) => set_key k v acc) over base)
  = map fst base ++ firstOccurrences (map fst base) (map fst over).
Proof.
  revert base. induction over as [|[k v] over IH]; intros base.
  - simpl. by rewrite app_nil_r.
  - cbn [fold_left map fst firstOccurrences]. rewrite IH, set_key_names.
    destruct (existsb (String.eqb k) (map fst base)); [done|].
    by rewrite <- app_assoc.
Qed.

(** A repeated name keeps the place of its first occurrence. *)
Lemma spread_names members :
  map fst (spread [] members) = firstOccurrences [] (map fst members).
Proof. unfold spread. by rewrite fold_set_key_names. Qed.

End Enumeration.

(** Which names are array indices. *)
Example array_index_examples :
  array_index "0" = Some 0%N /\ array_index "10" = Some 10%N
  /\ array_index "4294967294" = Some 4294967294%N
  /\ array_index "4294967295" = None /\ array_index "01" = None
  /\ array_index "-1" = None /\ array_index "1.5" = None
  /\ array_index "b" = None /\ array_index "" = None.
Proof. vm_compute. repeat split; reflexivity. Qed.

(** Not the order of the document: the names that are array indices
    come first. *)
Lemma schema_string_not_declaration_order :
  let members := [("b", typed "string"); ("1", typed "string");
                  ("a", typed "string"); ("0", typed "string")] in
  let text :=
    fst (buildSchemaString sample_disk (Some (parseObject members)) (JObj [])
           "/schemas" initial) in
  NoDup (map fst members)
  /\ text = "string 0, string 1, string b, string a"
  /\ text <> schemaText (map (fun kv => ("string", fst kv)) members).
Proof.
  cbv zeta. split; [apply (bool_decide_unpack _); vm_compute; exact I|].
  split; [vm_compute; reflexivity | vm_compute; discriminate].
Qed.

(** C5, as the code has it.  The schema string of buildSchemaString is
    the "type name" pairs of the surviving fields joined with ", ", in the
    order in which [for ... in] goes through the properties mapping: the
    properties whose name is an array index (the decimal spelling of an
    integer from 0 to 2^32 - 2) first, in ascending order of the index,
    then all the others in the order of the document (a name that the
    document repeats counts where it first occurs); for distinct names
    none of which is an array index that is exactly the order of the
    document.  A field survives when it is not excluded by its skip reason
    and the mapper yields a type; the fields that do not are left out and
    the survivors keep their relative order; an absent or empty properties
    mapping gives the empty string. *)
Theorem schema_string_order :
  forall (h : host) (members : list (string * json)) (schema : json)
         (baseDir : string) (st : state),
    let created := spread [] members in
    let properties := parseObject members in
    let steps := fieldSteps h schema baseDir (entries properties) st in
    fst (GenerateEasObject.buildSchemaString h (Some properties) schema baseDir st)
    = schemaText (survivors steps)
    /\ map step_key steps = keys properties
    /\ (exists first,
          entries properties
          = first ++ List.filter (fun kv => negb (is_index (fst kv))) created
          /\ first ≡ₚ List.filter (fun kv => is_index (fst kv)) created
          /\ StronglySorted N.le (indices first))
    /\ map fst created = firstOccurrences [] (map fst members)
    /\ (NoDup (map fst members) -> created = members)
    /\ (NoDup (map fst members) ->
        Forall (fun kv => is_index (fst kv) = false) members ->
        entries properties = members)
    /\ Forall (fun s =>
         step_type s =
         if isSkipped (step_resolved s) then None
         else fst (mapJsonSchemaPropertyToAbiType h (step_resolved s) (step_key s)
                     schema baseDir (step_state s))) steps
    /\ sublist (map snd (survivors steps)) (keys properties)
    /\ fst (GenerateEasObject.buildSchemaString h None schema baseDir st) = ""
    /\ fst (GenerateEasObject.buildSchemaString h (Some (parseObject [])) schema
              baseDir st) = "".
Proof.
  intros h members schema baseDir st created properties steps.
  split; [apply (buildSchemaString_survivors h schema baseDir (Some properties))|].
  split; [apply fieldSteps_keys|].
  split; [apply enumerate_spec|].
  split; [apply spread_names|].
  split; [apply spread_distinct|].
  split.
  { intros Hnd Hno. subst properties created. unfold parseObject. cbn [entries].
    rewrite spread_distinct by done. by apply enumerate_no_index. }
  split; [|split; [|done]].
  - apply Forall_forall. intros s Hs.
    rewrite (fieldSteps_step h schema baseDir _ st s Hs).
    destruct (isSkipped (step_resolved s)); [done|]. apply mapper_not_empty.
  - unfold keys. rewrite <- (fieldSteps_keys h schema baseDir (entries properties) st).
    apply survivors_sublist.
Qed.

(** The end-to-end scenarios of the specification. *)
Example schema_string_scenarios :
  fst (GenerateEasObject.buildSchemaString sample_disk
         (Some (JObj [("subject", typed "string"); ("score", typed "integer")]))
         (JObj []) "/schemas" initial)
  = "string subject, uint256 score"
  /\ fst (GenerateEasObject.buildSchemaString sample_disk
            (Some (JObj [("tags", JObj [("type", JStr "array");
                                        ("items", typed "string")])]))
            (JObj []) "/schemas" initial)
     = "string[] tags"
  /\ fst (GenerateEasObject.buildSchemaString sample_disk
            (Some (JObj [("b", typed "boolean"); ("dropped", typed "array");
                         ("a", typed "number")]))
            (JObj []) "/schemas" initial)
     = "bool b, uint256 a".
Proof. vm_compute. repeat split; reflexivity. Qed.

(** Two fields that refer to the same external file: one read. *)
Example external_ref_read_once :
  let properties :=
    Some (JObj [("proof", JObj [("$ref", JStr "common.schema.json#/$defs/Proof")]);
                ("other", JObj [("$ref", JStr "common.schema.json#/$defs/Proof")])]) in
  let '(text, st) :=
    GenerateEasObject.buildSchemaString sample_disk properties (JObj [])
      "/schemas" initial in
  text = "string proof, string other"
  /\ diskLog st
     = [EvExists "common.schema.json" "/schemas/common.schema.json";
        EvRead "common.schema.json" "/schemas/common.schema.json" true].
Proof. vm_compute. split; reflexivity. Qed.

(** detectRevocable: a field revoked with the skip reason eas. *)
Example detectRevocable_example :
  detectRevocable
    (Some (JObj [("revoked", JObj [("type", JStr "boolean");
                                   ("x-oma3-skip-reason", JStr "eas")])]))
  = true
  /\ detectRevocable (Some (JObj [("revoked", typed "boolean")])) = false.
Proof. vm_compute. split; reflexivity. Qed.

(* ===================================================================== *)
(** * Strings: splitting, joining, lowering                               *)
(* ===================================================================== *)

Section Strings.

Lemma append_nil_r (s : string) : s +:+ "" = s.
Proof. induction s as [|c s IH]; [reflexivity|]. rewrite append_cons, IH. reflexivity. Qed.

Lemma append_assoc (a b c : string) : (a +:+ b) +:+ c = a +:+ (b +:+ c).
Proof.
  induction a as [|x a IH]; [rewrite !append_nil; reflexivity|].
  rewrite !append_cons, IH. reflexivity.
Qed.

Lemma rev_app_append (s acc : string) :
  String.rev_app s acc = String.rev s +:+ acc.
Proof.
  unfold String.rev. revert acc.
  induction s as [|c s IH]; intros acc; cbn [String.rev_app].
  - rewrite append_nil. reflexivity.
  - rewrite (IH (String c acc)), (IH (String c "")), append_assoc, append_cons, append_nil.
    reflexivity.
Qed.

Lemma rev_cons c (s : string) : String.rev (String c s) = String.rev s +:+ String c "".
Proof. unfold String.rev at 1. cbn [String.rev_app]. apply rev_app_append. Qed.

Lemma split_go_cur sep s cur :
  Js.split_go sep s cur =
  match Js.split_go sep s "" with
  | h :: t => (String.rev cur +:+ h) :: t
  | [] => []
  end.
Proof.
  revert cur. induction s as [|c r IH]; intros cur; cbn [Js.split_go].
  - change (String.rev "") with "". rewrite append_nil_r. reflexivity.
  - destruct (Ascii.eqb c sep).
    + change (String.rev "") with "". rewrite append_nil_r. reflexivity.
    + rewrite (IH (String c cur)), (IH (String c "")).
      destruct (Js.split_go sep r "") as [|h t]; [reflexivity|].
      rewrite rev_cons, append_assoc. reflexivity.
Qed.

Lemma split_nil sep : Js.split sep "" = [""].
Proof. reflexivity. Qed.

Lemma split_cons sep c r :
  Js.split sep (String c r) =
  if Ascii.eqb c sep then "" :: Js.split sep r
  else match Js.split sep r with
       | h :: t => String c h :: t
       | [] => []
       end.
Proof.
  unfold Js.split. cbn [Js.split_go].
  destruct (Ascii.eqb c sep); [reflexivity|].
  rewrite split_go_cur. destruct (Js.split_go sep r "") as [|h t]; reflexivity.
Qed.

Lemma split_not_nil sep s : Js.split sep s <> [].
Proof.
  induction s as [|c r IH]; [discriminate|].
  rewrite split_cons. destruct (Ascii.eqb c sep); [discriminate|].
  destruct (Js.split sep r); [contradiction|discriminate].
Qed.

Lemma includes_char_cons sep c r :
  includes_char sep (String c r) = Ascii.eqb c sep || includes_char sep r.
Proof. unfold includes_char. cbn. rewrite (Ascii.eqb_sym sep c). reflexivity. Qed.

Lemma includes_char_app sep a b :
  includes_char sep (a +:+ b) = includes_char sep a || includes_char sep b.
Proof.
  induction a as [|c a IH]; [rewrite append_nil; reflexivity|].
  rewrite append_cons, !includes_char_cons, IH, orb_assoc. reflexivity.
Qed.

(** A string without the separator is one piece. *)
Lemma split_without sep s : includes_char sep s = false -> Js.split sep s = [s].
Proof.
  induction s as [|c r IH]; [reflexivity|].
  rewrite includes_char_cons, split_cons. intros [Hc Hr]%orb_false_iff.
  rewrite Hc, (IH Hr). reflexivity.
Qed.

(** The first piece ends at the first separator. *)
Lemma split_app sep a b :
  includes_char sep a = false ->
  Js.split sep (a +:+ String sep b) = a :: Js.split sep b.
Proof.
  induction a as [|c a IH].
  - intros _. rewrite append_nil, split_cons, Ascii.eqb_refl. reflexivity.
  - rewrite includes_char_cons, append_cons, split_cons.
    intros [Hc Ha]%orb_false_iff. rewrite Hc, (IH Ha). reflexivity.
Qed.

(** Cutting a string at the first occurrence of a character. *)
Lemma string_cut sep s :
  includes_char sep s = false
  \/ exists a b, s = a +:+ String sep b /\ includes_char sep a = false.
Proof.
  induction s as [|c r IH]; [left; reflexivity|].
  rewrite includes_char_cons.
  destruct (Ascii.eqb_spec c sep) as [->|Hne].
  - right. exists "", r. split; reflexivity.
  - destruct IH as [Hr|(a & b & -> & Ha)]; [left; exact Hr|].
    right. exists (String c a), b. rewrite includes_char_cons, Ha.
    split; [reflexivity|]. apply orb_false_iff. split; [|reflexivity].
    apply Ascii.eqb_neq. exact Hne.
Qed.

Lemma join_cons sep p q rest :
  Js.join sep (p :: q :: rest) = p +:+ sep +:+ Js.join sep (q :: rest).
Proof. reflexivity. Qed.

(** Joining the pieces gives the string back. *)
Lemma join_split sep s : Js.join (String sep "") (Js.split sep s) = s.
Proof.
  induction s as [|c r IH]; [reflexivity|].
  rewrite split_cons. destruct (Ascii.eqb_spec c sep) as [->|Hne].
  - pose proof (split_not_nil sep r) as Hn.
    destruct (Js.split sep r) as [|h t]; [contradiction|].
    rewrite join_cons, IH. reflexivity.
  - pose proof (split_not_nil sep r) as Hn.
    destruct (Js.split sep r) as [|h t]; [contradiction|].
    destruct t as [|h' t].
    + cbn [Js.join] in *. rewrite IH. reflexivity.
    + rewrite join_cons in *. rewrite append_cons, IH. reflexivity.
Qed.

(** No piece holds the separator. *)
Lemma split_pieces sep s :
  Forall (fun p => includes_char sep p = false) (Js.split sep s).
Proof.
  induction s as [|c r IH]; [repeat constructor|].
  rewrite split_cons. destruct (Ascii.eqb c sep) eqn:Hc.
  - constructor; [reflexivity|exact IH].
  - destruct (Js.split sep r) as [|h t]; [constructor|].
    inversion IH as [|? ? Hh Ht]; subst. constructor; [|exact Ht].
    rewrite includes_char_cons, Hc, Hh. reflexivity.
Qed.

(** Pieces without the separator, joined and split, come back. *)
Lemma split_join sep parts :
  parts <> [] ->
  Forall (fun p => includes_char sep p = false) parts ->
  Js.split sep (Js.join (String sep "") parts) = parts.
Proof.
  induction parts as [|p rest IH]; [contradiction|].
  intros _ Hall. inversion Hall as [|? ? Hp Hrest]; subst.
  destruct rest as [|q rest].
  - cbn [Js.join]. apply split_without, Hp.
  - rewrite join_cons.
    change (String sep "" +:+ Js.join (String sep "") (q :: rest))
      with (String sep (Js.join (String sep "") (q :: rest))).
    rewrite (split_app _ _ _ Hp), IH; [reflexivity|discriminate|exact Hrest].
Qed.

Lemma lower_ascii_idem c : Js.lower_ascii (Js.lower_ascii c) = Js.lower_ascii c.
Proof. destruct c as [[] [] [] [] [] [] [] []]; reflexivity. Qed.

Lemma lower_ascii_colon c : Ascii.eqb (Js.lower_ascii c) ":" = Ascii.eqb c ":".
Proof. destruct c as [[] [] [] [] [] [] [] []]; reflexivity. Qed.

Lemma lower_ascii_slash c : Ascii.eqb (Js.lower_ascii c) "/" = Ascii.eqb c "/".
Proof. destruct c as [[] [] [] [] [] [] [] []]; reflexivity. Qed.

Lemma toLowerCase_idem s : Js.toLowerCase (Js.toLowerCase s) = Js.toLowerCase s.
Proof.
  induction s as [|c r IH]; [reflexivity|].
  cbn [Js.toLowerCase]. rewrite lower_ascii_idem, IH. reflexivity.
Qed.

Lemma toLowerCase_app a b :
  Js.toLowerCase (a +:+ b) = Js.toLowerCase a +:+ Js.toLowerCase b.
Proof.
  induction a as [|c a IH]; [rewrite !append_nil; reflexivity|].
  rewrite append_cons. cbn [Js.toLowerCase]. rewrite append_cons, IH. reflexivity.
Qed.

Lemma toLowerCase_length s : String.length (Js.toLowerCase s) = String.length s.
Proof. induction s as [|c r IH]; [reflexivity|]. cbn. rewrite IH. reflexivity. Qed.

(** Lowering neither makes nor removes a separator that lowering leaves
    alone. *)
Lemma includes_char_toLowerCase sep s :
  (forall c, Ascii.eqb (Js.lower_ascii c) sep = Ascii.eqb c sep) ->
  includes_char sep (Js.toLowerCase s) = includes_char sep s.
Proof.
  intros Hsep. induction s as [|c r IH]; [reflexivity|].
  cbn [Js.toLowerCase]. rewrite !includes_char_cons, Hsep, IH. reflexivity.
Qed.

Lemma split_toLowerCase sep s :
  (forall c, Ascii.eqb (Js.lower_ascii c) sep = Ascii.eqb c sep) ->
  Js.split sep (Js.toLowerCase s) = map Js.toLowerCase (Js.split sep s).
Proof.
  intros Hsep. induction s as [|c r IH]; [reflexivity|].
  cbn [Js.toLowerCase]. rewrite !split_cons, Hsep, IH.
  destruct (Ascii.eqb c sep); [reflexivity|].
  destruct (Js.split sep r); reflexivity.
Qed.

End Strings.

(* ===================================================================== *)
(** * DID canonical forms                                                 *)
(* ===================================================================== *)

Section DidCanonicalForms.

Lemma Ok_inj {A} (a b : A) : Ok a = Ok b -> a = b.
Proof. intros H. injection H as H. exact H. Qed.

Lemma split_did_method (method rest : string) :
  includes_char ":" method = false ->
  Js.split ":" ("did:" +:+ method +:+ ":" +:+ rest)
  = "did" :: method :: Js.split ":" rest.
Proof.
  intros Hm.
  change ("did:" +:+ method +:+ ":" +:+ rest)
    with ("did" +:+ String ":" (method +:+ String ":" rest)).
  rewrite (split_app ":" "did" _ eq_refl), (split_app ":" method _ Hm).
  reflexivity.
Qed.

Lemma length_split_pos sep s : (0 < List.length (Js.split sep s))%nat.
Proof.
  pose proof (split_not_nil sep s). destruct (Js.split sep s); [contradiction|].
  cbn. lia.
Qed.

(** What the [web] branch makes of the text after [did:web:]. *)
Lemma canonicalizeDID_web_rest rest :
  canonicalizeDID ("did:web:" +:+ rest) =
  match Js.split "/" rest with
  | [] => Ok "did:web:"
  | host :: pathParts =>
      Ok ("did:web:" +:+ Js.toLowerCase host +:+
          (if (0 <? List.length pathParts)%nat
           then "/" +:+ Js.join "/" pathParts else ""))
  end.
Proof.
  unfold canonicalizeDID.
  change (Js.startsWith "did:" ("did:web:" +:+ rest)) with true.
  cbv beta iota zeta. cbn [negb].
  change ("did:web:" +:+ rest) with ("did:" +:+ "web" +:+ ":" +:+ rest).
  rewrite (split_did_method "web" rest eq_refl).
  pose proof (length_split_pos ":" rest) as Hlen.
  cbn [List.length nth skipn].
  destruct (Nat.ltb_spec (S (S (List.length (Js.split ":" rest)))) 3) as [Hlt|_];
    [lia|].
  change (String.eqb "web" "web") with true. cbv beta iota.
  rewrite skipn_O, join_split. reflexivity.
Qed.


(** What the [pkh] branch makes of the text after [did:pkh:]. *)
Lemma canonicalizeDID_pkh_rest rest :
  canonicalizeDID ("did:pkh:" +:+ rest) =
  match Js.split ":" rest with
  | [namespace; chainId; address] =>
      Ok ("did:pkh:" +:+ namespace +:+ ":" +:+ chainId +:+ ":"
          +:+ Js.toLowerCase address)
  | _ => Throw PkhNeedsFiveParts
  end.
Proof.
  unfold canonicalizeDID.
  change (Js.startsWith "did:" ("did:pkh:" +:+ rest)) with true.
  cbv beta iota zeta. cbn [negb].
  change ("did:pkh:" +:+ rest) with ("did:" +:+ "pkh" +:+ ":" +:+ rest).
  rewrite (split_did_method "pkh" rest eq_refl).
  pose proof (length_split_pos ":" rest) as Hlen.
  cbn [List.length nth].
  destruct (Nat.ltb_spec (S (S (List.length (Js.split ":" rest)))) 3) as [Hlt|_];
    [lia|].
  change (String.eqb "pkh" "web") with false.
  change (String.eqb "pkh" "pkh") with true. cbv beta iota.
  destruct (Js.split ":" rest) as [|a [|b [|c [|d l]]]]; reflexivity.
Qed.

(** Every other method: the whole DID in lower case. *)
Lemma canonicalizeDID_other method rest :
  includes_char ":" method = false ->
  String.eqb method "web" = false -> String.eqb method "pkh" = false ->
  canonicalizeDID ("did:" +:+ method +:+ ":" +:+ rest)
  = Ok (Js.toLowerCase ("did:" +:+ method +:+ ":" +:+ rest)).
Proof.
  intros Hm Hweb Hpkh. unfold canonicalizeDID.
  change (Js.startsWith "did:" ("did:" +:+ method +:+ ":" +:+ rest)) with true.
  cbv beta iota zeta. cbn [negb].
  rewrite (split_did_method method rest Hm).
  pose proof (length_split_pos ":" rest) as Hlen.
  cbn [List.length nth].
  destruct (Nat.ltb_spec (S (S (List.length (Js.split ":" rest)))) 3) as [Hlt|_];
    [lia|].
  rewrite Hweb, Hpkh. reflexivity.
Qed.

Lemma startsWith_app p s :
  Js.startsWith p s = true -> exists t, s = p +:+ t.
Proof.
  revert s. induction p as [|a p IH]; intros s H.
  - exists s. reflexivity.
  - destruct s as [|b s]; [discriminate|]. cbn [Js.startsWith] in H.
    apply andb_true_iff in H as [Hab Hp].
    apply Ascii.eqb_eq in Hab as ->.
    destruct (IH _ Hp) as [t ->]. exists t. reflexivity.
Qed.

(** A DID that [canonicalizeDID] accepts is [did:], a method without a
    colon, a colon, and the rest. *)
Lemma canonicalizeDID_accepts did c :
  canonicalizeDID did = Ok c ->
  exists method rest,
    did = "did:" +:+ method +:+ ":" +:+ rest /\ includes_char ":" method = false.
Proof.
  unfold canonicalizeDID.
  destruct (Js.startsWith "did:" did) eqn:Hs; [|discriminate].
  destruct (startsWith_app _ _ Hs) as [tail ->]. cbn [negb].
  destruct (string_cut ":" tail) as [Hno|(method & rest & -> & Hm)].
  - change ("did:" +:+ tail) with ("did" +:+ String ":" tail).
    rewrite (split_app ":" "did" _ eq_refl), (split_without _ _ Hno).
    cbn. discriminate.
  - intros _. exists method, rest. split; [reflexivity|exact Hm].
Qed.

End DidCanonicalForms.

(** The [web] branch on a host and on a host with a path. *)
Lemma canonicalizeDID_web_form (host path : string) :
  includes_char "/" host = false ->
  canonicalizeDID ("did:web:" +:+ host) = Ok ("did:web:" +:+ Js.toLowerCase host)
  /\ canonicalizeDID ("did:web:" +:+ host +:+ "/" +:+ path)
     = Ok ("did:web:" +:+ Js.toLowerCase host +:+ "/" +:+ path).
Proof.
  intros Hhost. split.
  - rewrite canonicalizeDID_web_rest, (split_without _ _ Hhost).
    cbn [List.length Nat.ltb Nat.leb]. rewrite append_nil_r. reflexivity.
  - rewrite canonicalizeDID_web_rest.
    change ("/" +:+ path) with (String "/" path).
    rewrite (split_app _ _ _ Hhost).
    pose proof (length_split_pos "/" path) as Hlen.
    destruct (Nat.ltb_spec 0 (List.length (Js.split "/" path))) as [_|Hle]; [|lia].
    rewrite join_split. reflexivity.
Qed.

(** X1. did:web with an ASCII host: the host, that is the text up to the
    first slash, is put in lower case; the path after it is kept byte for
    byte, colons and upper case included. *)
Theorem canonicalizeDID_web (host path : string) :
  is_ascii host = true ->
  includes_char "/" host = false ->
  canonicalizeDID ("did:web:" +:+ host) = Ok ("did:web:" +:+ Js.toLowerCase host)
  /\ canonicalizeDID ("did:web:" +:+ host +:+ "/" +:+ path)
     = Ok ("did:web:" +:+ Js.toLowerCase host +:+ "/" +:+ path).
Proof.
  intros _ Hhost. split.
  - rewrite canonicalizeDID_web_rest, (split_without _ _ Hhost).
    cbn [List.length Nat.ltb Nat.leb]. apply f_equal, f_equal, append_nil_r.
  - rewrite canonicalizeDID_web_rest.
    change ("/" +:+ path) with (String "/" path).
    rewrite (split_app _ _ _ Hhost), join_split.
    destruct (Js.split "/" path) as [|piece pieces] eqn:Hsplit; [|reflexivity].
    contradiction (split_not_nil "/" path).
Qed.

Lemma canonicalizeDID_web_witness :
  is_ascii "Example.COM" = true
  /\ includes_char "/" "Example.COM" = false
  /\ canonicalizeDID "did:web:Example.COM/User/Alice:1"
     = Ok "did:web:example.com/User/Alice:1".
Proof.
  split; [reflexivity|]. split; [reflexivity|].
  exact (proj2 (canonicalizeDID_web "Example.COM" "User/Alice:1" eq_refl eq_refl)).
Defined.

(** The [pkh] branch on three parts, and on another number of parts. *)
Lemma canonicalizeDID_pkh_form (namespace chainId address rest : string) :
  includes_char ":" namespace = false ->
  includes_char ":" chainId = false ->
  includes_char ":" address = false ->
  canonicalizeDID ("did:pkh:" +:+ namespace +:+ ":" +:+ chainId +:+ ":" +:+ address)
  = Ok ("did:pkh:" +:+ namespace +:+ ":" +:+ chainId +:+ ":"
        +:+ Js.toLowerCase address)
  /\ (List.length (Js.split ":" rest) <> 3%nat ->
      canonicalizeDID ("did:pkh:" +:+ rest) = Throw PkhNeedsFiveParts).
Proof.
  intros Hn Hc Ha. split.
  - rewrite canonicalizeDID_pkh_rest.
    change (namespace +:+ ":" +:+ chainId +:+ ":" +:+ address)
      with (namespace +:+ String ":" (chainId +:+ String ":" address)).
    rewrite (split_app _ _ _ Hn), (split_app _ _ _ Hc), (split_without _ _ Ha).
    reflexivity.
  - intros Hlen. rewrite canonicalizeDID_pkh_rest.
    destruct (Js.split ":" rest) as [|a [|b [|c [|d l]]]]; try reflexivity.
    contradiction Hlen. reflexivity.
Qed.

(** The host is all of the text when there is no slash: the colons that
    did:web uses for a path are part of it, and what follows them is
    lowered with it. *)
Example canonicalizeDID_web_colon_path :
  canonicalizeDID "did:web:Example.COM:User:Alice"
  = Ok "did:web:example.com:user:alice".
Proof. reflexivity. Qed.

(** X2. did:pkh with an ASCII address: with exactly three
    colon-separated parts after the method, the namespace and the chain
    id are kept as they are and the address is put in lower case; with
    any other number of parts the call throws. *)
Theorem canonicalizeDID_pkh (namespace chainId address rest : string) :
  is_ascii address = true ->
  includes_char ":" namespace = false ->
  includes_char ":" chainId = false ->
  includes_char ":" address = false ->
  canonicalizeDID ("did:pkh:" +:+ namespace +:+ ":" +:+ chainId +:+ ":" +:+ address)
  = Ok ("did:pkh:" +:+ namespace +:+ ":" +:+ chainId +:+ ":"
        +:+ Js.toLowerCase address)
  /\ (List.length (Js.split ":" rest) <> 3%nat ->
      canonicalizeDID ("did:pkh:" +:+ rest) = Throw PkhNeedsFiveParts).
Proof.
  intros _ Hn Hc Ha. split.
  - rewrite canonicalizeDID_pkh_rest.
    change (namespace +:+ ":" +:+ chainId +:+ ":" +:+ address)
      with (namespace +:+ String ":" (chainId +:+ String ":" address)).
    by rewrite (split_app _ _ _ Hn), (split_app _ _ _ Hc), (split_without _ _ Ha).
  - intros Hlen. rewrite canonicalizeDID_pkh_rest.
    destruct (Js.split ":" rest) as [|a [|b [|c [|d l]]]]; try reflexivity.
    by contradiction Hlen.
Qed.

Lemma canonicalizeDID_pkh_witness :
  is_ascii "0xAbCdEf" = true
  /\ canonicalizeDID "did:pkh:eip155:1:0xAbCdEf" = Ok "did:pkh:eip155:1:0xabcdef"
  /\ canonicalizeDID "did:pkh:eip155:1" = Throw PkhNeedsFiveParts.
Proof.
  destruct (canonicalizeDID_pkh "eip155" "1" "0xAbCdEf" "eip155:1"
              eq_refl eq_refl eq_refl eq_refl) as [H1 H2].
  split; [reflexivity|]. split; [exact H1|]. apply H2. vm_compute. discriminate.
Defined.

(** X3. Canonicalising a canonical DID changes nothing, with one
    exception: a DID whose method is pkh in another letter case is
    lowered as a whole, and what comes out is a did:pkh string that
    [canonicalizeDID] rejects when it has not five parts. *)
Theorem canonicalizeDID_idempotent (did c : string) :
  canonicalizeDID did = Ok c ->
  canonicalizeDID c = Ok c
  \/ (canonicalizeDID c = Throw PkhNeedsFiveParts
      /\ Js.startsWith "did:pkh:" did = false
      /\ Js.startsWith "did:pkh:" c = true).
Proof.
  intros Hc.
  destruct (canonicalizeDID_accepts _ _ Hc) as (method & rest & -> & Hm).
  destruct (String.eqb_spec method "web") as [->|Hweb].
  { left.
    destruct (string_cut "/" rest) as [Hno|(host & path & -> & Hhost)].
    - destruct (canonicalizeDID_web_form rest "" Hno) as [E _].
      change ("did:" +:+ "web" +:+ ":" +:+ rest) with ("did:web:" +:+ rest) in Hc.
      rewrite E in Hc. apply Ok_inj in Hc as <-.
      assert (includes_char "/" (Js.toLowerCase rest) = false) as Hno'.
      { rewrite (includes_char_toLowerCase _ _ lower_ascii_slash). exact Hno. }
      destruct (canonicalizeDID_web_form _ "" Hno') as [E' _].
      rewrite E', toLowerCase_idem. reflexivity.
    - destruct (canonicalizeDID_web_form host path Hhost) as [_ E].
      change ("did:" +:+ "web" +:+ ":" +:+ host +:+ String "/" path)
        with ("did:web:" +:+ host +:+ "/" +:+ path) in Hc.
      rewrite E in Hc. apply Ok_inj in Hc as <-.
      assert (includes_char "/" (Js.toLowerCase host) = false) as Hhost'.
      { rewrite (includes_char_toLowerCase _ _ lower_ascii_slash). exact Hhost. }
      destruct (canonicalizeDID_web_form _ path Hhost') as [_ E'].
      rewrite E', toLowerCase_idem. reflexivity. }
  destruct (String.eqb_spec method "pkh") as [->|Hpkh].
  { left.
    change ("did:" +:+ "pkh" +:+ ":" +:+ rest) with ("did:pkh:" +:+ rest) in Hc.
    rewrite canonicalizeDID_pkh_rest in Hc.
    pose proof (split_pieces ":" rest) as Hp.
    destruct (Js.split ":" rest) as [|ns [|chain [|addr [|d l]]]];
      try discriminate Hc.
    apply Ok_inj in Hc as <-.
    inversion Hp as [|? ? Hns Hp1]; subst.
    inversion Hp1 as [|? ? Hchain Hp2]; subst.
    inversion Hp2 as [|? ? Haddr _]; subst.
    assert (includes_char ":" (Js.toLowerCase addr) = false) as Haddr'.
    { rewrite (includes_char_toLowerCase _ _ lower_ascii_colon). exact Haddr. }
    destruct (canonicalizeDID_pkh_form ns chain (Js.toLowerCase addr) "" Hns Hchain Haddr')
      as [E _].
    rewrite E, toLowerCase_idem. reflexivity. }
  apply String.eqb_neq in Hweb, Hpkh.
  rewrite (canonicalizeDID_other _ _ Hm Hweb Hpkh) in Hc. apply Ok_inj in Hc as <-.
  change ("did:" +:+ method +:+ ":" +:+ rest)
    with ("did:" +:+ (method +:+ ":" +:+ rest)).
  rewrite (toLowerCase_app "did:"), (toLowerCase_app method), (toLowerCase_app ":").
  change (Js.toLowerCase "did:") with "did:".
  change (Js.toLowerCase ":") with ":".
  assert (includes_char ":" (Js.toLowerCase method) = false) as Hm'.
  { rewrite (includes_char_toLowerCase _ _ lower_ascii_colon). exact Hm. }
  destruct (String.eqb_spec (Js.toLowerCase method) "web") as [Ew|Hweb'].
  { left. rewrite Ew.
    change ("did:" +:+ "web" +:+ ":" +:+ Js.toLowerCase rest)
      with ("did:web:" +:+ Js.toLowerCase rest).
    destruct (string_cut "/" rest) as [Hno|(host & path & -> & Hhost)].
    - assert (includes_char "/" (Js.toLowerCase rest) = false) as Hno'.
      { rewrite (includes_char_toLowerCase _ _ lower_ascii_slash). exact Hno. }
      destruct (canonicalizeDID_web_form _ "" Hno') as [E' _].
      rewrite E', toLowerCase_idem. reflexivity.
    - assert (includes_char "/" (Js.toLowerCase host) = false) as Hhost'.
      { rewrite (includes_char_toLowerCase _ _ lower_ascii_slash). exact Hhost. }
      rewrite (toLowerCase_app host).
      change (Js.toLowerCase (String "/" path)) with ("/" +:+ Js.toLowerCase path).
      destruct (canonicalizeDID_web_form _ (Js.toLowerCase path) Hhost') as [_ E'].
      rewrite E', toLowerCase_idem. reflexivity. }
  destruct (String.eqb_spec (Js.toLowerCase method) "pkh") as [Ep|Hpkh'].
  { rewrite Ep.
    change ("did:" +:+ "pkh" +:+ ":" +:+ Js.toLowerCase rest)
      with ("did:pkh:" +:+ Js.toLowerCase rest).
    rewrite canonicalizeDID_pkh_rest, (split_toLowerCase _ _ lower_ascii_colon).
    pose proof (join_split ":" rest) as Hj.
    destruct (Js.split ":" rest) as [|ns [|chain [|addr [|d l]]]];
      cbn [map];
      try (right; split; [reflexivity|]; split; [|reflexivity];
           destruct (Js.startsWith "did:pkh:" ("did:" +:+ method +:+ ":" +:+ rest))
             eqn:Hs; [|reflexivity];
           exfalso; apply startsWith_app in Hs as [t Ht];
           apply (f_equal (Js.split ":")) in Ht;
           change ("did:pkh:" +:+ t) with ("did:" +:+ "pkh" +:+ ":" +:+ t) in Ht;
           rewrite (split_did_method _ _ Hm), (split_did_method "pkh" _ eq_refl) in Ht;
           injection Ht as Ht _; apply String.eqb_neq in Hpkh; congruence).
    left. rewrite toLowerCase_idem, <- Hj.
    change (Js.join ":" [ns; chain; addr])
      with (ns +:+ ":" +:+ chain +:+ ":" +:+ addr).
    rewrite (toLowerCase_app ns), (toLowerCase_app ":"), (toLowerCase_app chain),
      (toLowerCase_app ":").
    reflexivity. }
  left. apply String.eqb_neq in Hweb', Hpkh'.
  rewrite (canonicalizeDID_other _ _ Hm' Hweb' Hpkh').
  rewrite (toLowerCase_app "did:"), (toLowerCase_app (Js.toLowerCase method)),
    (toLowerCase_app ":"), !toLowerCase_idem.
  reflexivity.
Qed.

Lemma canonicalizeDID_idempotent_witness :
  canonicalizeDID "did:web:example.com/Alice" = Ok "did:web:example.com/Alice"
  \/ (canonicalizeDID "did:web:example.com/Alice" = Throw PkhNeedsFiveParts
      /\ Js.startsWith "did:pkh:" "did:web:Example.COM/Alice" = false
      /\ Js.startsWith "did:pkh:" "did:web:example.com/Alice" = true).
Proof.
  apply (canonicalizeDID_idempotent "did:web:Example.COM/Alice"). reflexivity.
Defined.

(** The exception of X3 happens. *)
Example canonicalizeDID_not_idempotent :
  canonicalizeDID "did:PKH:eip155:1" = Ok "did:pkh:eip155:1"
  /\ canonicalizeDID "did:pkh:eip155:1" = Throw PkhNeedsFiveParts.
Proof. split; reflexivity. Qed.

(* ===================================================================== *)
(** * The shape of digests and index addresses                            *)
(* ===================================================================== *)

Section DigestShape.

Lemma build_length f : List.length (Keccak.build f) = 25%nat.
Proof. unfold Keccak.build. rewrite length_map. reflexivity. Qed.

Lemma round_length A rc : List.length (Keccak.round A rc) = 25%nat.
Proof.
  unfold Keccak.round, Keccak.iota.
  pose proof (build_length (fun x y =>
    Z.lxor (Keccak.lane (Keccak.rho_pi (Keccak.theta A)) x y)
      (Z.land (Keccak.not64 (Keccak.lane (Keccak.rho_pi (Keccak.theta A)) (x + 1) y))
         (Keccak.lane (Keccak.rho_pi (Keccak.theta A)) (x + 2) y)))) as H.
  fold (Keccak.chi (Keccak.rho_pi (Keccak.theta A))) in H.
  destruct (Keccak.chi (Keccak.rho_pi (Keccak.theta A))); [discriminate|exact H].
Qed.

Lemma rounds_length rcs A :
  List.length A = 25%nat -> List.length (fold_left Keccak.round rcs A) = 25%nat.
Proof.
  revert A. induction rcs as [|rc rcs IH]; intros A HA; [exact HA|].
  cbn [fold_left]. apply IH, round_length.
Qed.

Lemma xor_lanes_length A B :
  List.length (Keccak.xor_lanes A B) = List.length A.
Proof.
  revert B. induction A as [|a A IH]; intros [|b B]; cbn; try reflexivity.
  rewrite IH. reflexivity.
Qed.

Lemma absorb_length A block :
  List.length A = 25%nat -> List.length (Keccak.absorb A block) = 25%nat.
Proof.
  intros HA. unfold Keccak.absorb, Keccak.keccak_f.
  apply rounds_length. rewrite xor_lanes_length. exact HA.
Qed.

Lemma absorbs_length blocks A :
  List.length A = 25%nat -> List.length (fold_left Keccak.absorb blocks A) = 25%nat.
Proof.
  revert A. induction blocks as [|b blocks IH]; intros A HA; [exact HA|].
  cbn [fold_left]. apply IH, absorb_length, HA.
Qed.

Lemma le_split_length n w : List.length (Keccak.le_split n w) = n.
Proof. revert w. induction n as [|n IH]; intros w; cbn; [|rewrite IH]; reflexivity. Qed.

Lemma le_split_range n w : Forall (fun b => 0 <= b < 256) (Keccak.le_split n w).
Proof.
  revert w. induction n as [|n IH]; intros w; cbn [Keccak.le_split]; constructor.
  - change 255 with (Z.ones 8). rewrite Z.land_ones by lia.
    apply Z.mod_pos_bound. reflexivity.
  - apply IH.
Qed.

(** A digest is 32 bytes. *)
Lemma keccak256_bytes msg :
  List.length (Keccak.keccak256 msg) = 32%nat
  /\ Forall (fun b => 0 <= b < 256) (Keccak.keccak256 msg).
Proof.
  unfold Keccak.keccak256. cbv zeta.
  set (final := fold_left Keccak.absorb _ _).
  assert (List.length final = 25%nat) as Hlen
    by (apply absorbs_length; reflexivity).
  destruct final as [|a [|b [|c [|d rest]]]]; try discriminate Hlen.
  cbn [firstn flat_map]. split.
  - rewrite !length_app, !le_split_length. reflexivity.
  - rewrite !Forall_app. repeat split; try apply le_split_range. constructor.
Qed.

Lemma hex_digit_lower n :
  0 <= n < 16 ->
  Ethers.is_hex (Ethers.hex_digit n) && negb (Ethers.is_upper_hex (Ethers.hex_digit n))
  = true.
Proof.
  intros H. rewrite <- (Z2Nat.id n) by lia.
  assert (Z.to_nat n < 16)%nat as Hm by lia.
  revert Hm. generalize (Z.to_nat n). intros m Hm.
  do 16 (destruct m as [|m]; [reflexivity|]). lia.
Qed.

Lemma hex_of_bytes_length bs :
  String.length (Ethers.hex_of_bytes bs) = (2 * List.length bs)%nat.
Proof. induction bs as [|b bs IH]; cbn [Ethers.hex_of_bytes String.length List.length]; lia. Qed.

Lemma hex_of_bytes_lower bs :
  Forall (fun b => 0 <= b < 256) bs -> lower_hex (Ethers.hex_of_bytes bs) = true.
Proof.
  induction 1 as [|b bs Hb _ IH]; [reflexivity|].
  unfold lower_hex, Ethers.string_forall in *.
  cbn [Ethers.hex_of_bytes list_ascii_of_string forallb].
  rewrite IH, !hex_digit_lower; [reflexivity| |].
  - change 15 with (Z.ones 4). rewrite Z.land_ones by lia.
    apply Z.mod_pos_bound. reflexivity.
  - rewrite Z.shiftr_div_pow2 by lia. change (2 ^ 4) with 16.
    split; [apply Z.div_pos; lia|apply Z.div_lt_upper_bound; lia].
Qed.

(** [ethers.keccak256] answers 0x and 64 lowercase hexadecimal digits. *)
Lemma keccak256_hex bs :
  exists digits,
    Ethers.keccak256 bs = "0x" +:+ digits
    /\ String.length digits = 64%nat /\ lower_hex digits = true.
Proof.
  destruct (keccak256_bytes bs) as [Hlen Hrange].
  exists (Ethers.hex_of_bytes (Keccak.keccak256 bs)).
  split; [reflexivity|]. split.
  - rewrite hex_of_bytes_length, Hlen. reflexivity.
  - apply hex_of_bytes_lower, Hrange.
Qed.

Lemma lower_hex_cons c s :
  lower_hex (String c s)
  = Ethers.is_hex c && negb (Ethers.is_upper_hex c) && lower_hex s.
Proof. reflexivity. Qed.

Lemma lower_ascii_lower_hex c :
  Ethers.is_hex c && negb (Ethers.is_upper_hex c) = true -> Js.lower_ascii c = c.
Proof. destruct c as [[] [] [] [] [] [] [] []]; (reflexivity || discriminate). Qed.

Lemma lower_hex_toLowerCase s : lower_hex s = true -> Js.toLowerCase s = s.
Proof.
  induction s as [|c s IH]; [reflexivity|].
  rewrite lower_hex_cons. intros [Hc Hs]%andb_true_iff.
  cbn [Js.toLowerCase]. rewrite (lower_ascii_lower_hex _ Hc), (IH Hs). reflexivity.
Qed.

Lemma lower_hex_drop n s : lower_hex s = true -> lower_hex (Js.drop n s) = true.
Proof.
  revert s. induction n as [|n IH]; intros s Hs; [exact Hs|].
  destruct s as [|c s]; [reflexivity|]. cbn [Js.drop].
  rewrite lower_hex_cons in Hs. apply andb_true_iff in Hs as [_ Hs].
  apply IH, Hs.
Qed.

Lemma drop_length n s : String.length (Js.drop n s) = (String.length s - n)%nat.
Proof.
  revert s. induction n as [|n IH]; intros s; [cbn; lia|].
  destruct s as [|c s]; [reflexivity|]. cbn [Js.drop String.length].
  rewrite IH. lia.
Qed.

Lemma lower_hex_is_hex s :
  lower_hex s = true -> Ethers.string_forall Ethers.is_hex s = true.
Proof.
  induction s as [|c s IH]; [reflexivity|].
  rewrite lower_hex_cons. intros [[Hc _]%andb_true_iff Hs]%andb_true_iff.
  unfold Ethers.string_forall in *. cbn [list_ascii_of_string forallb].
  rewrite Hc, (IH Hs). reflexivity.
Qed.

Lemma lower_hex_no_upper s :
  lower_hex s = true -> Ethers.string_exists Ethers.is_upper_hex s = false.
Proof.
  induction s as [|c s IH]; [reflexivity|].
  rewrite lower_hex_cons. intros [[_ Hc]%andb_true_iff Hs]%andb_true_iff.
  unfold Ethers.string_exists in *. cbn [list_ascii_of_string existsb].
  rewrite (IH Hs). apply negb_true_iff in Hc. rewrite Hc. reflexivity.
Qed.

End DigestShape.

(** The digits of an index address: the last 40 of the 64 digits of a
    digest. *)
Lemma computeDidIndex_digits (didHash : string) :
  exists hex,
    String.length hex = 64%nat /\ lower_hex hex = true
    /\ computeDidIndex didHash = "0x" +:+ Js.drop 24 hex.
Proof.
  unfold computeDidIndex. cbv zeta.
  destruct (keccak256_hex
    (Ethers.toUtf8Bytes ("DID:Solidity:Address:v1:" +:+ Js.drop 2 didHash)))
    as (hex & -> & Hlen & Hhex).
  exists hex. split; [exact Hlen|]. split; [exact Hhex|].
  unfold Js.takeLast.
  change (String.length ("0x" +:+ hex)) with (S (S (String.length hex))).
  rewrite Hlen. reflexivity.
Qed.

Lemma toLowerCase_0x digits :
  lower_hex digits = true -> Js.toLowerCase ("0x" +:+ digits) = "0x" +:+ digits.
Proof.
  intros Hd. change ("0x" +:+ digits) with (String "0" (String "x" digits)).
  cbn [Js.toLowerCase]. rewrite (lower_hex_toLowerCase _ Hd). reflexivity.
Qed.

(** Lowering leaves an index address as it is. *)
Lemma computeDidIndex_lower (didHash : string) :
  Js.toLowerCase (computeDidIndex didHash) = computeDidIndex didHash.
Proof.
  destruct (computeDidIndex_digits didHash) as (hex & _ & Hhex & ->).
  apply toLowerCase_0x, lower_hex_drop, Hhex.
Qed.

(** X4. Whatever it is given, [computeDidIndex] answers 0x and 40
    lowercase hexadecimal digits: an address that [ethers.getAddress]
    accepts, and that lowering leaves as it is. *)
Theorem computeDidIndex_address (didHash : string) :
  exists digits,
    computeDidIndex didHash = "0x" +:+ digits
    /\ String.length digits = 40%nat
    /\ lower_hex digits = true
    /\ Js.toLowerCase (computeDidIndex didHash) = computeDidIndex didHash
    /\ Ethers.getAddress (computeDidIndex didHash)
       = Some (Ethers.getChecksumAddress digits).
Proof.
  destruct (computeDidIndex_digits didHash) as (hex & Hlen & Hhex & E).
  exists (Js.drop 24 hex).
  assert (String.length (Js.drop 24 hex) = 40%nat) as Hl
    by (rewrite drop_length, Hlen; reflexivity).
  pose proof (lower_hex_drop 24 _ Hhex) as Hd.
  split; [exact E|]. split; [exact Hl|]. split; [exact Hd|].
  split; [apply computeDidIndex_lower|].
  rewrite E. unfold Ethers.getAddress.
  change (Js.startsWith "0x" ("0x" +:+ Js.drop 24 hex)) with true.
  cbv iota.
  change (Js.drop 2 ("0x" +:+ Js.drop 24 hex)) with (Js.drop 24 hex).
  rewrite Hl, (lower_hex_is_hex _ Hd), (lower_hex_no_upper _ Hd). reflexivity.
Qed.

(* ===================================================================== *)
(** * Index addresses and schema UIDs                                     *)
(* ===================================================================== *)

(** X5. [validateDidIndex] answers true exactly when the DID has an index
    address and the given address is a spelling of it, in lower or upper
    case; for a DID that [canonicalizeDID] rejects it answers false and
    throws nothing. *)
Theorem validateDidIndex_correct (did indexAddress : string) :
  validateDidIndex did indexAddress = true
  <-> exists expected,
        didToIndexAddress did = Ok expected
        /\ Js.toLowerCase indexAddress = expected.
Proof.
  unfold validateDidIndex.
  destruct (didToIndexAddress did) as [expected|e] eqn:Hd.
  - assert (Js.toLowerCase expected = expected) as Hlow.
    { unfold didToIndexAddress, and_then in Hd.
      destruct (computeDidHash did) as [didHash|e]; [|discriminate].
      apply Ok_inj in Hd as <-.
      apply computeDidIndex_lower. }
    rewrite Hlow. split.
    + intros H%String.eqb_eq. exists expected. split; [reflexivity|]. symmetry. exact H.
    + intros (expected' & E & H). apply Ok_inj in E as <-.
      apply String.eqb_eq. symmetry. exact H.
  - split; [discriminate|]. intros (expected & E & _). discriminate.
Qed.

(** X6. The index address does not depend on the letter case of the
    account address of a did:pkh, nor on the letter case of the host of a
    did:web. *)
Theorem didToIndexAddress_case (namespace chainId address host path : string) :
  includes_char ":" namespace = false ->
  includes_char ":" chainId = false ->
  includes_char ":" address = false ->
  includes_char "/" host = false ->
  didToIndexAddress
    ("did:pkh:" +:+ namespace +:+ ":" +:+ chainId +:+ ":" +:+ address)
  = didToIndexAddress
      ("did:pkh:" +:+ namespace +:+ ":" +:+ chainId +:+ ":" +:+ Js.toLowerCase address)
  /\ didToIndexAddress ("did:web:" +:+ host +:+ "/" +:+ path)
     = didToIndexAddress ("did:web:" +:+ Js.toLowerCase host +:+ "/" +:+ path)
  /\ didToIndexAddress ("did:web:" +:+ host)
     = didToIndexAddress ("did:web:" +:+ Js.toLowerCase host).
Proof.
  intros Hn Hc Ha Hh.
  assert (includes_char ":" (Js.toLowerCase address) = false) as Ha'
    by (rewrite (includes_char_toLowerCase _ _ lower_ascii_colon); exact Ha).
  assert (includes_char "/" (Js.toLowerCase host) = false) as Hh'
    by (rewrite (includes_char_toLowerCase _ _ lower_ascii_slash); exact Hh).
  unfold didToIndexAddress, computeDidHash.
  destruct (canonicalizeDID_pkh_form namespace chainId address "" Hn Hc Ha) as [-> _].
  destruct (canonicalizeDID_pkh_form namespace chainId _ "" Hn Hc Ha') as [-> _].
  destruct (canonicalizeDID_web_form host path Hh) as [-> ->].
  destruct (canonicalizeDID_web_form _ path Hh') as [-> ->].
  rewrite !toLowerCase_idem. repeat split.
Qed.

Lemma didToIndexAddress_case_witness :
  didToIndexAddress "did:pkh:eip155:1:0xAbCdEf"
  = didToIndexAddress "did:pkh:eip155:1:0xabcdef"
  /\ didToIndexAddress "did:web:Example.COM/Alice"
     = didToIndexAddress "did:web:example.com/Alice"
  /\ didToIndexAddress "did:web:Example.COM"
     = didToIndexAddress "did:web:example.com".
Proof.
  exact (didToIndexAddress_case "eip155" "1" "0xAbCdEf" "Example.COM" "Alice"
           eq_refl eq_refl eq_refl eq_refl).
Defined.

Section SchemaUidShape.

Lemma formatSchemaUID_0x (digits : string) :
  EasTools.formatSchemaUID ("0x" +:+ digits) = "0x" +:+ digits
  /\ BasTools.formatSchemaUID ("0x" +:+ digits) = "0x" +:+ digits.
Proof. split; reflexivity. Qed.

Lemma uid_shape bs :
  exists digits,
    Ethers.keccak256 bs = "0x" +:+ digits
    /\ String.length digits = 64%nat
    /\ lower_hex digits = true
    /\ Js.toLowerCase (Ethers.keccak256 bs) = Ethers.keccak256 bs.
Proof.
  destruct (keccak256_hex bs) as (digits & E & Hl & Hh).
  exists digits. rewrite E. repeat split; try assumption.
  apply toLowerCase_0x, Hh.
Qed.

End SchemaUidShape.

(** X7. A schema UID computed by either [calculateSchemaUID] is 0x and 64
    lowercase hexadecimal digits; [formatSchemaUID] and lowering, which
    test-schema-uid and the deploy task apply to it, leave it as it
    is. *)
Theorem calculateSchemaUID_shape (schema resolverAddress : string)
    (revocable : bool) (uid : string) :
  EasTools.calculateSchemaUID schema resolverAddress revocable = Some uid
  \/ BasTools.calculateSchemaUID schema resolverAddress revocable = uid ->
  (exists digits,
     uid = "0x" +:+ digits /\ String.length digits = 64%nat
     /\ lower_hex digits = true)
  /\ EasTools.formatSchemaUID uid = uid
  /\ BasTools.formatSchemaUID uid = uid
  /\ Js.toLowerCase uid = uid.
Proof.
  intros H.
  assert (exists bs, uid = Ethers.keccak256 bs) as [bs ->].
  { destruct H as [H|H].
    - unfold EasTools.calculateSchemaUID in H.
      destruct (Ethers.solidityPacked_string_address_bool _ _ _) as [packed|];
        [|discriminate].
      exists packed. congruence.
    - eexists. symmetry. exact H. }
  destruct (uid_shape bs) as (digits & E & Hl & Hh & Hlow).
  split; [exists digits; auto|].
  rewrite Hlow. rewrite E. repeat split.
Qed.

Lemma calculateSchemaUID_shape_witness :
  (exists digits,
     BasTools.calculateSchemaUID "bool ok" "" true = "0x" +:+ digits
     /\ String.length digits = 64%nat /\ lower_hex digits = true)
  /\ EasTools.formatSchemaUID (BasTools.calculateSchemaUID "bool ok" "" true)
     = BasTools.calculateSchemaUID "bool ok" "" true
  /\ BasTools.formatSchemaUID (BasTools.calculateSchemaUID "bool ok" "" true)
     = BasTools.calculateSchemaUID "bool ok" "" true
  /\ Js.toLowerCase (BasTools.calculateSchemaUID "bool ok" "" true)
     = BasTools.calculateSchemaUID "bool ok" "" true.
Proof.
  apply (calculateSchemaUID_shape "bool ok" "" true). right. reflexivity.
Defined.

(* ===================================================================== *)
(** * Resolver addresses and the packing                                  *)
(* ===================================================================== *)

Section Addresses.

Lemma upper_ascii_hex c : Ethers.is_hex (Js.upper_ascii c) = Ethers.is_hex c.
Proof. destruct c as [[] [] [] [] [] [] [] []]; reflexivity. Qed.

Lemma lower_ascii_hex c : Ethers.is_hex (Js.lower_ascii c) = Ethers.is_hex c.
Proof. destruct c as [[] [] [] [] [] [] [] []]; reflexivity. Qed.

Lemma lower_upper_ascii c : Js.lower_ascii (Js.upper_ascii c) = Js.lower_ascii c.
Proof. destruct c as [[] [] [] [] [] [] [] []]; reflexivity. Qed.

Lemma checksum_go_length digits hashed :
  List.length (Ethers.checksum_go digits hashed) = List.length digits.
Proof.
  revert digits. induction hashed as [|b bs IH]; intros digits.
  - destruct digits as [|h [|l rest]]; reflexivity.
  - destruct digits as [|h [|l rest]]; try reflexivity.
    cbn [Ethers.checksum_go List.length]. rewrite IH. reflexivity.
Qed.

Lemma checksum_go_hex digits hashed :
  forallb Ethers.is_hex (Ethers.checksum_go digits hashed)
  = forallb Ethers.is_hex digits.
Proof.
  revert digits. induction hashed as [|b bs IH]; intros digits.
  - destruct digits as [|h [|l rest]]; reflexivity.
  - destruct digits as [|h [|l rest]]; try reflexivity.
    cbn [Ethers.checksum_go forallb]. rewrite IH.
    destruct (8 <=? Z.shiftr b 4), (8 <=? Z.land b 15);
      rewrite ?upper_ascii_hex; reflexivity.
Qed.

Lemma checksum_go_lower digits hashed :
  map Js.lower_ascii (Ethers.checksum_go digits hashed) = map Js.lower_ascii digits.
Proof.
  revert digits. induction hashed as [|b bs IH]; intros digits.
  - destruct digits as [|h [|l rest]]; reflexivity.
  - destruct digits as [|h [|l rest]]; try reflexivity.
    cbn [Ethers.checksum_go map]. rewrite IH.
    destruct (8 <=? Z.shiftr b 4), (8 <=? Z.land b 15);
      rewrite ?lower_upper_ascii; reflexivity.
Qed.

Lemma toLowerCase_of_list l :
  Js.toLowerCase (string_of_list_ascii l) = string_of_list_ascii (map Js.lower_ascii l).
Proof. induction l as [|c l IH]; [reflexivity|]. cbn. rewrite IH. reflexivity. Qed.

Lemma list_of_toLowerCase s :
  list_ascii_of_string (Js.toLowerCase s) = map Js.lower_ascii (list_ascii_of_string s).
Proof. induction s as [|c s IH]; [reflexivity|]. cbn. rewrite IH. reflexivity. Qed.

Lemma length_of_list l : String.length (string_of_list_ascii l) = List.length l.
Proof. induction l as [|c l IH]; [reflexivity|]. cbn. rewrite IH. reflexivity. Qed.

Lemma length_list_of s : List.length (list_ascii_of_string s) = String.length s.
Proof. induction s as [|c s IH]; [reflexivity|]. cbn. rewrite IH. reflexivity. Qed.

(** The digits of a checksum address: as many as were given, the same up
    to letter case, hexadecimal when the given ones are. *)
Lemma getChecksumAddress_digits digits :
  exists cs,
    Ethers.getChecksumAddress digits = "0x" +:+ cs
    /\ String.length cs = String.length digits
    /\ Js.toLowerCase cs = Js.toLowerCase digits
    /\ Ethers.string_forall Ethers.is_hex cs
       = Ethers.string_forall Ethers.is_hex digits.
Proof.
  unfold Ethers.getChecksumAddress. cbv zeta.
  eexists. split; [reflexivity|]. split; [|split].
  - rewrite length_of_list, checksum_go_length, length_list_of, toLowerCase_length.
    reflexivity.
  - rewrite toLowerCase_of_list, checksum_go_lower, <- list_of_toLowerCase,
      string_of_list_ascii_of_string, toLowerCase_idem.
    reflexivity.
  - unfold Ethers.string_forall.
    rewrite list_ascii_of_string_of_list_ascii, checksum_go_hex, list_of_toLowerCase.
    generalize (list_ascii_of_string digits). intros l.
    induction l as [|c l IH]; [reflexivity|].
    cbn [map forallb]. rewrite lower_ascii_hex, IH. reflexivity.
Qed.

Lemma getChecksumAddress_lower a b :
  Js.toLowerCase a = Js.toLowerCase b ->
  Ethers.getChecksumAddress a = Ethers.getChecksumAddress b.
Proof. unfold Ethers.getChecksumAddress. cbv zeta. intros ->. reflexivity. Qed.

(** What [getAddress] answers is 0x and 40 hexadecimal digits, in the
    checksum spelling of these digits. *)
Lemma getAddress_some address c :
  Ethers.getAddress address = Some c ->
  exists cs,
    c = "0x" +:+ cs /\ String.length cs = 40%nat
    /\ Ethers.string_forall Ethers.is_hex cs = true
    /\ Ethers.getChecksumAddress cs = c.
Proof.
  unfold Ethers.getAddress. cbv zeta.
  set (digits := if Js.startsWith "0x" address then Js.drop 2 address else address).
  destruct (Nat.eqb_spec (String.length digits) 40) as [Hlen|]; [|discriminate].
  destruct (Ethers.string_forall Ethers.is_hex digits) eqn:Hhex; [|discriminate].
  cbn [andb].
  destruct (_ && _ && _); [discriminate|]. intros [= <-].
  destruct (getChecksumAddress_digits digits) as (cs & E & Hl & Hlow & Hh).
  exists cs. rewrite E. split; [reflexivity|]. split; [congruence|].
  split; [congruence|].
  rewrite <- E. apply getChecksumAddress_lower, Hlow.
Qed.

Lemma getAddress_checksummed cs :
  String.length cs = 40%nat ->
  Ethers.string_forall Ethers.is_hex cs = true ->
  Ethers.getChecksumAddress cs = "0x" +:+ cs ->
  Ethers.getAddress ("0x" +:+ cs) = Some ("0x" +:+ cs).
Proof.
  intros Hl Hh Hc. unfold Ethers.getAddress. cbv zeta.
  change (Js.startsWith "0x" ("0x" +:+ cs)) with true. cbv iota.
  change (Js.drop 2 ("0x" +:+ cs)) with cs.
  rewrite Hl, Hh, Hc, String.eqb_refl. cbn [Nat.eqb andb negb].
  rewrite andb_false_r. reflexivity.
Qed.

Lemma hex_value_range c v : Ethers.hex_value c = Some v -> 0 <= v < 16.
Proof.
  destruct c as [[] [] [] [] [] [] [] []]; vm_compute; intros [= <-] || discriminate;
    split; discriminate || reflexivity.
Qed.

Lemma hex_value_lower c v :
  Ethers.hex_value c = Some v -> Js.lower_ascii c = Ethers.hex_digit v.
Proof.
  destruct c as [[] [] [] [] [] [] [] []]; vm_compute; intros [= <-] || discriminate;
    reflexivity.
Qed.

Lemma is_hex_value c : Ethers.is_hex c = true -> exists v, Ethers.hex_value c = Some v.
Proof. unfold Ethers.is_hex. destruct (Ethers.hex_value c) as [v|]; [eauto|discriminate]. Qed.

(** An even number of hexadecimal digits is read as half as many
    bytes. *)
Lemma bytes_of_hex_some n s :
  String.length s = (2 * n)%nat ->
  Ethers.string_forall Ethers.is_hex s = true ->
  exists raw, Ethers.bytes_of_hex s = Some raw /\ List.length raw = n.
Proof.
  revert s. induction n as [|n IH]; intros s Hl Hh.
  - destruct s; [|discriminate]. exists []. split; reflexivity.
  - destruct s as [|h [|l s]]; try (cbn in Hl; lia).
    unfold Ethers.string_forall in *. cbn [list_ascii_of_string forallb] in Hh.
    apply andb_true_iff in Hh as [Hh1 Hh]. apply andb_true_iff in Hh as [Hh2 Hh].
    destruct (is_hex_value _ Hh1) as [a Ea], (is_hex_value _ Hh2) as [b Eb].
    destruct (IH s) as (raw & Er & Hr); [cbn in Hl; lia|exact Hh|].
    exists (16 * a + b :: raw). cbn [Ethers.bytes_of_hex].
    rewrite Ea, Eb, Er. split; [reflexivity|]. cbn. rewrite Hr. reflexivity.
Qed.

(** The bytes fix the digits up to letter case. *)
Lemma bytes_of_hex_lower s1 s2 raw :
  Ethers.bytes_of_hex s1 = Some raw -> Ethers.bytes_of_hex s2 = Some raw ->
  Js.toLowerCase s1 = Js.toLowerCase s2.
Proof.
  revert s1 s2. induction raw as [|x raw IH]; intros s1 s2 H1 H2.
  - destruct s1 as [|h1 [|l1 s1]]; try discriminate;
      destruct s2 as [|h2 [|l2 s2]]; try discriminate; try reflexivity;
      cbn [Ethers.bytes_of_hex] in *.
    + destruct (Ethers.hex_value h2), (Ethers.hex_value l2), (Ethers.bytes_of_hex s2);
        discriminate.
    + destruct (Ethers.hex_value h1), (Ethers.hex_value l1), (Ethers.bytes_of_hex s1);
        discriminate.
    + destruct (Ethers.hex_value h1), (Ethers.hex_value l1), (Ethers.bytes_of_hex s1);
        discriminate.
  - destruct s1 as [|h1 [|l1 s1]]; try discriminate;
      destruct s2 as [|h2 [|l2 s2]]; try discriminate.
    cbn [Ethers.bytes_of_hex] in *.
    destruct (Ethers.hex_value h1) as [a1|] eqn:Ea1; [|discriminate].
    destruct (Ethers.hex_value l1) as [b1|] eqn:Eb1; [|discriminate].
    destruct (Ethers.bytes_of_hex s1) as [r1|] eqn:Er1; [|discriminate].
    destruct (Ethers.hex_value h2) as [a2|] eqn:Ea2; [|discriminate].
    destruct (Ethers.hex_value l2) as [b2|] eqn:Eb2; [|discriminate].
    destruct (Ethers.bytes_of_hex s2) as [r2|] eqn:Er2; [|discriminate].
    injection H1 as Hx1 ->. injection H2 as Hx2 ->.
    pose proof (hex_value_range _ _ Ea1). pose proof (hex_value_range _ _ Eb1).
    pose proof (hex_value_range _ _ Ea2). pose proof (hex_value_range _ _ Eb2).
    assert (a1 = a2) as -> by lia. assert (b1 = b2) as -> by lia.
    cbn [Js.toLowerCase].
    rewrite (hex_value_lower _ _ Ea1), (hex_value_lower _ _ Eb1),
      (hex_value_lower _ _ Ea2), (hex_value_lower _ _ Eb2),
      (IH s1 s2 Er1 Er2).
    reflexivity.
Qed.

Lemma getAddress_zero : Ethers.getAddress ZERO_ADDRESS = Some ZERO_ADDRESS.
Proof. vm_compute. reflexivity. Qed.

Lemma toUtf8Bytes_inj s1 s2 :
  Ethers.toUtf8Bytes s1 = Ethers.toUtf8Bytes s2 -> s1 = s2.
Proof.
  unfold Ethers.toUtf8Bytes. intros H.
  rewrite <- (string_of_list_ascii_of_string s1),
    <- (string_of_list_ascii_of_string s2).
  f_equal. revert H.
  generalize (list_ascii_of_string s1) (list_ascii_of_string s2).
  induction l as [|c l IH]; intros [|c' l']; cbn; try discriminate; [reflexivity|].
  intros [= Hc Hl]. f_equal; [|apply IH, Hl].
  apply Nat2Z.inj in Hc.
  rewrite <- (ascii_nat_embedding c), <- (ascii_nat_embedding c'), Hc. reflexivity.
Qed.

(** What [solidityPacked] answers: the bytes of the string, 20 bytes for
    the address that [getAddress] answers, one byte for the flag. *)
Lemma solidityPacked_some s a b packed :
  Ethers.solidityPacked_string_address_bool s a b = Some packed ->
  exists cs raw,
    Ethers.getAddress a = Some ("0x" +:+ cs)
    /\ Ethers.getChecksumAddress cs = "0x" +:+ cs
    /\ Ethers.bytes_of_hex cs = Some raw /\ List.length raw = 20%nat
    /\ packed = Ethers.toUtf8Bytes s ++ raw ++ [if b then 1 else 0].
Proof.
  unfold Ethers.solidityPacked_string_address_bool.
  destruct (Ethers.getAddress a) as [c|] eqn:Ha; [|discriminate].
  destruct (getAddress_some _ _ Ha) as (cs & -> & Hl & Hh & Hc).
  change (Js.drop 2 ("0x" +:+ cs)) with cs.
  destruct (bytes_of_hex_some 20 cs Hl Hh) as (raw & Er & Hr).
  rewrite Er. intros [= <-]. exists cs, raw.
  split; [reflexivity|]. split; [exact Hc|]. split; [exact Er|].
  split; [exact Hr|reflexivity].
Qed.

End Addresses.

(** X8. For a resolver address that is not in ICAP form (XE...),
    [calculateSchemaUID] of easTools throws exactly when [getAddress]
    rejects its hexadecimal spelling; and the checksum spelling that
    [getAddress] answers is accepted again, unchanged, and gives the same
    UID as the address it was made from. *)
Theorem calculateSchemaUID_resolver (schema resolverAddress : string)
    (revocable : bool) :
  (Js.startsWith "XE" resolverAddress = false ->
   (EasTools.calculateSchemaUID schema resolverAddress revocable = None
    <-> Ethers.getAddress resolverAddress = None))
  /\ forall checksummed,
       Ethers.getAddress resolverAddress = Some checksummed ->
       Ethers.getAddress checksummed = Some checksummed
       /\ EasTools.calculateSchemaUID schema checksummed revocable
          = EasTools.calculateSchemaUID schema resolverAddress revocable.
Proof.
  split.
  - intros _. unfold EasTools.calculateSchemaUID.
    destruct (Ethers.solidityPacked_string_address_bool _ _ _) as [packed|] eqn:Hp.
    + destruct (solidityPacked_some _ _ _ _ Hp) as (cs & raw & Ha & _).
      rewrite Ha. split; discriminate.
    + split; [intros _|reflexivity].
      unfold Ethers.solidityPacked_string_address_bool in Hp.
      destruct (Ethers.getAddress resolverAddress) as [c|] eqn:Ha; [|reflexivity].
      destruct (getAddress_some _ _ Ha) as (cs & -> & Hl & Hh & Hc).
      change (Js.drop 2 ("0x" +:+ cs)) with cs in Hp.
      destruct (bytes_of_hex_some 20 cs Hl Hh) as (raw & Er & _).
      rewrite Er in Hp. discriminate.
  - intros checksummed Ha.
    destruct (getAddress_some _ _ Ha) as (cs & -> & Hl & Hh & Hc).
    pose proof (getAddress_checksummed cs Hl Hh Hc) as Hfix.
    split; [exact Hfix|].
    unfold EasTools.calculateSchemaUID, Ethers.solidityPacked_string_address_bool.
    rewrite Hfix, Ha. reflexivity.
Qed.

Lemma calculateSchemaUID_resolver_witness :
  Ethers.getAddress "0x52908400098527886e0f7030069857d2e4169ee7"
  = Some "0x52908400098527886E0F7030069857D2E4169EE7"
  /\ Ethers.getAddress "0x52908400098527886E0F7030069857D2E4169EE7"
     = Some "0x52908400098527886E0F7030069857D2E4169EE7"
  /\ EasTools.calculateSchemaUID "bool ok"
       "0x52908400098527886E0F7030069857D2E4169EE7" true
     = EasTools.calculateSchemaUID "bool ok"
         "0x52908400098527886e0f7030069857d2e4169ee7" true
  /\ EasTools.calculateSchemaUID "bool ok"
       "0x52908400098527886E0F7030069857D2E4169Ee7" true = None.
Proof.
  assert (Ethers.getAddress "0x52908400098527886e0f7030069857d2e4169ee7"
          = Some "0x52908400098527886E0F7030069857D2E4169EE7") as H
    by (vm_compute; reflexivity).
  split; [exact H|].
  destruct (proj2 (calculateSchemaUID_resolver "bool ok"
                     "0x52908400098527886e0f7030069857d2e4169ee7" true) _ H)
    as [Hfix Hsame].
  split; [exact Hfix|]. split; [exact Hsame|].
  apply (proj1 (calculateSchemaUID_resolver "bool ok"
                  "0x52908400098527886E0F7030069857D2E4169Ee7" true) eq_refl).
  vm_compute. reflexivity.
Defined.

(** X9. With no resolver in the object file, or an empty one, the UID the
    deploy and verify tasks compute is the Keccak-256 digest of the bytes
    of the schema string, twenty zero bytes and the flag byte; it is
    never an error. *)
Theorem expectedSchemaUID_without_resolver (schema : string)
    (resolver : option string) (revocable : bool) :
  resolver = None \/ resolver = Some "" ->
  DeployEasSchema.expectedSchemaUID schema resolver revocable
  = Some (Ethers.keccak256
            (Ethers.toUtf8Bytes schema ++ repeat 0 20
             ++ [if revocable then 1 else 0])).
Proof.
  intros H.
  assert (DeployEasSchema.resolverAddress resolver = ZERO_ADDRESS) as E
    by (destruct H as [->| ->]; reflexivity).
  unfold DeployEasSchema.expectedSchemaUID, EasTools.calculateSchemaUID,
    Ethers.solidityPacked_string_address_bool.
  rewrite E, getAddress_zero.
  change (Ethers.bytes_of_hex (Js.drop 2 ZERO_ADDRESS)) with (Some (repeat 0 20)).
  reflexivity.
Qed.

Lemma expectedSchemaUID_without_resolver_witness :
  DeployEasSchema.expectedSchemaUID "bool ok" None false
  = Some (Ethers.keccak256
            (Ethers.toUtf8Bytes "bool ok" ++ repeat 0 20 ++ [0])).
Proof.
  apply (expectedSchemaUID_without_resolver "bool ok" None false).
  left. reflexivity.
Defined.

(** X10. The tight packing is unambiguous: two calls of [solidityPacked]
    that give the same bytes were given the same schema string, the same
    flag and the same address (as [getAddress] spells it). *)
Theorem solidityPacked_injective (s1 a1 s2 a2 : string) (b1 b2 : bool)
    (packed : list Z) :
  Ethers.solidityPacked_string_address_bool s1 a1 b1 = Some packed ->
  Ethers.solidityPacked_string_address_bool s2 a2 b2 = Some packed ->
  s1 = s2 /\ b1 = b2 /\ Ethers.getAddress a1 = Ethers.getAddress a2.
Proof.
  intros H1 H2.
  destruct (solidityPacked_some _ _ _ _ H1) as (cs1 & raw1 & Ha1 & Hc1 & Er1 & Hl1 & E1).
  destruct (solidityPacked_some _ _ _ _ H2) as (cs2 & raw2 & Ha2 & Hc2 & Er2 & Hl2 & E2).
  rewrite E1 in E2.
  rewrite !app_assoc in E2.
  apply app_inj_tail in E2 as [E2 Hb].
  apply app_inj_2 in E2 as [Hs Hr]; [|congruence].
  apply toUtf8Bytes_inj in Hs. subst s2 raw2.
  split; [reflexivity|]. split; [destruct b1, b2; congruence|].
  rewrite Ha1, Ha2, <- Hc1, <- Hc2.
  f_equal. apply getChecksumAddress_lower.
  exact (bytes_of_hex_lower _ _ _ Er1 Er2).
Qed.

Lemma solidityPacked_injective_witness :
  "bool ok" = "bool ok" /\ true = true
  /\ Ethers.getAddress "0x52908400098527886E0F7030069857D2E4169EE7"
     = Ethers.getAddress "52908400098527886e0f7030069857d2e4169ee7".
Proof.
  apply (solidityPacked_injective _ _ _ _ _ _
           (Ethers.toUtf8Bytes "bool ok"
            ++ [82; 144; 132; 0; 9; 133; 39; 136; 110; 15; 112; 48; 6; 152; 87;
                210; 228; 22; 158; 231] ++ [1]));
    vm_compute; reflexivity.
Defined.

(* ===================================================================== *)
(** * Resolving references                                                *)
(* ===================================================================== *)

Section Objects.

Lemma assoc_set_key {A} k k' (v : A) l :
  assoc k (set_key k' v l) = if String.eqb k k' then Some v else assoc k l.
Proof.
  induction l as [|[k0 v0] l IH]; cbn [set_key assoc].
  - destruct (String.eqb k k'); reflexivity.
  - destruct (String.eqb_spec k' k0) as [->|Hne]; cbn [assoc].
    + destruct (String.eqb k k0); reflexivity.
    + rewrite IH. destruct (String.eqb_spec k k0) as [->|Hne']; [|reflexivity].
      apply String.eqb_neq in Hne. rewrite String.eqb_sym in Hne. rewrite Hne.
      reflexivity.
Qed.

Lemma assoc_remove_key {A} k k' (l : list (string * A)) :
  assoc k (remove_key k' l) = if String.eqb k k' then None else assoc k l.
Proof.
  induction l as [|[k0 v0] l IH]; cbn [remove_key assoc].
  - destruct (String.eqb k k'); reflexivity.
  - destruct (String.eqb_spec k' k0) as [->|Hne]; cbn [assoc].
    + rewrite IH. destruct (String.eqb k k0); reflexivity.
    + rewrite IH. destruct (String.eqb_spec k k') as [->|Hne'].
      * apply String.eqb_neq in Hne. rewrite Hne. reflexivity.
      * reflexivity.
Qed.

Lemma assoc_None_not_in {A} k (l : list (string * A)) :
  assoc k l = None <-> k ∉ map fst l.
Proof.
  induction l as [|[k0 v0] l IH]; cbn [assoc map fst].
  - split; [intros _ H; inversion H|reflexivity].
  - destruct (String.eqb_spec k k0) as [->|Hne].
    + split; [discriminate|]. intros H. contradiction H. constructor.
    + rewrite IH. split.
      * intros H H'. apply H. inversion H'; subst; [contradiction|assumption].
      * intros H H'. apply H. constructor. exact H'.
Qed.

(** [{ ...base, ...over }] read at a key: the property of [over] when it
    has one, the property of [base] otherwise. *)
Lemma assoc_spread k base over :
  NoDup (map fst over) ->
  assoc k (spread base over) =
  match assoc k over with
  | Some v => Some v
  | None => assoc k base
  end.
Proof.
  unfold spread. revert base.
  induction over as [|[k0 v0] over IH]; intros base Hnd; [reflexivity|].
  cbn [map fst] in Hnd. apply NoDup_cons in Hnd as [Hk0 Hnd].
  cbn [fold_left assoc]. rewrite (IH _ Hnd), assoc_set_key.
  destruct (String.eqb_spec k k0) as [->|Hne]; [|reflexivity].
  apply assoc_None_not_in in Hk0. rewrite Hk0. reflexivity.
Qed.

Lemma remove_key_subset {A} k k0 (l : list (string * A)) :
  k0 ∈ map fst (remove_key k l) -> k0 ∈ map fst l.
Proof.
  induction l as [|[k1 v1] l IH]; cbn [remove_key map fst]; [auto|].
  destruct (String.eqb k k1); cbn [map fst].
  - intros H. right. auto.
  - intros H. inversion H; subst; [left|right; auto].
Qed.

Lemma remove_key_NoDup {A} k (l : list (string * A)) :
  NoDup (map fst l) -> NoDup (map fst (remove_key k l)).
Proof.
  induction l as [|[k0 v0] l IH]; cbn [remove_key map fst]; [auto|].
  intros [Hk0 Hnd]%NoDup_cons. destruct (String.eqb k k0); [auto|].
  cbn [map fst]. apply NoDup_cons. split; [|auto].
  intros Hin. apply Hk0. exact (remove_key_subset _ _ _ Hin).
Qed.

End Objects.

Section Resolver.

Variable h : host.
Variable currentSchema : json.
Variable baseDir : string.

Lemma startsWith_hash_slash ref :
  Js.startsWith "#/" ref = true ->
  Js.startsWith "#" ref = true /\ includes_char "#" ref = true.
Proof.
  destruct ref as [|c ref]; [discriminate|]. cbn [Js.startsWith].
  intros [Hc _]%andb_true_iff. rewrite includes_char_cons, Hc.
  rewrite Ascii.eqb_sym in Hc. rewrite Hc. split; reflexivity.
Qed.

Lemma resolveRef_local ref st :
  includes_char "#" ref = false \/ Js.startsWith "#" ref = true ->
  resolveRef h ref currentSchema baseDir st
  = (if Js.falsy_string ref then JNull else resolvePointer ref currentSchema, st).
Proof.
  intros H. unfold resolveRef.
  destruct (Js.falsy_string ref); [reflexivity|].
  destruct H as [-> | ->]; [reflexivity|]. rewrite andb_false_r. reflexivity.
Qed.

End Resolver.

(** X11. A resolved reference is merged under the property that holds
    it: when the [$ref] of a property resolves to a truthy target, a
    member the property spells out itself wins, every other member comes
    from the target, and the [$ref] of the result is the target's own
    [$ref] (a reference in the target is not followed). *)
Theorem resolveProperty_merge (h : host) (prop : json) (ref : string)
    (currentSchema : json) (baseDir : string) (st : state) :
  NoDup (keys prop) ->
  member "$ref" prop = Some (JStr ref) ->
  let resolved := fst (resolveRef h ref currentSchema baseDir st) in
  let st' := snd (resolveRef h ref currentSchema baseDir st) in
  truthy resolved = true ->
  exists merged,
    resolveProperty h prop currentSchema baseDir st = (JObj merged, st')
    /\ forall name,
         assoc name merged =
         if String.eqb name "$ref" then assoc "$ref" (entries resolved)
         else match member name prop with
              | Some v => Some v
              | None => assoc name (entries resolved)
              end.
Proof.
  intros Hnd Href resolved st'. subst resolved st'.
  destruct prop as [| | | | |fields]; try discriminate Href.
  unfold resolveProperty. cbn [truthy negb]. rewrite Href.
  destruct (Js.falsy_string ref) eqn:Hf.
  { unfold resolveRef. rewrite Hf. discriminate. }
  unfold bind, ret.
  destruct (resolveRef h ref currentSchema baseDir st) as [resolved st'].
  cbn [fst snd]. intros ->.
  eexists. split; [reflexivity|]. intros name.
  rewrite assoc_spread by (apply remove_key_NoDup, Hnd).
  cbn [entries]. rewrite assoc_remove_key. cbn [member].
  destruct (String.eqb_spec name "$ref") as [->|_]; reflexivity.
Qed.

Lemma resolveProperty_merge_witness :
  exists merged,
    resolveProperty sample_disk
      (JObj [("$ref", JStr "#/$defs/Attester"); ("description", JStr "who")])
      skip_reasons_schema "/schemas" initial
    = (JObj merged, initial)
    /\ forall name,
         assoc name merged =
         if String.eqb name "$ref" then None
         else match member name
                      (JObj [("$ref", JStr "#/$defs/Attester");
                             ("description", JStr "who")]) with
              | Some v => Some v
              | None =>
                  assoc name [("type", JStr "string");
                              ("x-oma3-skip-reason", JStr "eas")]
              end.
Proof.
  refine (resolveProperty_merge sample_disk
            (JObj [("$ref", JStr "#/$defs/Attester"); ("description", JStr "who")])
            "#/$defs/Attester" skip_reasons_schema "/schemas" initial _ eq_refl
            eq_refl).
  apply (bool_decide_unpack _). vm_compute. exact I.
Defined.

(** X12. A local pointer is followed one member at a time: [#/key] is
    the member [key] of the document, and [#/key/rest] is what [#/rest]
    resolves to in that member; when the document has no member [key] of
    its own, and [key] is not the name of a member that objects inherit
    from Object.prototype, the whole pointer is null; the disk and the
    cache are not touched.  (A key without a slash.) *)
Theorem resolveRef_pointer_step (h : host) (key rest : string)
    (fields : list (string * json)) (baseDir : string) (st : state) :
  includes_char "/" key = false ->
  (forall v,
      assoc key fields = Some v ->
      resolveRef h ("#/" +:+ key) (JObj fields) baseDir st = (v, st)
      /\ resolveRef h ("#/" +:+ key +:+ "/" +:+ rest) (JObj fields) baseDir st
         = resolveRef h ("#/" +:+ rest) v baseDir st)
  /\ (assoc key fields = None ->
      key ∉ object_prototype_names ->
      resolveRef h ("#/" +:+ key) (JObj fields) baseDir st = (JNull, st)
      /\ resolveRef h ("#/" +:+ key +:+ "/" +:+ rest) (JObj fields) baseDir st
         = (JNull, st)).
Proof.
  intros Hkey.
  rewrite !resolveRef_local by (right; reflexivity).
  change (Js.falsy_string ("#/" +:+ key)) with false.
  change (Js.falsy_string ("#/" +:+ key +:+ "/" +:+ rest)) with false.
  cbv iota. unfold resolvePointer.
  change (Js.startsWith "#/" ("#/" +:+ key)) with true.
  change (Js.startsWith "#/" ("#/" +:+ key +:+ "/" +:+ rest)) with true.
  cbn [negb].
  change (Js.drop 2 ("#/" +:+ key)) with key.
  change (Js.drop 2 ("#/" +:+ key +:+ "/" +:+ rest)) with (key +:+ String "/" rest).
  rewrite (split_without _ _ Hkey), (split_app _ _ _ Hkey).
  cbn [walk own_property]. split.
  - intros v ->. split; [reflexivity|].
    rewrite resolveRef_local by (right; reflexivity).
    change (Js.falsy_string ("#/" +:+ rest)) with false. cbv iota.
    unfold resolvePointer.
    change (Js.startsWith "#/" ("#/" +:+ rest)) with true. cbn [negb].
    reflexivity.
  - intros -> _. split; reflexivity.
Qed.

Lemma resolveRef_pointer_step_witness :
  resolveRef sample_disk "#/$defs" skip_reasons_schema "/schemas" initial
  = (JObj [("Attester",
            JObj [("type", JStr "string"); ("x-oma3-skip-reason", JStr "eas")])],
     initial)
  /\ resolveRef sample_disk "#/$defs/Attester/type" skip_reasons_schema "/schemas"
       initial
     = resolveRef sample_disk "#/Attester/type"
         (JObj [("Attester",
                 JObj [("type", JStr "string");
                       ("x-oma3-skip-reason", JStr "eas")])])
         "/schemas" initial
  /\ resolveRef sample_disk "#/definitions/Attester" skip_reasons_schema "/schemas"
       initial
     = (JNull, initial).
Proof.
  pose proof (resolveRef_pointer_step sample_disk "$defs" "Attester/type"
                [("$defs", JObj [("Attester",
                    JObj [("type", JStr "string");
                          ("x-oma3-skip-reason", JStr "eas")])])]
                "/schemas" initial eq_refl) as [Hsome _].
  pose proof (resolveRef_pointer_step sample_disk "definitions" "Attester"
                [("$defs", JObj [("Attester",
                    JObj [("type", JStr "string");
                          ("x-oma3-skip-reason", JStr "eas")])])]
                "/schemas" initial eq_refl) as [_ Hnone].
  split; [exact (proj1 (Hsome _ eq_refl))|].
  split; [exact (proj2 (Hsome _ eq_refl))|].
  apply Hnone; [reflexivity|].
  intros Hin. apply list_elem_of_In in Hin. vm_compute in Hin.
  intuition discriminate.
Defined.

(** X13. A reference without a fragment (a whole file), an anchor such as
    [#Name] and the root pointer [#] are not supported: they resolve to
    null without a look at the disk or the cache, and the property that
    holds one comes back unresolved. *)
Theorem resolveRef_unsupported (h : host) (ref : string) (prop currentSchema : json)
    (baseDir : string) (st : state) :
  includes_char "#" ref = false
  \/ (Js.startsWith "#" ref = true /\ Js.startsWith "#/" ref = false) ->
  resolveRef h ref currentSchema baseDir st = (JNull, st)
  /\ (member "$ref" prop = Some (JStr ref) ->
      resolveProperty h prop currentSchema baseDir st = (prop, st)).
Proof.
  intros H.
  assert (Js.startsWith "#/" ref = false) as Hp.
  { destruct H as [H|[_ H]]; [|exact H].
    destruct (Js.startsWith "#/" ref) eqn:E; [|reflexivity].
    apply startsWith_hash_slash in E as [_ E]. congruence. }
  assert (resolveRef h ref currentSchema baseDir st = (JNull, st)) as Hr.
  { rewrite resolveRef_local by (destruct H as [H|[H _]]; auto).
    unfold resolvePointer. rewrite Hp. destruct (Js.falsy_string ref); reflexivity. }
  split; [exact Hr|]. intros Href.
  destruct prop as [| | | | |fields]; try discriminate Href.
  unfold resolveProperty. cbn [truthy negb]. rewrite Href.
  destruct (Js.falsy_string ref); [reflexivity|].
  unfold bind. rewrite Hr. reflexivity.
Qed.

Lemma resolveRef_unsupported_witness :
  resolveRef sample_disk "common.schema.json" skip_reasons_schema "/schemas" initial
  = (JNull, initial)
  /\ resolveProperty sample_disk (JObj [("$ref", JStr "common.schema.json")])
       skip_reasons_schema "/schemas" initial
     = (JObj [("$ref", JStr "common.schema.json")], initial).
Proof.
  destruct (resolveRef_unsupported sample_disk "common.schema.json"
              (JObj [("$ref", JStr "common.schema.json")])
              skip_reasons_schema "/schemas" initial (or_introl eq_refl))
    as [H1 H2].
  split; [exact H1|exact (H2 eq_refl)].
Defined.

(* ===================================================================== *)
(** * The cache is transparent                                            *)
(* ===================================================================== *)

Section CacheTransparency.

Variable h : host.
Variable baseDir : string.

Lemma faithful_initial : faithful h baseDir initial.
Proof. intros p doc H. cbn in H. rewrite lookup_empty in H. discriminate. Qed.

Lemma transparent_ret {A} (a : A) : transparent h baseDir (ret a).
Proof. intros st1 st2 H1 H2. split; [reflexivity|exact H1]. Qed.

Lemma transparent_bind {A B} (c : M A) (k : A -> M B) :
  transparent h baseDir c -> (forall a, transparent h baseDir (k a)) ->
  transparent h baseDir (bind c k).
Proof.
  intros Hc Hk st1 st2 H1 H2. unfold bind.
  destruct (Hc st1 st2 H1 H2) as [E F1].
  destruct (Hc st2 st1 H2 H1) as [_ F2].
  destruct (c st1) as [a1 st1'], (c st2) as [a2 st2']. cbn [fst snd] in *.
  subst a2. exact (Hk a1 st1' st2' F1 F2).
Qed.

Lemma transparent_if {A} (b : bool) (c1 c2 : M A) :
  transparent h baseDir c1 -> transparent h baseDir c2 ->
  transparent h baseDir (if b then c1 else c2).
Proof. destruct b; auto. Qed.

Lemma loadExternalSchema_answer p st :
  faithful h baseDir st ->
  fst (loadExternalSchema h p baseDir st)
  = (if existsSync h (path_resolve h baseDir p)
     then match readJson h (path_resolve h baseDir p) with
          | Some doc => doc
          | None => JNull
          end
     else JNull)
  /\ faithful h baseDir (snd (loadExternalSchema h p baseDir st)).
Proof.
  intros Hf. unfold loadExternalSchema, bind, cache_get, touch, cache_set, ret.
  cbv beta iota zeta.
  destruct (schemaCache st !! p) as [doc|] eqn:Hc.
  - destruct (Hf _ _ Hc) as [-> ->]. split; [reflexivity|exact Hf].
  - destruct (existsSync h (path_resolve h baseDir p)) eqn:He; cbn [negb].
    + destruct (readJson h (path_resolve h baseDir p)) as [doc|] eqn:Hr;
        cbn [fst snd]; (split; [reflexivity|]).
      * intros q d. cbn [schemaCache].
        destruct (String.eqb_spec p q) as [->|Hne].
        -- rewrite lookup_insert_eq. intros [= <-]. auto.
        -- rewrite lookup_insert_ne by exact Hne. apply Hf.
      * exact Hf.
    + split; [reflexivity|exact Hf].
Qed.

Lemma loadExternalSchema_transparent p :
  transparent h baseDir (loadExternalSchema h p baseDir).
Proof.
  intros st1 st2 H1 H2.
  destruct (loadExternalSchema_answer p st1 H1) as [E1 F1].
  destruct (loadExternalSchema_answer p st2 H2) as [E2 _].
  split; [congruence|exact F1].
Qed.

Lemma resolveRef_transparent ref schema :
  transparent h baseDir (resolveRef h ref schema baseDir).
Proof.
  unfold resolveRef. repeat apply transparent_if; try apply transparent_ret.
  apply transparent_bind; [apply loadExternalSchema_transparent|].
  intros doc. apply transparent_if; apply transparent_ret.
Qed.

Lemma resolveProperty_transparent prop schema :
  transparent h baseDir (resolveProperty h prop schema baseDir).
Proof.
  unfold resolveProperty. apply transparent_if; [apply transparent_ret|].
  destruct (member "$ref" prop) as [[| | |ref| |]|]; try apply transparent_ret.
  apply transparent_if; [apply transparent_ret|].
  apply transparent_bind; [apply resolveRef_transparent|].
  intros r. apply transparent_if; apply transparent_ret.
Qed.

Lemma mapper_transparent prop key schema :
  transparent h baseDir (mapJsonSchemaPropertyToAbiType h prop key schema baseDir).
Proof.
  unfold mapJsonSchemaPropertyToAbiType.
  apply transparent_if; [apply transparent_ret|].
  apply transparent_if; [|apply transparent_ret].
  destruct (member "items" prop) as [items|]; [|apply transparent_ret].
  apply transparent_if; [|apply transparent_ret].
  apply transparent_bind; [|intros r; apply transparent_ret].
  apply transparent_if; [apply resolveProperty_transparent|apply transparent_ret].
Qed.

Lemma buildField_transparent schema key rawProperty :
  transparent h baseDir (buildField h schema baseDir key rawProperty).
Proof.
  unfold buildField.
  apply transparent_bind; [apply resolveProperty_transparent|].
  intros property. apply transparent_if; [apply transparent_ret|].
  apply transparent_bind; [apply mapper_transparent|].
  intros t. apply transparent_ret.
Qed.

Lemma buildLoop_transparent schema props abiFields :
  transparent h baseDir (buildLoop h schema baseDir props abiFields).
Proof.
  revert abiFields. induction props as [|[key raw] rest IH]; intros abiFields.
  - apply transparent_ret.
  - cbn [buildLoop]. apply transparent_bind; [apply buildField_transparent|].
    intros t. apply IH.
Qed.

Lemma buildSchemaString_transparent properties schema :
  transparent h baseDir (buildSchemaString h properties schema baseDir).
Proof.
  unfold buildSchemaString. destruct properties as [props|]; [|apply transparent_ret].
  apply transparent_if; [apply transparent_ret|].
  apply transparent_bind; [apply buildLoop_transparent|].
  intros fields. apply transparent_ret.
Qed.

End CacheTransparency.

(** X14. The cache is transparent: when every cached document is the one
    the disk holds under its path (as after any earlier compilation from
    the same directory on an unchanged disk), [buildSchemaString] writes
    the schema string it writes from the empty cache, and the cache it
    leaves is again such a cache. *)
Theorem buildSchemaString_cache_transparent (h : host) (properties : option json)
    (currentSchema : json) (baseDir : string) (st : state) :
  faithful h baseDir st ->
  fst (buildSchemaString h properties currentSchema baseDir st)
  = fst (buildSchemaString h properties currentSchema baseDir initial)
  /\ faithful h baseDir
       (snd (buildSchemaString h properties currentSchema baseDir st)).
Proof.
  intros Hf.
  exact (buildSchemaString_transparent h baseDir properties currentSchema
           st initial Hf (faithful_initial h baseDir)).
Qed.

Lemma buildSchemaString_cache_transparent_witness :
  let properties :=
    Some (JObj [("proof", JObj [("$ref", JStr "common.schema.json#/$defs/Proof")])]) in
  let st := snd (loadExternalSchema sample_disk "common.schema.json" "/schemas"
                   initial) in
  fst (buildSchemaString sample_disk properties (JObj []) "/schemas" st)
  = fst (buildSchemaString sample_disk properties (JObj []) "/schemas" initial)
  /\ faithful sample_disk "/schemas"
       (snd (buildSchemaString sample_disk properties (JObj []) "/schemas" st)).
Proof.
  apply buildSchemaString_cache_transparent.
  apply loadExternalSchema_answer, faithful_initial.
Defined.

(* ===================================================================== *)
(** * The types and the fields that are written                           *)
(* ===================================================================== *)

Section MapperTypes.

Lemma arrayOf_types t a : arrayOf t = Some a -> a ∈ array_abi_types.
Proof.
  unfold arrayOf, array_abi_types.
  repeat match goal with
         | |- context [if ?b then _ else _] => destruct b
         end; intros [= <-]; set_solver.
Qed.

Lemma arrayType_types itemType :
  arrayType itemType = None
  \/ exists t, arrayType itemType = Some t /\ t ∈ array_abi_types.
Proof.
  unfold arrayType. destruct itemType as [t|]; [|by left].
  destruct (truthy t); [|by left].
  destruct (arrayOf (js_String t)) as [a|] eqn:Ha; [|by left].
  right. exists a. split; [done|]. by eapply arrayOf_types.
Qed.

Lemma jsonTypeToAbi_types e ctx : jsonTypeToAbi e ctx ∈ scalar_abi_types.
Proof.
  unfold jsonTypeToAbi, scalar_abi_types.
  repeat match goal with
         | |- context [if ?b then _ else _] => destruct b
         | |- context [match ?x with _ => _ end] => destruct x
         end; set_solver.
Qed.

Lemma mapper_answer h property key currentSchema baseDir st :
  let answer :=
    fst (mapJsonSchemaPropertyToAbiType h property key currentSchema baseDir st) in
  if array_typed key property
  then answer = None \/ exists t, answer = Some t /\ t ∈ array_abi_types
  else exists t, answer = Some t /\ t ∈ scalar_abi_types.
Proof.
  cbv zeta. unfold array_typed, mapJsonSchemaPropertyToAbiType.
  destruct (String.eqb key "purpose"); cbn [negb andb].
  { exists "string". split; [done|]. unfold scalar_abi_types. set_solver. }
  destruct (is_array_type (resolveJsonType property)).
  - destruct (member "items" property) as [items|]; [|by left].
    destruct (truthy items); [|by left]. unfold bind, ret.
    destruct ((if truthy_opt (member "$ref" items) && truthy currentSchema
                  && negb (Js.falsy_string baseDir)
               then resolveProperty h items currentSchema baseDir
               else fun st0 => (items, st0)) st) as [resolvedItems st'].
    cbn [fst]. apply arrayType_types.
  - cbn [ret fst]. eexists. split; [done|]. apply jsonTypeToAbi_types.
Qed.

Lemma legacy_mapper_answer property key :
  let answer := GenerateEasObjectLegacy.mapJsonSchemaPropertyToAbiType property key in
  if array_typed key property
  then answer = None \/ exists t, answer = Some t /\ t ∈ array_abi_types
  else exists t, answer = Some t /\ t ∈ scalar_abi_types.
Proof.
  cbv zeta. unfold array_typed, GenerateEasObjectLegacy.mapJsonSchemaPropertyToAbiType.
  destruct (String.eqb key "purpose"); cbn [negb andb].
  { exists "string". split; [done|]. unfold scalar_abi_types. set_solver. }
  destruct (is_array_type (resolveJsonType property)).
  - destruct (member "items" property) as [items|]; [|by left].
    apply arrayType_types.
  - eexists. split; [done|]. apply jsonTypeToAbi_types.
Qed.

End MapperTypes.

(** X15. The mapper of generate-eas-object, in both versions, answers
    from a closed list.  A property named purpose, and every property
    whose effective type is not "array", gets string, uint256, bool or
    bytes32, never null; a property whose effective type is "array" gets
    string[], uint256[] or bool[], or null: there is no array of bytes32
    and no array of arrays, and only an array can be left without a
    type. *)
Theorem mapper_types (h : host) (property : json) (key : string)
    (currentSchema : json) (baseDir : string) (st : state) :
  let answer :=
    fst (mapJsonSchemaPropertyToAbiType h property key currentSchema baseDir st) in
  let legacy := GenerateEasObjectLegacy.mapJsonSchemaPropertyToAbiType property key in
  if array_typed key property
  then (answer = None \/ exists t, answer = Some t /\ t ∈ array_abi_types)
       /\ (legacy = None \/ exists t, legacy = Some t /\ t ∈ array_abi_types)
  else (exists t, answer = Some t /\ t ∈ scalar_abi_types)
       /\ (exists t, legacy = Some t /\ t ∈ scalar_abi_types).
Proof.
  cbv zeta.
  pose proof (mapper_answer h property key currentSchema baseDir st) as H1.
  pose proof (legacy_mapper_answer property key) as H2.
  cbv zeta in H1, H2. destruct (array_typed key property); by split.
Qed.

Section Survival.

Variable h : host.
Variable currentSchema : json.
Variable baseDir : string.


Lemma fieldSteps_covers props st key rawProperty :
  (key, rawProperty) ∈ props ->
  exists s, s ∈ fieldSteps h currentSchema baseDir props st /\ step_key s = key.
Proof.
  intros Hin.
  assert (key ∈ map step_key (fieldSteps h currentSchema baseDir props st)) as Hk.
  { rewrite fieldSteps_keys. apply list_elem_of_fmap. by exists (key, rawProperty). }
  apply list_elem_of_fmap in Hk as (s & -> & Hs). by exists s.
Qed.

End Survival.



Section LegacyAgreement.

Variable h : host.
Variable currentSchema : json.
Variable baseDir : string.

Lemma resolveProperty_without_ref prop st :
  truthy_opt (member "$ref" prop) = false ->
  resolveProperty h prop currentSchema baseDir st = (prop, st).
Proof.
  intros Href. unfold resolveProperty.
  destruct (truthy prop); [|done]. cbn [negb].
  destruct (member "$ref" prop) as [[| | |ref| |]|]; try done.
  cbn in Href. apply negb_false_iff in Href. by rewrite Href.
Qed.

Lemma mapper_ref_free property key st :
  ref_free property = true ->
  mapJsonSchemaPropertyToAbiType h property key currentSchema baseDir st
  = (GenerateEasObjectLegacy.mapJsonSchemaPropertyToAbiType property key, st).
Proof.
  unfold ref_free, mapJsonSchemaPropertyToAbiType,
    GenerateEasObjectLegacy.mapJsonSchemaPropertyToAbiType.
  intros [_ Hitems]%andb_true_iff.
  destruct (String.eqb key "purpose"); [done|].
  destruct (is_array_type (resolveJsonType property)); [|done].
  destruct (member "items" property) as [items|]; [|done].
  apply negb_true_iff in Hitems. rewrite Hitems. cbn [andb]. unfold bind, ret.
  destruct (truthy items) eqn:Ht; [done|].
  unfold itemTypeOf. by rewrite Ht.
Qed.

Lemma buildField_ref_free key property st :
  ref_free property && plain_skip property = true ->
  buildField h currentSchema baseDir key property st
  = (GenerateEasObjectLegacy.buildField key property, st).
Proof.
  intros [Href Hskip]%andb_true_iff.
  unfold buildField, GenerateEasObjectLegacy.buildField, bind, ret.
  rewrite resolveProperty_without_ref
    by (unfold ref_free in Href; apply andb_true_iff in Href as [Href _];
        by apply negb_true_iff in Href).
  unfold plain_skip, skipReason in Hskip. apply Bool.eqb_prop in Hskip.
  rewrite Hskip. destruct (isSkipped property); [done|].
  by rewrite mapper_ref_free.
Qed.

Lemma buildLoop_ref_free props abiFields st :
  Forall (fun kv => ref_free (snd kv) && plain_skip (snd kv) = true) props ->
  buildLoop h currentSchema baseDir props abiFields st
  = (GenerateEasObjectLegacy.buildLoop props abiFields, st).
Proof.
  revert abiFields st. induction props as [|[key property] rest IH];
    intros abiFields st Hall; [done|].
  apply Forall_cons in Hall as [Hp Hall]. cbn [snd] in Hp.
  cbn [buildLoop GenerateEasObjectLegacy.buildLoop]. unfold bind.
  rewrite (buildField_ref_free _ _ _ Hp). by apply IH.
Qed.

End LegacyAgreement.

(** X17. On a schema without references, where a skip reason is
    "metadata" or "eas" when there is one, the generator that resolves
    references writes the schema string of the version without
    references, and it touches neither the disk nor the cache. *)
Theorem buildSchemaString_legacy (h : host) (properties : option json)
    (currentSchema : json) (baseDir : string) (st : state) :
  Forall (fun kv => ref_free (snd kv) && plain_skip (snd kv) = true)
    (propertyEntries properties) ->
  buildSchemaString h properties currentSchema baseDir st
  = (GenerateEasObjectLegacy.buildSchemaString properties, st).
Proof.
  unfold propertyEntries, buildSchemaString, GenerateEasObjectLegacy.buildSchemaString.
  destruct properties as [props|]; [|done].
  destruct (truthy props); [|done]. intros Hall. cbn [negb]. unfold bind, ret.
  by rewrite (buildLoop_ref_free h currentSchema baseDir _ [] st Hall).
Qed.

Lemma buildSchemaString_legacy_witness :
  let properties :=
    Some (JObj [("subject", typed "string");
                ("tags", JObj [("type", JStr "array"); ("items", typed "string")]);
                ("attester", JObj [("type", JStr "string");
                                   ("x-oma3-skip-reason", JStr "eas")])]) in
  buildSchemaString sample_disk properties (JObj []) "/schemas" initial
  = (GenerateEasObjectLegacy.buildSchemaString properties, initial).
Proof.
  apply buildSchemaString_legacy. repeat constructor.
Defined.

(* ===================================================================== *)
(** * Appending properties; the revoked field                             *)
(* ===================================================================== *)

Section Appending.

Variable h : host.
Variable currentSchema : json.
Variable baseDir : string.

Lemma fieldSteps_app props1 props2 st :
  fieldSteps h currentSchema baseDir (props1 ++ props2) st
  = fieldSteps h currentSchema baseDir props1 st
    ++ fieldSteps h currentSchema baseDir props2
         (snd (buildLoop h currentSchema baseDir props1 [] st)).
Proof.
  assert (forall props acc acc' st0,
            snd (buildLoop h currentSchema baseDir props acc st0)
            = snd (buildLoop h currentSchema baseDir props acc' st0)) as Hacc.
  { induction props as [|[key raw] rest IH]; intros acc acc' st0; [done|].
    cbn [buildLoop]. unfold bind.
    destruct (buildField h currentSchema baseDir key raw st0) as [t st1].
    apply IH. }
  revert st. induction props1 as [|[key raw] rest IH]; intros st; [done|].
  cbn [app fieldSteps buildLoop]. unfold bind at 1. rewrite buildField_step.
  destruct (resolveProperty h raw currentSchema baseDir st) as [property st1].
  destruct (if isSkipped property then (None, st1)
            else mapJsonSchemaPropertyToAbiType h property key currentSchema
                   baseDir st1) as [abiType st2].
  rewrite IH. cbn [app]. do 3 f_equal. apply Hacc.
Qed.

Lemma startsWith_append p t : Js.startsWith p (p +:+ t) = true.
Proof.
  induction p as [|c p IH]; [done|].
  rewrite append_cons. cbn [Js.startsWith]. by rewrite Ascii.eqb_refl, IH.
Qed.

Lemma join_app sep l1 l2 :
  l1 <> [] -> l2 <> [] ->
  Js.join sep (l1 ++ l2) = Js.join sep l1 +:+ sep +:+ Js.join sep l2.
Proof.
  intros H1 H2. induction l1 as [|a l1 IH]; [done|].
  destruct l1 as [|b l1].
  - destruct l2 as [|c l2]; [done|]. reflexivity.
  - change ((a :: b :: l1) ++ l2) with (a :: (b :: l1) ++ l2).
    change ((b :: l1) ++ l2) with (b :: l1 ++ l2) at 1.
    rewrite join_cons. change (b :: l1 ++ l2) with ((b :: l1) ++ l2).
    rewrite IH by done. rewrite join_cons. by rewrite !append_assoc.
Qed.

Lemma join_prefix sep l1 l2 :
  Js.startsWith (Js.join sep l1) (Js.join sep (l1 ++ l2)) = true.
Proof.
  destruct l1 as [|a l1]; [done|]. destruct l2 as [|b l2].
  - rewrite app_nil_r. rewrite <- (append_nil_r (Js.join sep (a :: l1))) at 2.
    apply startsWith_append.
  - rewrite join_app by done. apply startsWith_append.
Qed.

End Appending.

Section AppendingParsed.

Variable h : host.
Variable currentSchema : json.
Variable baseDir : string.

Lemma buildSchemaString_fields_app props1 props2 st :
  let shorter := buildSchemaString h (Some (JObj props1)) currentSchema baseDir st in
  let longer :=
    buildSchemaString h (Some (JObj (props1 ++ props2))) currentSchema baseDir st in
  fst shorter = schemaText (writtenFields h currentSchema baseDir props1 st)
  /\ fst longer
     = schemaText (writtenFields h currentSchema baseDir props1 st
                   ++ writtenFields h currentSchema baseDir props2 (snd shorter))
  /\ Js.startsWith (fst shorter) (fst longer) = true.
Proof.
  cbv zeta.
  assert (snd (buildSchemaString h (Some (JObj props1)) currentSchema baseDir st)
          = snd (buildLoop h currentSchema baseDir props1 [] st)) as Hst.
  { unfold buildSchemaString. cbn [truthy negb entries]. unfold bind, ret.
    by destruct (buildLoop h currentSchema baseDir props1 [] st). }
  assert (writtenFields h currentSchema baseDir (props1 ++ props2) st
          = writtenFields h currentSchema baseDir props1 st
            ++ writtenFields h currentSchema baseDir props2
                 (snd (buildSchemaString h (Some (JObj props1)) currentSchema
                         baseDir st))) as Happ.
  { unfold writtenFields, survivors. by rewrite fieldSteps_app, omap_app, Hst. }
  rewrite !buildSchemaString_survivors. cbn [propertyEntries truthy entries].
  fold (writtenFields h currentSchema baseDir (props1 ++ props2) st).
  fold (writtenFields h currentSchema baseDir props1 st).
  rewrite Happ. split; [done|]. split; [done|].
  unfold schemaText. rewrite map_app. apply join_prefix.
Qed.

End AppendingParsed.

(** X18. Properties added at the end of the document of a properties
    mapping, under names that are distinct from the others and from each
    other and are not array indices, are enumerated after the properties
    that were there, and only add to the end of the schema string: the
    fields of the longer mapping are the fields of the shorter one,
    followed by the fields of the added properties as they come out in
    the state the shorter compilation leaves; so the schema string of the
    shorter mapping is a prefix of the longer one's. *)
Theorem buildSchemaString_append (h : host) (members1 members2 : list (string * json))
    (currentSchema : json) (baseDir : string) (st : state) :
  NoDup (map fst (members1 ++ members2)) ->
  Forall (fun kv => is_index (fst kv) = false) members2 ->
  let props1 := entries (parseObject members1) in
  let shorter :=
    buildSchemaString h (Some (parseObject members1)) currentSchema baseDir st in
  let longer :=
    buildSchemaString h (Some (parseObject (members1 ++ members2))) currentSchema
      baseDir st in
  entries (parseObject (members1 ++ members2)) = props1 ++ members2
  /\ fst shorter = schemaText (writtenFields h currentSchema baseDir props1 st)
  /\ fst longer
     = schemaText (writtenFields h currentSchema baseDir props1 st
                   ++ writtenFields h currentSchema baseDir members2 (snd shorter))
  /\ Js.startsWith (fst shorter) (fst longer) = true.
Proof.
  intros Hnd Hno. cbv zeta.
  assert (Hnd1 : NoDup (map fst members1)).
  { rewrite map_app in Hnd. by apply NoDup_app in Hnd as (? & _). }
  assert (He : enumerate (spread [] (members1 ++ members2))
               = enumerate (spread [] members1) ++ members2).
  { rewrite !spread_distinct by done. by apply enumerate_app. }
  unfold parseObject. cbn [entries]. rewrite He. split; [done|].
  apply buildSchemaString_fields_app.
Qed.

Lemma buildSchemaString_append_witness :
  let members1 := [("subject", typed "string"); ("7", typed "boolean")] in
  let members2 := [("score", typed "integer")] in
  entries (parseObject (members1 ++ members2))
  = [("7", typed "boolean"); ("subject", typed "string"); ("score", typed "integer")]
  /\ Js.startsWith
       (fst (buildSchemaString sample_disk (Some (parseObject members1)) (JObj [])
               "/schemas" initial))
       (fst (buildSchemaString sample_disk (Some (parseObject (members1 ++ members2)))
               (JObj []) "/schemas" initial))
     = true.
Proof.
  cbv zeta.
  assert (Hnd : NoDup (map fst ([("subject", typed "string"); ("7", typed "boolean")]
                                ++ [("score", typed "integer")])))
    by (apply (bool_decide_unpack _); vm_compute; exact I).
  assert (Hno : Forall (fun kv : string * json => is_index (fst kv) = false)
                  [("score", typed "integer")])
    by (repeat constructor).
  pose proof (buildSchemaString_append sample_disk _ _ (JObj []) "/schemas" initial
                Hnd Hno) as (He & _ & _ & Hp).
  split; [exact He | exact Hp].
Defined.

Section Revocable.

Variable h : host.
Variable currentSchema : json.
Variable baseDir : string.

(** A member the property spells out itself is a member of the resolved
    property. *)
Lemma resolveProperty_keeps_local prop name v st :
  NoDup (keys prop) ->
  name <> "$ref" ->
  member name prop = Some v ->
  member name (fst (resolveProperty h prop currentSchema baseDir st)) = Some v.
Proof.
  intros Hnd Hname Hm. unfold resolveProperty.
  destruct (truthy prop); [|done]. cbn [negb].
  destruct (member "$ref" prop) as [[| | |ref| |]|]; try done.
  destruct (Js.falsy_string ref); [done|]. unfold bind, ret.
  destruct (resolveRef h ref currentSchema baseDir st) as [resolved st'].
  destruct (truthy resolved); [|done]. cbn [fst member].
  destruct prop as [| | | | |fs]; try done. cbn [member entries] in *.
  rewrite assoc_spread by (apply remove_key_NoDup, Hnd).
  rewrite assoc_remove_key. apply String.eqb_neq in Hname. by rewrite Hname, Hm.
Qed.


End Revocable.



(* ===================================================================== *)
(** * Type names                                                          *)
(* ===================================================================== *)

Section TypeNames.

Lemma member_set_key name k v fs :
  member name (JObj (set_key k v fs))
  = if String.eqb name k then Some v else member name (JObj fs).
Proof. apply assoc_set_key. Qed.

Lemma or_else_none (ts : list json) :
  or_else (find is_not_null_name ts) (head ts) = None -> ts = [].
Proof.
  unfold or_else. destruct ts as [|t ts]; [done|].
  destruct (truthy_opt (find is_not_null_name (t :: ts))) eqn:E; [|done].
  intros H. rewrite H in E. done.
Qed.

End TypeNames.

Section DeclaredTypes.

Lemma find_not_null_names (ts : list json) t :
  forallb (fun name => match name with JStr _ => true | _ => false end) ts = true ->
  or_else (find is_not_null_name ts) (head ts) = Some t ->
  exists s, t = JStr s.
Proof.
  intros Hall Ht.
  assert (Hin : t ∈ ts).
  { unfold or_else in Ht.
    destruct (truthy_opt (find is_not_null_name ts)).
    - apply find_some in Ht as [Hin _]. by apply list_elem_of_In.
    - destruct ts as [|a ts]; [done|]. injection Ht as <-. left. }
  rewrite forallb_forall in Hall. apply list_elem_of_In in Hin.
  specialize (Hall t Hin). destruct t; try done. by eexists.
Qed.

End DeclaredTypes.

(** X20. On a property whose [type] is the empty array the mapper of
    generate-bas-object throws a TypeError (it lowers the first entry,
    which is undefined), where the mapper of generate-eas-object answers
    string (bytes32 with the ABI hint).  On a property whose [type] is as
    the interface declares it (absent, a name, or an array of names) the
    BAS mapper throws in no other case, the array branch apart, where the
    [type] of the items can be the empty array. *)
Theorem bas_mapper_empty_type (h : host) (property : json) (key : string)
    (currentSchema : json) (baseDir : string) (st : state) :
  let bas :=
    fst (GenerateBasObject.mapJsonSchemaPropertyToAbiType h property key
           currentSchema baseDir st) in
  let eas :=
    fst (mapJsonSchemaPropertyToAbiType h property key currentSchema baseDir st) in
  (member "type" property = Some (JArr []) ->
   bas = GenerateBasObject.TypeErrorThrown
   /\ (eas = Some "string" \/ eas = Some "bytes32"))
  /\ (declared_type property = true ->
      bas = GenerateBasObject.TypeErrorThrown ->
      member "type" property = Some (JArr [])
      \/ exists name,
           GenerateBasObject.typeToProcess property = Some (JStr name)
           /\ Js.toLowerCase name = "array").
Proof.
  cbv zeta. split.
  - intros Hty. split.
    + unfold GenerateBasObject.mapJsonSchemaPropertyToAbiType,
        GenerateBasObject.typeToProcess.
      by rewrite Hty.
    + unfold mapJsonSchemaPropertyToAbiType, resolveJsonType.
      destruct (String.eqb key "purpose"); [by left|].
      rewrite (member_truthy _ _ _ Hty), Hty. cbn [negb map pickPriorityType
        is_array_type ret fst].
      unfold jsonTypeToAbi. cbn [xAbi option_map].
      destruct (is_str "bytes32" (member "x-oma3-abi" property)); [by right|by left].
  - intros Hdecl. unfold GenerateBasObject.mapJsonSchemaPropertyToAbiType.
    destruct (GenerateBasObject.typeToProcess property) as [t|] eqn:Ht.
    + destruct (String.eqb_spec (lowered t) "array") as [E|_].
      * intros _. right.
        assert (exists s, t = JStr s) as [s ->].
        { unfold GenerateBasObject.typeToProcess in Ht.
          destruct property as [| | | | |fields]; try discriminate Hdecl.
          cbn [declared_type member] in Hdecl, Ht.
          destruct (assoc "type" fields) as [[|b0|n|s|ts|o]|]; try discriminate Hdecl.
          - destruct (truthy (JStr s)); injection Ht as <-; by eexists.
          - by apply (find_not_null_names ts).
          - injection Ht as <-. by eexists. }
        by exists s.
      * unfold GenerateBasObject.scalarBranch, ret. cbn [fst].
        repeat match goal with
               | |- context [if ?b then _ else _] => destruct b
               end; done.
    + intros _. left. unfold GenerateBasObject.typeToProcess in Ht.
      destruct (member "type" property) as [[|b0|n|s|ts|o]|]; try done.
      * by destruct (truthy (JBool b0)).
      * by destruct (truthy (JNum n)).
      * by destruct (truthy (JStr s)).
      * by apply or_else_none in Ht as ->.
Qed.

Lemma bas_mapper_empty_type_witness :
  fst (GenerateBasObject.mapJsonSchemaPropertyToAbiType sample_disk
         (JObj [("type", JArr [])]) "note" (JObj []) "/schemas" initial)
  = GenerateBasObject.TypeErrorThrown
  /\ (fst (mapJsonSchemaPropertyToAbiType sample_disk
             (JObj [("type", JArr [])]) "note" (JObj []) "/schemas" initial)
      = Some "string"
      \/ fst (mapJsonSchemaPropertyToAbiType sample_disk
                (JObj [("type", JArr [])]) "note" (JObj []) "/schemas" initial)
         = Some "bytes32")
  /\ (member "type"
        (JObj [("type", JStr "Array"); ("items", JObj [("type", JArr [])])])
      = Some (JArr [])
      \/ exists name,
           GenerateBasObject.typeToProcess
             (JObj [("type", JStr "Array"); ("items", JObj [("type", JArr [])])])
           = Some (JStr name)
           /\ Js.toLowerCase name = "array").
Proof.
  destruct (proj1 (bas_mapper_empty_type sample_disk (JObj [("type", JArr [])])
                     "note" (JObj []) "/schemas" initial) eq_refl) as [Hbas Heas].
  split; [exact Hbas|]. split; [exact Heas|].
  exact (proj2 (bas_mapper_empty_type sample_disk
                  (JObj [("type", JStr "Array"); ("items", JObj [("type", JArr [])])])
                  "list" (JObj []) "/schemas" initial) eq_refl eq_refl).
Defined.

(** X21. Type names are read without regard to letter case: writing the
    [type] of a property in lower case changes the answer of none of the
    three mappers ("String", "ARRAY" and "Integer" are string, array and
    integer). *)
Theorem type_name_case (h : host) (fs : list (string * json)) (t key : string)
    (currentSchema : json) (baseDir : string) (st : state) :
  member "type" (JObj fs) = Some (JStr t) ->
  let lower := JObj (set_key "type" (JStr (Js.toLowerCase t)) fs) in
  mapJsonSchemaPropertyToAbiType h lower key currentSchema baseDir st
  = mapJsonSchemaPropertyToAbiType h (JObj fs) key currentSchema baseDir st
  /\ GenerateEasObjectLegacy.mapJsonSchemaPropertyToAbiType lower key
     = GenerateEasObjectLegacy.mapJsonSchemaPropertyToAbiType (JObj fs) key
  /\ GenerateBasObject.mapJsonSchemaPropertyToAbiType h lower key currentSchema
       baseDir st
     = GenerateBasObject.mapJsonSchemaPropertyToAbiType h (JObj fs) key
         currentSchema baseDir st.
Proof.
  intros Hty lower. subst lower.
  assert (resolveJsonType (JObj (set_key "type" (JStr (Js.toLowerCase t)) fs))
          = resolveJsonType (JObj fs)) as Hres.
  { unfold resolveJsonType. cbn [truthy negb].
    rewrite member_set_key, Hty. cbn [String.eqb Ascii.eqb Bool.eqb].
    by rewrite toLowerCase_idem. }
  split; [|split].
  - unfold mapJsonSchemaPropertyToAbiType.
    rewrite Hres, !member_set_key. reflexivity.
  - unfold GenerateEasObjectLegacy.mapJsonSchemaPropertyToAbiType.
    rewrite Hres, !member_set_key. reflexivity.
  - unfold GenerateBasObject.mapJsonSchemaPropertyToAbiType,
      GenerateBasObject.typeToProcess, GenerateBasObject.scalarBranch.
    rewrite !member_set_key, Hty. cbn [String.eqb Ascii.eqb Bool.eqb].
    cbn [truthy]. destruct t as [|c t]; [reflexivity|].
    cbn [Js.toLowerCase Js.falsy_string negb].
    unfold lowered. cbn [js_String].
    change (String (Js.lower_ascii c) (Js.toLowerCase t))
      with (Js.toLowerCase (String c t)).
    rewrite toLowerCase_idem. reflexivity.
Qed.

Lemma type_name_case_witness :
  mapJsonSchemaPropertyToAbiType sample_disk
    (JObj [("type", JStr "integer")]) "score" (JObj []) "/schemas" initial
  = mapJsonSchemaPropertyToAbiType sample_disk
      (JObj [("type", JStr "Integer")]) "score" (JObj []) "/schemas" initial.
Proof.
  exact (proj1 (type_name_case sample_disk [("type", JStr "Integer")] "Integer"
                  "score" (JObj []) "/schemas" initial eq_refl)).
Defined.

(** X22. A type name that is not empty and is outside string, integer,
    number, boolean, object and array (such as "null" or "date"): the
    mapper of generate-bas-object leaves the field out, where the mapper
    of generate-eas-object falls back to string (bytes32 with the ABI
    hint). *)
Theorem unknown_type_name (h : host) (property : json) (t key : string)
    (currentSchema : json) (baseDir : string) (st : state) :
  member "type" property = Some (JStr t) ->
  t <> "" ->
  Js.toLowerCase t ∉ ["string"; "integer"; "number"; "boolean"; "object"; "array"] ->
  GenerateBasObject.mapJsonSchemaPropertyToAbiType h property key currentSchema
    baseDir st
  = (GenerateBasObject.Dropped, st)
  /\ exists abi,
       mapJsonSchemaPropertyToAbiType h property key currentSchema baseDir st
       = (Some abi, st)
       /\ (abi = "string" \/ abi = "bytes32").
Proof.
  intros Hty Ht Hnot.
  assert (forall name,
            name ∈ ["string"; "integer"; "number"; "boolean"; "object"; "array"] ->
            String.eqb (Js.toLowerCase t) name = false) as Hne.
  { intros name Hin. apply String.eqb_neq. intros E. apply Hnot. by rewrite E. }
  assert (String.eqb (Js.toLowerCase t) "string" = false) as Hs by (apply Hne; set_solver).
  assert (String.eqb (Js.toLowerCase t) "integer" = false) as Hi by (apply Hne; set_solver).
  assert (String.eqb (Js.toLowerCase t) "number" = false) as Hn by (apply Hne; set_solver).
  assert (String.eqb (Js.toLowerCase t) "boolean" = false) as Hb by (apply Hne; set_solver).
  assert (String.eqb (Js.toLowerCase t) "object" = false) as Ho by (apply Hne; set_solver).
  assert (String.eqb (Js.toLowerCase t) "array" = false) as Ha by (apply Hne; set_solver).
  split.
  - unfold GenerateBasObject.mapJsonSchemaPropertyToAbiType,
      GenerateBasObject.typeToProcess, GenerateBasObject.scalarBranch.
    rewrite Hty. cbn [truthy]. destruct t as [|c t]; [done|].
    cbn [Js.falsy_string negb]. unfold lowered. cbn [js_String].
    by rewrite Ha, Hs, Hi, Hn, Hb, Ho.
  - unfold mapJsonSchemaPropertyToAbiType, resolveJsonType.
    destruct (String.eqb key "purpose"); [exists "string"; by split; [|left]|].
    rewrite (member_truthy _ _ _ Hty), Hty. cbn [negb is_array_type].
    rewrite Ha. unfold jsonTypeToAbi. cbn [xAbi option_map ret].
    destruct (is_str "bytes32" (member "x-oma3-abi" property));
      [exists "bytes32"; by split; [|right]|].
    rewrite toLowerCase_idem, Ho, Hs, Hi, Hn, Hb. cbn [orb].
    exists "string". by split; [|left].
Qed.

Lemma unknown_type_name_witness :
  GenerateBasObject.mapJsonSchemaPropertyToAbiType sample_disk
    (JObj [("type", JStr "null")]) "note" (JObj []) "/schemas" initial
  = (GenerateBasObject.Dropped, initial)
  /\ exists abi,
       mapJsonSchemaPropertyToAbiType sample_disk
         (JObj [("type", JStr "null")]) "note" (JObj []) "/schemas" initial
       = (Some abi, initial)
       /\ (abi = "string" \/ abi = "bytes32").
Proof.
  apply (unknown_type_name sample_disk (JObj [("type", JStr "null")]) "null");
    [reflexivity|discriminate|].
  apply (bool_decide_unpack _). vm_compute. exact I.
Defined.

(* ===================================================================== *)
(** * The schema string of generate-bas-object                            *)
(* ===================================================================== *)

Section BasBuilder.

Import GenerateBasObject.

Variable h : host.
Variable currentSchema : json.
Variable baseDir : string.








End BasBuilder.



(** The scenarios of the builder of generate-eas-object, in
    generate-bas-object; and a property with an empty [type] array, which
    makes the call throw. *)
Example bas_schema_string_scenarios :
  fst (GenerateBasObject.buildSchemaString sample_disk
         skip_reasons_properties skip_reasons_schema "/schemas" initial)
  = Some "string value, string reservedField"
  /\ fst (GenerateBasObject.buildSchemaString sample_disk
            (Some (JObj [("subject", typed "string");
                         ("broken", JObj [("type", JArr [])]);
                         ("score", typed "integer")]))
            (JObj []) "/schemas" initial)
     = None.
Proof. vm_compute. split; reflexivity. Qed.

(* ===================================================================== *)
(** * The two versions of generate-bas-object                             *)
(* ===================================================================== *)

Section BasVersions.

Variable h : host.
Variable currentSchema : json.
Variable baseDir : string.

Lemma resolveProperty_truthy prop st :
  truthy prop = true ->
  truthy (fst (resolveProperty h prop currentSchema baseDir st)) = true.
Proof.
  intros Ht. unfold resolveProperty. rewrite Ht. cbn [negb].
  destruct (member "$ref" prop) as [[| | |ref| |]|]; try done.
  destruct (Js.falsy_string ref); [done|]. unfold bind, ret.
  destruct (resolveRef h ref currentSchema baseDir st) as [resolved st'].
  by destruct (truthy resolved).
Qed.

Lemma legacy_arrayOf_extends t a :
  GenerateBasObjectLegacy.arrayOf t = Some a -> arrayOf t = Some a.
Proof.
  unfold GenerateBasObjectLegacy.arrayOf, arrayOf. cbv zeta.
  repeat match goal with
         | |- context [if ?b then _ else _] => destruct b
         end; done.
Qed.

Lemma legacy_arrayBranch_extends items resolvedItems t :
  truthy resolvedItems = true ->
  member "type" resolvedItems = member "type" items ->
  GenerateBasObjectLegacy.arrayBranch (Some items) = GenerateBasObject.Abi t ->
  GenerateBasObject.arrayBranch (Some resolvedItems) = GenerateBasObject.Abi t.
Proof.
  intros Htr Hty. unfold GenerateBasObjectLegacy.arrayBranch, GenerateBasObject.arrayBranch.
  rewrite Htr, Hty.
  destruct (truthy items); [|done]. cbn [andb].
  destruct (truthy_opt (member "type" items)); [|done].
  destruct (match member "type" items with
            | Some (JArr ts) => or_else (find is_not_null_name ts) (head ts)
            | other => other
            end) as [it|]; [|done].
  destruct (GenerateBasObjectLegacy.arrayOf (js_String it)) as [a|] eqn:Ha; [|done].
  by rewrite (legacy_arrayOf_extends _ _ Ha).
Qed.

Lemma legacy_scalarBranch_extends typeLower p t :
  GenerateBasObjectLegacy.scalarBranch typeLower p = GenerateBasObject.Abi t ->
  GenerateBasObject.scalarBranch typeLower p = GenerateBasObject.Abi t.
Proof.
  unfold GenerateBasObjectLegacy.scalarBranch, GenerateBasObject.scalarBranch.
  repeat match goal with
         | |- context [if ?b then _ else _] => destruct b
         end; done.
Qed.

Lemma legacy_Abi_truthy_type p t ty :
  GenerateBasObjectLegacy.mapJsonSchemaPropertyToAbiType p = GenerateBasObject.Abi t ->
  member "type" p = Some ty -> truthy ty = true.
Proof.
  unfold GenerateBasObjectLegacy.mapJsonSchemaPropertyToAbiType,
    GenerateBasObjectLegacy.typeToProcess.
  intros H Hty. rewrite Hty in H.
  destruct ty as [|[]|n|s|ts|o]; try done.
  - destruct (String.eqb_spec n "0") as [->|Hn]; [done|].
    cbn [truthy]. apply negb_true_iff. by apply String.eqb_neq.
  - by destruct s.
Qed.

End BasVersions.

(** X24. The version of generate-bas-object that resolves references is a
    conservative extension of the version before it: whatever type the
    earlier mapper gives a property, the later mapper gives the same
    type, also when the items of an array hold a [$ref] (their own [type]
    wins over the target's).  (Member names of the items distinct.) *)
Theorem bas_mapper_conservative (h : host) (property : json) (key : string)
    (currentSchema : json) (baseDir : string) (st : state) (t : string) :
  (forall items, member "items" property = Some items -> NoDup (keys items)) ->
  GenerateBasObjectLegacy.mapJsonSchemaPropertyToAbiType property
  = GenerateBasObject.Abi t ->
  fst (GenerateBasObject.mapJsonSchemaPropertyToAbiType h property key
         currentSchema baseDir st)
  = GenerateBasObject.Abi t.
Proof.
  intros Hnd Hfirst.
  assert (forall ty, member "type" property = Some ty -> truthy ty = true)
    as Htruthy by (intros ty; by apply (legacy_Abi_truthy_type property t ty)).
  unfold GenerateBasObjectLegacy.mapJsonSchemaPropertyToAbiType in Hfirst.
  unfold GenerateBasObject.mapJsonSchemaPropertyToAbiType.
  assert (GenerateBasObject.typeToProcess property
          = GenerateBasObjectLegacy.typeToProcess property) as ->.
  { unfold GenerateBasObject.typeToProcess, GenerateBasObjectLegacy.typeToProcess in *.
    destruct (member "type" property) as [ty|]; [|done].
    specialize (Htruthy ty eq_refl). destruct ty; try done; by rewrite Htruthy. }
  destruct (GenerateBasObjectLegacy.typeToProcess property) as [ty|]; [|done].
  cbv zeta in Hfirst. destruct (String.eqb (lowered ty) "array").
  - destruct (member "items" property) as [items|] eqn:Hitems; [|done].
    assert (truthy items = true) as Hti.
    { unfold GenerateBasObjectLegacy.arrayBranch in Hfirst.
      by destruct (truthy items). }
    rewrite Hti. unfold bind, ret.
    destruct (truthy_opt (member "$ref" items) && truthy currentSchema
              && negb (Js.falsy_string baseDir)).
    + pose proof (resolveProperty_truthy h currentSchema baseDir items st Hti) as Htr.
      assert (member "type" (fst (resolveProperty h items currentSchema baseDir st))
              = member "type" items) as Hty.
      { destruct (member "type" items) as [ty'|] eqn:E.
        - by apply resolveProperty_keeps_local; [apply Hnd| |].
        - unfold GenerateBasObjectLegacy.arrayBranch in Hfirst.
          rewrite Hti, E in Hfirst. done. }
      destruct (resolveProperty h items currentSchema baseDir st) as [resolved st'].
      cbn [fst] in *. by eapply legacy_arrayBranch_extends.
    + cbn [fst]. by eapply legacy_arrayBranch_extends.
  - cbn [ret fst]. by apply legacy_scalarBranch_extends.
Qed.

Lemma bas_mapper_conservative_witness :
  fst (GenerateBasObject.mapJsonSchemaPropertyToAbiType sample_disk
         (JObj [("type", JStr "array");
                ("items", JObj [("$ref", JStr "#/$defs/Attester");
                                ("type", JStr "integer")])])
         "scores" skip_reasons_schema "/schemas" initial)
  = GenerateBasObject.Abi "uint256[]".
Proof.
  apply bas_mapper_conservative; [|reflexivity].
  intros items [= <-]. apply (bool_decide_unpack _). vm_compute. exact I.
Defined.

(* ===================================================================== *)
(** * External references                                                 *)
(* ===================================================================== *)

(** X25. An external reference [file#fragment] is the local reference
    [#fragment] in the document loaded from [file]: the current schema
    plays no part, and the answer is null when the file cannot be
    loaded.  (A file name that is not empty; no other [#] in the
    reference.) *)
Theorem resolveRef_external (h : host) (file fragment : string)
    (currentSchema : json) (baseDir : string) (st : state) :
  file <> "" ->
  includes_char "#" file = false ->
  includes_char "#" fragment = false ->
  resolveRef h (file +:+ "#" +:+ fragment) currentSchema baseDir st
  = let '(document, st') := loadExternalSchema h file baseDir st in
    if truthy document
    then resolveRef h ("#" +:+ fragment) document baseDir st'
    else (JNull, st').
Proof.
  intros Hfile Hno Hfrag. unfold resolveRef at 1.
  assert (Js.falsy_string (file +:+ "#" +:+ fragment) = false) as ->
    by (destruct file; done).
  assert (includes_char "#" (file +:+ "#" +:+ fragment) = true) as ->.
  { rewrite includes_char_app. change ("#" +:+ fragment) with (String "#" fragment).
    rewrite includes_char_cons, Ascii.eqb_refl. by rewrite orb_true_r. }
  assert (Js.startsWith "#" (file +:+ "#" +:+ fragment) = false) as ->.
  { destruct file as [|c file]; [done|]. rewrite append_cons. cbn [Js.startsWith].
    rewrite includes_char_cons in Hno. apply orb_false_iff in Hno as [Hc _].
    rewrite Ascii.eqb_sym in Hc. by rewrite Hc. }
  cbn [negb andb].
  change (file +:+ "#" +:+ fragment) with (file +:+ String "#" fragment).
  rewrite (split_app _ _ _ Hno), (split_without _ _ Hfrag). cbn [nth].
  unfold bind, ret.
  destruct (loadExternalSchema h file baseDir st) as [document st'].
  destruct (truthy document); [|done]. cbn [negb].
  by rewrite resolveRef_local by (right; reflexivity).
Qed.

Lemma resolveRef_external_witness :
  resolveRef sample_disk "common.schema.json#/$defs/Proof" (JObj []) "/schemas"
    initial
  = (typed "string",
     snd (loadExternalSchema sample_disk "common.schema.json" "/schemas" initial)).
Proof.
  exact (resolveRef_external sample_disk "common.schema.json" "/$defs/Proof"
           (JObj []) "/schemas" initial ltac:(discriminate) eq_refl eq_refl).
Defined.
